(** * Stanford alumni directory crawler: model and verified properties

    A shallow embedding of the crawler's extraction-and-dedup loop
    ([StanfordAlumniCrawler] and its stealth subclass).  The browser page,
    the clock and the file system are the environment: every call into
    them is represented by the outcome the environment gave (a value or a
    thrown error), and the JavaScript control flow around these calls is
    transcribed as it is written.

    Strings are sequences of UTF-16 code units; the model keeps the code
    units below 256 (Rocq's [ascii]), which covers every literal that
    occurs in the source patterns. *)

From Stdlib Require Import ZArith Ascii String.
From stdpp Require Import base tactics option list strings gmap sets.

Set Warnings "-abstract-large-number".

Local Open Scope Z_scope.
Local Open Scope nat_scope.

(* ===================================================================== *)
(** ** JavaScript string primitives *)
(* ===================================================================== *)

Module JS.

(** [WhiteSpace] and [LineTerminator] code units below 256: the set that
    [String.prototype.trim] strips and that the pattern class [\s]
    matches. *)
Definition isSpace (c : ascii) : bool :=
  match c with
  | "009" | "010" | "011" | "012" | "013" | " " | "160" => true
  | _ => false
  end%char.

(** [LineTerminator] code units: what the pattern [.] does not match. *)
Definition isLineTerminator (c : ascii) : bool :=
  match c with
  | "010" | "013" => true
  | _ => false
  end%char.

Definition isDigit (c : ascii) : bool :=
  let n := nat_of_ascii c in (48 <=? n) && (n <=? 57).

Definition isUpper (c : ascii) : bool :=
  let n := nat_of_ascii c in (65 <=? n) && (n <=? 90).

Definition isLower (c : ascii) : bool :=
  let n := nat_of_ascii c in (97 <=? n) && (n <=? 122).

Definition isLetter (c : ascii) : bool := isUpper c || isLower c.

(** The pattern class [\w]. *)
Definition isWord (c : ascii) : bool :=
  isLetter c || isDigit c || Ascii.eqb c "_"%char.

(** Case folding of one code unit, for the [i] flag on patterns whose
    literals are ASCII letters. *)
Definition lowerChar (c : ascii) : ascii :=
  if isUpper c then ascii_of_nat (nat_of_ascii c + 32) else c.

Fixpoint toLowerCase (s : string) : string :=
  match s with
  | "" => ""
  | String c s' => String (lowerChar c) (toLowerCase s')
  end.

(** [s.startsWith(p)] *)
Fixpoint startsWith (s p : string) : bool :=
  match p, s with
  | "", _ => true
  | String _ _, "" => false
  | String a p', String b s' => Ascii.eqb a b && startsWith s' p'
  end.

(** [s.endsWith(p)] *)
Definition endsWith (s p : string) : bool :=
  startsWith (String.rev s) (String.rev p).

(** [s.includes(needle)] *)
Fixpoint includes (s needle : string) : bool :=
  startsWith s needle ||
  match s with
  | "" => false
  | String _ s' => includes s' needle
  end.

(** [s.indexOf(needle)], with [-1] when the needle does not occur. *)
Fixpoint indexOfFrom (i : Z) (s needle : string) : Z :=
  if startsWith s needle then i
  else match s with
       | "" => (-1)%Z
       | String _ s' => indexOfFrom (i + 1)%Z s' needle
       end.

Definition indexOf (s needle : string) : Z := indexOfFrom 0%Z s needle.

Fixpoint take (n : nat) (s : string) : string :=
  match n, s with
  | S n', String c s' => String c (take n' s')
  | _, _ => ""
  end.

Fixpoint drop (n : nat) (s : string) : string :=
  match n, s with
  | S n', String _ s' => drop n' s'
  | _, _ => s
  end.

(** [s.substring(start, end)] for [start <= end]; indices beyond the
    length are clamped, as in JavaScript. *)
Definition substring (s : string) (start finish : nat) : string :=
  take (finish - start) (drop start s).

(** [s.substring(start)] *)
Definition substringFrom (s : string) (start : nat) : string :=
  drop start s.

(** [s.slice(1, -1)] *)
Definition sliceInner (s : string) : string :=
  take (String.length s - 2) (drop 1 s).

(** [s.slice(-n)] *)
Definition sliceLast (n : nat) (s : string) : string :=
  drop (String.length s - n) s.

Fixpoint trimStart (s : string) : string :=
  match s with
  | "" => ""
  | String c s' => if isSpace c then trimStart s' else s
  end.

Definition trimEnd (s : string) : string :=
  String.rev (trimStart (String.rev s)).

(** [s.trim()] *)
Definition trim (s : string) : string := trimEnd (trimStart s).

(** [s.split(sep)] for a one-character separator. *)
Fixpoint split (sep : ascii) (s : string) : list string :=
  match s with
  | "" => [""]
  | String c s' =>
      if Ascii.eqb c sep then "" :: split sep s'
      else match split sep s' with
           | [] => [String c ""]
           | h :: t => String c h :: t
           end
  end.

(** [s.replace(pattern, "")] for a string pattern: the first occurrence
    is removed. *)
Fixpoint removeSubstring (s pattern : string) : string :=
  if startsWith s pattern then drop (String.length pattern) s
  else match s with
       | "" => ""
       | String c s' => String c (removeSubstring s' pattern)
       end.

(** [xs.join(sep)] *)
Fixpoint join (sep : string) (xs : list string) : string :=
  match xs with
  | [] => ""
  | [x] => x
  | x :: rest => x +:+ sep +:+ join sep rest
  end.

(** A string used as a condition is truthy when it is not empty. *)
Definition truthy (s : string) : bool :=
  match s with "" => false | _ => true end.

(** [a || b] on strings. *)
Definition orElse (a b : string) : string := if truthy a then a else b.

(** [[...new Set(xs)]]: first occurrences, in insertion order. *)
Fixpoint uniq (seen : list string) (xs : list string) : list string :=
  match xs with
  | [] => []
  | x :: rest =>
      if bool_decide (x ∈ seen) then uniq seen rest
      else x :: uniq (x :: seen) rest
  end.

Definition LF : ascii := "010"%char.
Definition CR : ascii := "013"%char.
Definition DQ : ascii := "034"%char.

(** A literal between double quotes, for the selectors that contain
    quoted attribute values. *)
Definition quoted (s : string) : string :=
  String DQ (s +:+ String DQ "").

End JS.

(* ===================================================================== *)
(** ** Regular expressions (backtracking, leftmost, greedy) *)
(* ===================================================================== *)

Module Re.

(** The fragment of the pattern language that the patterns applied on
    the Node side use.  [Group] is a capture group whose text the code
    reads ([match[1]]); a group that is only used for alternation is
    written without it. *)
Inductive regex : Type :=
| Eps
| Chr (p : ascii → bool)
| Seq (a b : regex)
| Alt (a b : regex)
| Star (a : regex)
| Group (a : regex)
| WordBoundary
| Bol
| Eol.

Definition Plus (a : regex) : regex := Seq a (Star a).
Definition Opt (a : regex) : regex := Alt a Eps.

(** [a{n}] *)
Fixpoint times (n : nat) (a : regex) : regex :=
  match n with
  | O => Eps
  | S n' => Seq a (times n' a)
  end.

(** [a{0,n}], greedy. *)
Fixpoint upTo (n : nat) (a : regex) : regex :=
  match n with
  | O => Eps
  | S n' => Opt (Seq a (upTo n' a))
  end.

(** [a{lo,hi}] *)
Definition between (lo hi : nat) (a : regex) : regex :=
  Seq (times lo a) (upTo (hi - lo) a).

(** [a{lo,}] *)
Definition atLeast (lo : nat) (a : regex) : regex :=
  Seq (times lo a) (Star a).

Fixpoint seqs (rs : list regex) : regex :=
  match rs with
  | [] => Eps
  | [r] => r
  | r :: rest => Seq r (seqs rest)
  end.

(** A literal, compared under the [i] flag. *)
Fixpoint litI (s : string) : regex :=
  match s with
  | "" => Eps
  | String c s' =>
      Seq (Chr (λ x, Ascii.eqb (JS.lowerChar x) (JS.lowerChar c))) (litI s')
  end.

(** A case-sensitive literal. *)
Fixpoint lit (s : string) : regex :=
  match s with
  | "" => Eps
  | String c s' => Seq (Chr (Ascii.eqb c)) (lit s')
  end.

Fixpoint alts (rs : list regex) : regex :=
  match rs with
  | [] => Chr (λ _, false)
  | [r] => r
  | r :: rest => Alt r (alts rest)
  end.

Definition space : regex := Chr JS.isSpace.
Definition digit : regex := Chr JS.isDigit.
Definition anyChar : regex := Chr (λ c, negb (JS.isLineTerminator c)).

Definition wordAt (c : option ascii) : bool :=
  match c with Some x => JS.isWord x | None => false end.

Definition headOf (s : string) : option ascii :=
  match s with "" => None | String c _ => Some c end.

(** What a match attempt yields: the input left after the match and the
    text of the capture group, if the pattern has one and it took part. *)
Definition result : Type := string * option string.

(** [rmatch r cap prev rest k]: match [r] at the position whose
    preceding code unit is [prev] and whose remaining input is [rest],
    and hand the position reached to the continuation [k]; alternatives
    are tried in order and a loop prefers one more iteration, as a
    backtracking matcher does.  An iteration of a loop that consumes
    nothing is rejected.  [cap] is the capture made so far. *)
Fixpoint rmatch (r : regex) (cap : option string) (prev : option ascii)
    (rest : string)
    (k : option string → option ascii → string → option result)
    : option result :=
  match r with
  | Eps => k cap prev rest
  | Chr p =>
      match rest with
      | String c rest' => if p c then k cap (Some c) rest' else None
      | "" => None
      end
  | Seq a b =>
      rmatch a cap prev rest (λ cap' prev' rest', rmatch b cap' prev' rest' k)
  | Alt a b =>
      match rmatch a cap prev rest k with
      | Some out => Some out
      | None => rmatch b cap prev rest k
      end
  | Star a =>
      (fix loop (fuel : nat) (cap : option string) (prev : option ascii)
           (rest : string) : option result :=
         match fuel with
         | O => k cap prev rest
         | S fuel' =>
             match rmatch a cap prev rest
                     (λ cap' prev' rest',
                        if String.length rest' <? String.length rest
                        then loop fuel' cap' prev' rest' else None) with
             | Some out => Some out
             | None => k cap prev rest
             end
         end) (S (String.length rest)) cap prev rest
  | Group a =>
      rmatch a cap prev rest
        (λ _ prev' rest',
           k (Some (JS.take (String.length rest - String.length rest') rest))
             prev' rest')
  | WordBoundary =>
      if xorb (wordAt prev) (wordAt (headOf rest)) then k cap prev rest
      else None
  | Bol => match prev with None => k cap prev rest | Some _ => None end
  | Eol => match rest with "" => k cap prev rest | _ => None end
  end.

(** A successful match: where it starts, its text, the capture, and what
    follows. *)
Record found : Type := Found {
  index : nat;
  text : string;
  group : option string;
  before : option ascii;   (* code unit preceding the end of the match *)
  after : string
}.

Definition lastOf (prev : option ascii) (m : string) : option ascii :=
  match String.rev m with
  | "" => prev
  | String c _ => Some c
  end.

(** One attempt at a fixed position. *)
Definition matchHere (r : regex) (i : nat) (prev : option ascii)
    (rest : string) : option found :=
  match rmatch r None prev rest (λ cap _ rest', Some (rest', cap)) with
  | Some (rest', cap) =>
      let m := JS.take (String.length rest - String.length rest') rest in
      Some (Found i m cap (lastOf prev m) rest')
  | None => None
  end.

(** The leftmost match at or after the current position. *)
Fixpoint searchFrom (r : regex) (i : nat) (prev : option ascii)
    (rest : string) : option found :=
  match matchHere r i prev rest with
  | Some f => Some f
  | None =>
      match rest with
      | "" => None
      | String c rest' => searchFrom r (S i) (Some c) rest'
      end
  end.

(** [s.match(r)] for a pattern without the [g] flag. *)
Definition exec (r : regex) (s : string) : option found :=
  searchFrom r 0 None s.

(** [r.test(s)] *)
Definition test (r : regex) (s : string) : bool :=
  match exec r s with Some _ => true | None => false end.

(** [s.match(r)] for a pattern with the [g] flag: every match, each
    search resuming where the previous match ended (one code unit later
    after an empty match). *)
Fixpoint matchAllFrom (fuel : nat) (r : regex) (i : nat)
    (prev : option ascii) (rest : string) : list string :=
  match fuel with
  | O => []
  | S fuel' =>
      match searchFrom r i prev rest with
      | None => []
      | Some f =>
          let stop := index f + String.length (text f) in
          match text f, after f with
          | "", "" => [text f]
          | "", String c rest' =>
              text f :: matchAllFrom fuel' r (S stop) (Some c) rest'
          | _, _ =>
              text f :: matchAllFrom fuel' r stop (before f) (after f)
          end
      end
  end.

Definition matchAll (r : regex) (s : string) : list string :=
  matchAllFrom (S (String.length s)) r 0 None s.

(** [s.replace(r, "")] for a pattern without the [g] flag. *)
Definition removeFirst (r : regex) (s : string) : string :=
  match exec r s with
  | None => s
  | Some f => JS.take (index f) s +:+ after f
  end.

End Re.

(* ===================================================================== *)
(** ** Degree extraction (the function evaluated in the profile page) *)
(* ===================================================================== *)

Module Degree.
Import Re.

Definition abbreviations : list string :=
  ["MBA"; "MS"; "PhD"; "BA"; "BS"; "JD"; "MD"; "MA"; "MEd"; "MFA"; "MPH";
   "MSW"; "MPA"; "LLM"; "ScD"; "EdD"].

Definition apostrophe : regex := Chr (Ascii.eqb "'"%char).

(** [/\b(MBA|MS|...|EdD)\s*['']?\d{2}\b/i] *)
Definition prominentDegree : regex :=
  Seq WordBoundary
    (Seq (alts (litI <$> abbreviations))
       (Seq (Star space)
          (Seq (Opt apostrophe)
             (Seq digit (Seq digit WordBoundary))))).

(** [/\n\s*(More about me|Skills & specialties|...)/i] *)
Definition nextSection : regex :=
  Seq (Chr (Ascii.eqb JS.LF))
    (Seq (Star space)
       (alts (litI <$>
          ["More about me"; "Skills & specialties"; "Stanford information";
           "Contact information"; "Professional experience";
           "Personal information"]))).

(** [/^\d{4}$/] *)
Definition yearLine : regex :=
  Seq Bol (Seq digit (Seq digit (Seq digit (Seq digit Eol)))).

(** [/\b(BS|BA|...|EdD|Bachelor|Master|Doctor)\b/i] *)
Definition degreeLine : regex :=
  Seq WordBoundary
    (Seq (alts (litI <$>
            ["BS"; "BA"; "MS"; "MA"; "MBA"; "PhD"; "JD"; "MD"; "MEd"; "MFA";
             "MPH"; "MSW"; "MPA"; "LLM"; "ScD"; "EdD"; "Bachelor"; "Master";
             "Doctor"]))
       WordBoundary).

(** [/School\s*$/], [/Humanities.*$/], [/Sciences.*$/] *)
Definition schoolTail : regex := Seq (lit "School") (Seq (Star space) Eol).
Definition humanitiesTail : regex :=
  Seq (lit "Humanities") (Seq (Star anyChar) Eol).
Definition sciencesTail : regex :=
  Seq (lit "Sciences") (Seq (Star anyChar) Eol).

(** The class [[A-Za-z\s,()&-]]. *)
Definition nameClass (c : ascii) : bool :=
  JS.isLetter c || JS.isSpace c ||
  match c with
  | "," | "(" | ")" | "&" | "-" => true
  | _ => false
  end%char.

(** [/(Bachelor|Master|Doctor)\s+of\s+[A-Za-z\s,()&-]+/gi] *)
Definition fullDegreeName : regex :=
  Seq (alts (litI <$> ["Bachelor"; "Master"; "Doctor"]))
    (Seq (Plus space)
       (Seq (litI "of") (Seq (Plus space) (Plus (Chr nameClass))))).

(** [/\b(MBA|MS|...|EdD)\s*-?\s*[A-Za-z\s,()&-]+/gi] *)
Definition abbreviationWithField : regex :=
  Seq WordBoundary
    (Seq (alts (litI <$> abbreviations))
       (Seq (Star space)
          (Seq (Opt (Chr (Ascii.eqb "-"%char)))
             (Seq (Star space) (Plus (Chr nameClass)))))).

Definition fullDegreePatterns : list regex :=
  [fullDegreeName; abbreviationWithField].

Definition simpleDegreePatterns : list regex := [prominentDegree].

(** The body of the loop over the lines of the "Degrees" section: the
    state is the current year and the degrees collected so far. *)
Definition degreeLineStep (acc : string * list string) (line : string)
    : string * list string :=
  let '(currentYear, degreeInfo) := acc in
  if test yearLine line then (line, degreeInfo)
  else if test degreeLine line then
    let cleanDegree :=
      JS.trim (removeFirst sciencesTail
                 (removeFirst humanitiesTail
                    (removeFirst schoolTail line))) in
    if JS.truthy cleanDegree && (2 <? String.length cleanDegree) then
      if JS.truthy currentYear then
        (currentYear,
         degreeInfo ++ [cleanDegree +:+ " '" +:+ JS.sliceLast 2 currentYear])
      else (currentYear, degreeInfo ++ [cleanDegree])
    else acc
  else acc.

(** Method 2: the "Degrees" section. *)
Definition degreesSection (fullText : string) : option string :=
  let degreesIndex := JS.indexOf fullText "Degrees" in
  if (degreesIndex =? -1)%Z then None
  else
    let afterDegrees :=
      JS.substringFrom fullText
        (Z.to_nat degreesIndex + String.length "Degrees") in
    let degreesText :=
      match exec nextSection afterDegrees with
      | Some m => JS.substring afterDegrees 0 (index m)
      | None => JS.substring afterDegrees 0 800
      end in
    let lines :=
      filter (λ line, JS.truthy line = true)
        (JS.trim <$> JS.split JS.LF degreesText) in
    let degreeInfo := (foldl degreeLineStep ("", []) lines).2 in
    if 0 <? length degreeInfo then Some (JS.join ", " degreeInfo) else None.

Definition reasonable (m : string) : bool :=
  (String.length m <? 100) && negb (JS.includes m "Stanford") &&
  negb (JS.includes m "Alumni") && negb (JS.includes m "Directory").

(** Method 3: the first reasonable match of the first pattern that has
    one. *)
Fixpoint fullDegree (patterns : list regex) (fullText : string)
    : option string :=
  match patterns with
  | [] => None
  | pattern :: rest =>
      match List.find reasonable (matchAll pattern fullText) with
      | Some m => Some (JS.trim m)
      | None => fullDegree rest fullText
      end
  end.

(** Method 4: the first match of a simple pattern. *)
Fixpoint simpleDegree (patterns : list regex) (fullText : string)
    : option string :=
  match patterns with
  | [] => None
  | pattern :: rest =>
      match matchAll pattern fullText with
      | m :: _ => Some (JS.trim m)
      | [] => simpleDegree rest fullText
      end
  end.

(** The function passed to [page.evaluate] for the degree, applied to
    [document.body.textContent]. *)
Definition extractDegree (fullText : string) : string :=
  let nameSection := JS.substring fullText 0 500 in
  match exec prominentDegree nameSection with
  | Some m => JS.trim (text m)
  | None =>
      match degreesSection fullText with
      | Some d => d
      | None =>
          match fullDegree fullDegreePatterns fullText with
          | Some d => d
          | None =>
              match simpleDegree simpleDegreePatterns fullText with
              | Some d => d
              | None => "N/A"
              end
          end
      end
  end.

End Degree.

(* ===================================================================== *)
(** ** Outcomes, the console, and state that survives a throw *)
(* ===================================================================== *)

(** What an awaited call produced: a value, or a thrown error with its
    message. *)
Inductive outcome (A : Type) : Type :=
| Returned (a : A)
| Thrown (message : string).
Arguments Returned {A} a.
Arguments Thrown {A} message.

(** The lines of console output the properties below speak about.  The
    constructors whose name starts with [Warn] are written by
    [console.warn]; the others by [console.log]. *)
Inductive notice : Type :=
| WarnReadingExistingCSV (message : string)
| FoundExistingNames (count : nat)
| NoRecordToSave
| SavedToCSV (name : string)
| FailedToGetElementText (message : string)
| AlternativeLinkSearchFailed (message : string)
| NoProfileLink (name : string)
| UrlExtractionFailed (message : string)
| PhoneExtractionFailed (message : string)
| EmailSelectorFailed (message : string)
| ButtonClickingFailed (message : string)
| WarnContactExtractionFailed (name message : string)
| WarnCareerSupportCheckFailed (name message : string)
| WarnProfessionalContactCheckFailed (name message : string)
| WarnSkillsExtractionFailed (name message : string)
| WarnFailedToExtractFromElement (message : string)
| NoAlumniCardsFound (searchType : string)
| Extracted (name searchType : string)
| SkippingDuplicate (name : string)
| FilteredOutNonAlumni (name : string)
| SessionLimitReached
| NoMorePages (searchType : string)
| TimeoutWaitingForNewPage
| WarnErrorCrawling (searchType message : string)
| ClickingNextPage (selector : string)
| NewContentViaInfiniteScroll
| WarnErrorNavigatingToNextPage (message : string)
| SearchCompleted (searchTerm : string)
| CouldNotFindSearchBox (searchTerm : string)
| WarnSearchFailed (searchTerm message : string)
| StrategyCompleted (searchType : string) (count : nat)
| ErrorDuringCrawling (message : string).

(** A computation over mutable state [S] that may throw.  The state
    reached before a throw is kept, as assignments to variables and pushes
    to arrays are in JavaScript. *)
Definition M (S A : Type) : Type := S → outcome A * S.

Definition ret {S A} (a : A) : M S A := λ s, (Returned a, s).

Definition bind {S A B} (m : M S A) (f : A → M S B) : M S B :=
  λ s, match m s with
       | (Returned a, s') => f a s'
       | (Thrown e, s') => (Thrown e, s')
       end.

Definition throw {S A} (e : string) : M S A := λ s, (Thrown e, s).

(** [try { m } catch (error) { handler error.message }] *)
Definition tryCatch {S A} (m : M S A) (handler : string → M S A) : M S A :=
  λ s, match m s with
       | (Returned a, s') => (Returned a, s')
       | (Thrown e, s') => handler e s'
       end.

Definition gets {S A} (f : S → A) : M S A := λ s, (Returned (f s), s).
Definition modify {S} (f : S → S) : M S unit := λ s, (Returned tt, f s).

(** [await] of a call whose outcome the environment decides. *)
Definition await {S A} (o : outcome A) : M S A := λ s, (o, s).

(** A computation on a component of the state. *)
Definition zoom {S T A} (get : S → T) (put : T → S → S) (m : M T A)
    : M S A :=
  λ s, let '(o, t) := m (get s) in (o, put t s).

Global Instance M_ret {S} : MRet (M S) := λ A, @ret S A.
Global Instance M_bind {S} : MBind (M S) := λ A B f m, bind m f.

(** [for (const x of xs) { body x }] without [break]. *)
Fixpoint forOf {S A} (xs : list A) (body : A → M S unit) : M S unit :=
  match xs with
  | [] => ret tt
  | x :: rest => body x;; forOf rest body
  end.

(* ===================================================================== *)
(** ** The alumni record *)
(* ===================================================================== *)

Record AlumniRecord : Type := {
  name : string;
  classYear : string;
  degree : string;
  location : string;
  company : string;
  stanfordEmail : string;
  personalEmail : string;
  urls : string;
  phone : string;
  skills : string;
  careerSupport : string;
  professionalContact : string;
  extractedAt : string
}.

Definition NA : string := "N/A".

(* ===================================================================== *)
(** ** The output sink: csv-writer and the file it writes *)
(* ===================================================================== *)

(** The file system as far as the crawler sees it: the content of the
    output file, when the file exists; and the console. *)
Record world : Type := World {
  fs : option string;
  console : list notice
}.

Definition log (n : notice) : M world unit :=
  modify (λ w, World (fs w) (console w ++ [n])).

Definition setFile (content : string) : M world unit :=
  modify (λ w, World (Some content) (console w)).

(** The object CSV writer of the csv-writer package (a dependency of the
    repository), in the configuration the crawler creates it with:
    comma-separated fields, line feed after every record, a field quoted
    when it contains the delimiter, a quote or a line feed. *)
Module CsvWriter.

Fixpoint hasChar (c : ascii) (s : string) : bool :=
  match s with
  | "" => false
  | String x s' => Ascii.eqb x c || hasChar c s'
  end.

Definition needsQuote (str : string) : bool :=
  hasChar ","%char str || hasChar JS.LF str || hasChar JS.DQ str.

Fixpoint doubleQuotes (s : string) : string :=
  match s with
  | "" => ""
  | String c s' =>
      if Ascii.eqb c JS.DQ
      then String JS.DQ (String JS.DQ (doubleQuotes s'))
      else String c (doubleQuotes s')
  end.

Definition quoteField (field : string) : string :=
  String JS.DQ (doubleQuotes field +:+ String JS.DQ "").

Definition stringify (value : string) : string :=
  if negb (JS.truthy value) then ""
  else if needsQuote value then quoteField value else value.

Definition getCsvLine (fields : list string) : string :=
  JS.join "," (stringify <$> fields).

Definition joinRecords (lines : list string) : string :=
  JS.join (String JS.LF "") lines +:+ String JS.LF "".

(** The [header] option: the columns, by record field and title. *)
Definition header : list ((AlumniRecord → string) * string) :=
  [(name, "Name"); (classYear, "Class Year"); (degree, "Degree");
   (location, "Location"); (company, "Company");
   (stanfordEmail, "Stanford Email"); (personalEmail, "Personal Email");
   (urls, "URLs"); (phone, "Phone"); (skills, "Skills");
   (careerSupport, "Career Support");
   (professionalContact, "Professional Contact");
   (extractedAt, "Extracted At")].

Definition headerString : string :=
  joinRecords [getCsvLine (snd <$> header)].

Definition recordLine (r : AlumniRecord) : string :=
  getCsvLine ((λ column, column.1 r) <$> header).

Definition stringifyRecords (records : list AlumniRecord) : string :=
  joinRecords (recordLine <$> records).

(** [writeRecords]: the header goes first unless the writer appends;
    the file is opened for appending or truncated accordingly.  The
    write may fail, with the error the environment gives. *)
Definition writeRecords (append : bool) (records : list AlumniRecord)
    (writeError : option string) : M world unit :=
  match writeError with
  | Some e => throw e
  | None =>
      existing ← gets fs;
      let writeString :=
        (if append then "" else headerString) +:+
        stringifyRecords records in
      setFile ((if append then default "" existing else "") +:+ writeString)
  end.

End CsvWriter.

(** [saveIncrementalCSV(newRecord)] *)
Definition saveIncrementalCSV (newRecord : option AlumniRecord)
    (writeError : option string) : M world unit :=
  match newRecord with
  | None => log NoRecordToSave
  | Some record =>
      existing ← gets fs;
      let fileExists := bool_decide (is_Some existing) in
      CsvWriter.writeRecords fileExists [record] writeError;;
      log (SavedToCSV (name record))
  end.

(** The name column of one line of the file, as [getExistingNames] reads
    it: the text before the first comma, without a surrounding pair of
    quotes; nothing for a blank line or a line whose first comma is at
    index 0 or missing. *)
Definition nameOfLine (rawLine : string) : option string :=
  let line := JS.trim rawLine in
  if JS.truthy line then
    let firstComma := JS.indexOf line "," in
    if (0 <? firstComma)%Z then
      let name := JS.substring line 0 (Z.to_nat firstComma) in
      if JS.startsWith name (String JS.DQ "") &&
         JS.endsWith name (String JS.DQ "")
      then Some (JS.sliceInner name)
      else Some name
    else None
  else None.

(** The loop over the lines after the header line. *)
Definition namesOfContent (csvContent : string) : gset string :=
  let lines := JS.split JS.LF csvContent in
  foldl (λ (existingNames : gset string) line,
           match nameOfLine line with
           | Some name => existingNames ∪ {[name]}
           | None => existingNames
           end) ∅ (List.tl lines).

(** [getExistingNames()]; [readError] is the error of [readFileSync], if
    it throws. *)
Definition getExistingNames (readError : option string)
    : M world (gset string) :=
  existing ← gets fs;
  match existing with
  | None => ret ∅
  | Some stored =>
      tryCatch
        (csvContent ← await (match readError with
                             | Some e => Thrown e
                             | None => Returned stored
                             end);
         let existingNames := namesOfContent csvContent in
         log (FoundExistingNames (size existingNames));;
         ret existingNames)
        (λ message, log (WarnReadingExistingCSV message);; ret ∅)
  end.

(* ===================================================================== *)
(** ** The page as the profile extractor meets it *)
(* ===================================================================== *)

(** An element handle: what reading its text, reading its [href]
    attribute and clicking it give. *)
Record element : Type := Element {
  textContent : outcome (option string);
  href : outcome (option string);
  click : outcome unit
}.

(** Everything the environment answers during one call of
    [extractAlumniFromElement]: the card, and the profile page behind it.
    The functions that [page.evaluate] runs inside the browser for the
    location, the company, the two flags, the professional-contact text
    and the skills section are the browser's: their value, or their
    failure, is given here.  The degree function is modelled
    ([Degree.extractDegree]) and is applied to the body text given here. *)
Record CardEnv : Type := {
  cardQuery : string → outcome (option element);   (* element.$(selector) *)
  cardQueryAll : string → outcome (list element);  (* element.$$(selector) *)
  cardText : outcome (option string);              (* element.textContent() *)
  degreeBodyText : outcome string;
  locationValue : outcome string;
  companyValue : outcome string;
  urlQueryAll : string → outcome (list element);   (* page.$$(selector) *)
  urlBodyText : outcome string;
  professionalContactText : outcome string;
  phoneQueryAll : string → outcome (list element);
  phoneBodyText : outcome string;
  emailSection : outcome (option element);         (* page.$('ul[...]') *)
  emailQueryAll : string → outcome (list element);
  emailBodyText : outcome string;
  buttons : outcome (list (element * outcome (list element)));
  hasCareerSupport : outcome bool;
  hasProfessionalContact : outcome bool;
  skillsSection : outcome string;
  skillsBodyText : outcome string;
  goBack : outcome unit;                           (* page.goto(currentUrl) *)
  now : string                                     (* new Date().toISOString() *)
}.

(** The variables of [extractAlumniFromElement] that are assigned inside
    [try] blocks, and the console. *)
Module Vars.
Record t : Type := Make {
  emails : list string;
  urls : list string;
  phones : list string;
  skills : list string;
  console : list notice
}.
Definition init (out : list notice) : t := Make [] [] [] [] out.
End Vars.

Module Profile.
Import Re.

Definition say (n : notice) : M Vars.t unit :=
  modify (λ v, Vars.Make (Vars.emails v) (Vars.urls v) (Vars.phones v)
                 (Vars.skills v) (Vars.console v ++ [n])).
Definition pushEmail (e : string) : M Vars.t unit :=
  modify (λ v, Vars.Make (Vars.emails v ++ [e]) (Vars.urls v)
                 (Vars.phones v) (Vars.skills v) (Vars.console v)).
Definition pushUrl (u : string) : M Vars.t unit :=
  modify (λ v, Vars.Make (Vars.emails v) (Vars.urls v ++ [u])
                 (Vars.phones v) (Vars.skills v) (Vars.console v)).
Definition pushPhone (p : string) : M Vars.t unit :=
  modify (λ v, Vars.Make (Vars.emails v) (Vars.urls v)
                 (Vars.phones v ++ [p]) (Vars.skills v) (Vars.console v)).
Definition pushSkill (k : string) : M Vars.t unit :=
  modify (λ v, Vars.Make (Vars.emails v) (Vars.urls v) (Vars.phones v)
                 (Vars.skills v ++ [k]) (Vars.console v)).
(** [emails = [...new Set(emails)]] and the same for urls and phones. *)
Definition removeDuplicates : M Vars.t unit :=
  modify (λ v, Vars.Make (JS.uniq [] (Vars.emails v))
                 (JS.uniq [] (Vars.urls v)) (JS.uniq [] (Vars.phones v))
                 (Vars.skills v) (Vars.console v)).

(** A value that may be [null], used as a condition together with a
    test on it: [x && test(x)]. *)
Definition holds (x : option string) (test : string → bool) : bool :=
  match x with Some v => JS.truthy v && test v | None => false end.

(** *** The name on the card *)

Definition nameSelectors : list string :=
  ["h3 a"; "h3"; "strong";
   "a[data-test=" +:+ JS.quoted "personcard-link" +:+ "]";
   ".personcard-name"; "[data-test*=" +:+ JS.quoted "name" +:+ "]"].

(** The loop over the name selectors: the trimmed text of the first
    selector whose element has text that is not blank; a selector that
    throws is passed over. *)
Fixpoint nameFromSelectors (env : CardEnv) (selectors : list string)
    : option string :=
  match selectors with
  | [] => None
  | selector :: rest =>
      match cardQuery env selector with
      | Returned (Some nameElement) =>
          match textContent nameElement with
          | Returned (Some nameText) =>
              if JS.truthy nameText && JS.truthy (JS.trim nameText) &&
                 negb (bool_decide (JS.trim nameText = ""))
              then Some (JS.trim nameText)
              else nameFromSelectors env rest
          | _ => nameFromSelectors env rest
          end
      | _ => nameFromSelectors env rest
      end
  end.

(** The first line of the card's text that is not blank. *)
Definition nameFromText (env : CardEnv) (name : string)
    : M Vars.t string :=
  tryCatch
    (elementText ← await (cardText env);
     match elementText with
     | None => throw "Cannot read properties of null (reading 'substring')"
     | Some elementText =>
         let lines :=
           filter (λ line, JS.truthy (JS.trim line) = true)
             (JS.split JS.LF elementText) in
         match lines with
         | line :: _ => ret (JS.trim line)
         | [] => ret name
         end
     end)
    (λ message, say (FailedToGetElementText message);; ret name).

Definition extractName (env : CardEnv) : M Vars.t string :=
  let name := default NA (nameFromSelectors env nameSelectors) in
  if bool_decide (name = NA) || bool_decide (name = "")
  then nameFromText env name
  else ret name.

(** *** The link to the profile *)

Definition profileLinkSelectors : list string :=
  ["a[data-test=" +:+ JS.quoted "personcard-link" +:+ "]"; "h3 a";
   "a[href*=" +:+ JS.quoted "/profile/" +:+ "]"; "a.stretched-link"; "a"].

(** The loop over the links of one query: the first link whose [href]
    passes the test; reading an [href] may throw. *)
Fixpoint firstLink (accept : string → bool) (links : list element)
    : outcome (option element) :=
  match links with
  | [] => Returned None
  | link :: rest =>
      match href link with
      | Thrown e => Thrown e
      | Returned h =>
          if holds h accept then Returned (Some link)
          else firstLink accept rest
      end
  end.

Definition linksOf (env : CardEnv) (accept : string → bool)
    (selector : string) : outcome (option element) :=
  match cardQueryAll env selector with
  | Thrown e => Thrown e
  | Returned links => firstLink accept links
  end.

Fixpoint linkFromSelectors (env : CardEnv) (selectors : list string)
    : option element :=
  match selectors with
  | [] => None
  | selector :: rest =>
      match linksOf env (λ h, JS.includes h "/profile/") selector with
      | Returned (Some link) => Some link
      | _ => linkFromSelectors env rest
      end
  end.

Definition alternativeLink (env : CardEnv) : M Vars.t (option element) :=
  tryCatch
    (await (linksOf env
              (λ h, JS.includes h "/profile/" ||
                    JS.includes h "stanford.edu") "a"))
    (λ message, say (AlternativeLinkSearchFailed message);; ret None).

Definition findProfileLink (env : CardEnv) : M Vars.t (option element) :=
  match linkFromSelectors env profileLinkSelectors with
  | Some link => ret (Some link)
  | None => alternativeLink env
  end.

(** *** Degree, location and company: [page.evaluate(...).catch(() => 'N/A')] *)

Definition orNA (value : outcome string) : string :=
  match value with
  | Returned v => v
  | Thrown _ => NA
  end.

Definition degreeOf (env : CardEnv) : string :=
  orNA (match degreeBodyText env with
        | Returned fullText => Returned (Degree.extractDegree fullText)
        | Thrown e => Thrown e
        end).

(** *** URLs *)

Definition urlSelectors : list string :=
  ["a[href*=" +:+ JS.quoted "linkedin.com" +:+ "]";
   "a[href*=" +:+ JS.quoted "www." +:+ "]";
   "a[href^=" +:+ JS.quoted "http" +:+ "]";
   "a[href^=" +:+ JS.quoted "https" +:+ "]"].

(** The directory's own pages and the university sites that are not
    kept. *)
Definition internalSites : list string :=
  ["alumnidirectory.stanford.edu"; "stanford.edu/profile";
   "stanford.edu/search"; "stanford.edu/site"; "myaccount.stanford.edu";
   "alumni.stanford.edu"; "give.stanford.edu"; "gostanford.com";
   "oval.stanford.edu"; "ed.stanford.edu"; "engineering.stanford.edu";
   "humsci.stanford.edu"; "law.stanford.edu"; "medicine.stanford.edu";
   "sustainability.stanford.edu"; "visit.stanford.edu";
   "emergency.stanford.edu"; "uit.stanford.edu";
   "adminguide.stanford.edu"; "non-discrimination.stanford.edu";
   "honorrolls.stanford.edu"; "studentservices.stanford.edu";
   "www.stanford.edu"; "gsb.stanford.edu"].

Definition isExternal (url : string) : bool :=
  forallb (λ site, negb (JS.includes url site)) internalSites.

Definition urlEntry (url : string) : string :=
  (if JS.includes url "linkedin.com" then "LinkedIn" else "Website")
  +:+ ": " +:+ url.

Definition urlFromLink (urlEl : element) : M Vars.t unit :=
  h ← await (href urlEl);
  _ ← await (textContent urlEl);
  match h with
  | Some h =>
      if JS.truthy h &&
         (JS.startsWith h "http" || JS.startsWith h "www.") &&
         negb (JS.includes h "mailto:") && isExternal h
      then pushUrl (urlEntry h)
      else ret tt
  | None => ret tt
  end.

(** [/(?:https?:\/\/|www\.)[^\s\n\r]+/g] *)
Definition urlPattern : regex :=
  Seq (Alt (seqs [lit "http"; Opt (lit "s"); lit "://"]) (lit "www."))
    (Plus (Chr (λ c, negb (JS.isSpace c)))).

(** [/[.,;!?]+$/] *)
Definition trailingPunctuation : regex :=
  Seq (Plus (Chr (λ c, match c with
                       | "." | "," | ";" | "!" | "?" => true
                       | _ => false
                       end%char))) Eol.

Definition urlFromText (url : string) : M Vars.t unit :=
  let cleanUrl := removeFirst trailingPunctuation url in
  if JS.includes cleanUrl "." && isExternal cleanUrl then
    let entry := urlEntry cleanUrl in
    known ← gets Vars.urls;
    if bool_decide (entry ∈ known) then ret tt else pushUrl entry
  else ret tt.

Definition extractUrls (env : CardEnv) : M Vars.t unit :=
  tryCatch
    (forOf urlSelectors (λ selector,
       urlElements ← await (urlQueryAll env selector);
       forOf urlElements urlFromLink);;
     pageText ← await (urlBodyText env);
     forOf (matchAll urlPattern pageText) urlFromText)
    (λ message, say (UrlExtractionFailed message)).

(** *** Phone numbers *)

Definition d3 : regex := times 3 digit.
Definition d4 : regex := times 4 digit.
Definition spaces : regex := Star space.

(** The five shapes, from [+1 (650) 924-7485] to [650.924.7485]. *)
Definition phonePatterns : list regex :=
  [seqs [lit "+1"; spaces; lit "("; d3; lit ")"; spaces; d3; lit "-"; d4];
   seqs [lit "+1"; spaces; d3; spaces; d3; spaces; d4];
   seqs [lit "("; d3; lit ")"; spaces; d3; lit "-"; d4];
   seqs [d3; lit "-"; d3; lit "-"; d4];
   seqs [d3; lit "."; d3; lit "."; d4]].

(** [[\s\-\(\)]] and [[\s\-]] *)
Definition separator (c : ascii) : bool :=
  JS.isSpace c || match c with "-" | "(" | ")" => true | _ => false end%char.
Definition dashOrSpace (c : ascii) : bool :=
  JS.isSpace c || Ascii.eqb c "-"%char.

(** [/\+?\d{1,3}[\s\-\(\)]*\d{3,4}[\s\-\(\)]*\d{3,4}[\s\-]*\d{3,4}/] *)
Definition phoneShape : regex :=
  seqs [Opt (lit "+"); between 1 3 digit; Star (Chr separator);
        between 3 4 digit; Star (Chr separator); between 3 4 digit;
        Star (Chr dashOrSpace); between 3 4 digit].

Definition addPhone (phone : string) : M Vars.t unit :=
  let cleanPhone := JS.trim phone in
  known ← gets Vars.phones;
  if bool_decide (cleanPhone ∈ known) then ret tt else pushPhone cleanPhone.

Definition addPlausiblePhone (phone : string) : M Vars.t unit :=
  let cleanPhone := JS.trim phone in
  known ← gets Vars.phones;
  if negb (JS.includes cleanPhone "000-000-0000") &&
     negb (JS.includes cleanPhone "123-456-7890") &&
     negb (bool_decide (cleanPhone ∈ known))
  then pushPhone cleanPhone
  else ret tt.

Definition phoneSelectors : list string :=
  ["[data-test=" +:+ JS.quoted "profile-personal-information" +:+ "]";
   "[data-test=" +:+ JS.quoted "profile-professional-contact" +:+ "]";
   "section:has(h3:contains(" +:+ JS.quoted "contact" +:+ ")) span";
   "section:has(h3:contains(" +:+ JS.quoted "phone" +:+ ")) span"].

Definition phonesFromElement (phoneEl : element) : M Vars.t unit :=
  phoneText ← await (textContent phoneEl);
  match phoneText with
  | Some phoneText =>
      if JS.truthy phoneText && test phoneShape phoneText
      then forOf (matchAll (alts phonePatterns) phoneText) addPhone
      else ret tt
  | None => ret tt
  end.

Definition extractPhones (env : CardEnv) : M Vars.t unit :=
  tryCatch
    (contactText ← await (professionalContactText env);
     (if JS.truthy contactText
      then forOf phonePatterns (λ pattern,
             forOf (matchAll pattern contactText) addPhone)
      else ret tt);;
     forOf phoneSelectors (λ selector,
       tryCatch
         (phoneElements ← await (phoneQueryAll env selector);
          forOf phoneElements phonesFromElement)
         (λ _, ret tt));;
     known ← gets Vars.phones;
     if bool_decide (length known = 0) then
       pageText ← await (phoneBodyText env);
       forOf phonePatterns (λ pattern,
         forOf (matchAll pattern pageText) addPlausiblePhone)
     else ret tt)
    (λ message, say (PhoneExtractionFailed message)).

(** *** Emails *)

Definition emailItems : string :=
  "ul[data-test=" +:+ JS.quoted "profile-summary-email-items" +:+ "]".

Definition emailSelectors : list string :=
  ["a[href^=" +:+ JS.quoted "mailto:" +:+ "]";
   emailItems +:+ " a";
   emailItems;
   "[href*=" +:+ JS.quoted "@stanford.edu" +:+ "]";
   "[href*=" +:+ JS.quoted "@alumni.stanford.edu" +:+ "]";
   "a[href*=" +:+ JS.quoted "mailto" +:+ "]"].

Definition localPart (c : ascii) : bool :=
  JS.isLetter c || JS.isDigit c ||
  match c with "." | "_" | "%" | "+" | "-" => true | _ => false end%char.
Definition domainPart (c : ascii) : bool :=
  JS.isLetter c || JS.isDigit c ||
  match c with "." | "-" => true | _ => false end%char.

(** [/[a-zA-Z0-9._%+-]+@[a-zA-Z0-9.-]+\.[a-zA-Z]{2,}/g] *)
Definition emailPattern : regex :=
  seqs [Plus (Chr localPart); lit "@"; Plus (Chr domainPart); lit ".";
        atLeast 2 (Chr JS.isLetter)].

(** The emails written in a text that may be [null]. *)
Definition emailsInText (text : option string) : M Vars.t unit :=
  match text with
  | Some text =>
      if JS.truthy text && JS.includes text "@"
      then forOf (matchAll emailPattern text) pushEmail
      else ret tt
  | None => ret tt
  end.

Definition emailFromHref (h : option string) : M Vars.t unit :=
  match h with
  | Some h =>
      if JS.truthy h && JS.includes h "mailto:" then
        let email := JS.removeSubstring h "mailto:" in
        if JS.includes email "@" then pushEmail email else ret tt
      else if JS.truthy h && JS.includes h "@" then pushEmail h
      else ret tt
  | None => ret tt
  end.

Definition emailsFromSelector (env : CardEnv) (selector : string)
    : M Vars.t unit :=
  tryCatch
    (if bool_decide (selector = emailItems) then
       ulElement ← await (emailSection env);
       match ulElement with
       | Some ulElement =>
           ulText ← await (textContent ulElement);
           emailsInText ulText
       | None => ret tt
       end
     else
       emailElements ← await (emailQueryAll env selector);
       forOf emailElements (λ emailEl,
         h ← await (href emailEl);
         emailFromHref h;;
         text ← await (textContent emailEl);
         emailsInText text))
    (λ message, say (EmailSelectorFailed message)).

Definition emailsFromPage (env : CardEnv) : M Vars.t unit :=
  pageText ← await (emailBodyText env);
  forOf (matchAll emailPattern pageText) (λ email,
    if negb (JS.includes email "example.com") &&
       negb (JS.includes email "domain.com")
    then pushEmail email
    else ret tt).

(** After a click on a button: the [mailto:] links that appeared. *)
Definition emailsAfterClick (emailEl : element) : M Vars.t unit :=
  h ← await (href emailEl);
  match h with
  | Some h =>
      if JS.truthy h && JS.includes h "mailto:" then
        let email := JS.removeSubstring h "mailto:" in
        if JS.includes email "@" then pushEmail email else ret tt
      else ret tt
  | None => ret tt
  end.

(** The loop over all buttons; it stops at the first button whose click
    made [mailto:] links appear. *)
Fixpoint clickButtons (allButtons : list (element * outcome (list element)))
    : M Vars.t unit :=
  match allButtons with
  | [] => ret tt
  | (button, afterClick) :: rest =>
      buttonText ← await (textContent button);
      let related :=
        match buttonText with
        | Some t =>
            JS.truthy t &&
            (JS.includes (JS.toLowerCase t) "email" ||
             JS.includes (JS.toLowerCase t) "stanford")
        | None => false
        end in
      if related then
        stop ← tryCatch
                 (await (click button);;
                  quickEmailCheck ← await afterClick;
                  if 0 <? length quickEmailCheck then
                    forOf quickEmailCheck emailsAfterClick;; ret true
                  else ret false)
                 (λ _, ret false);
        if stop : bool then ret tt else clickButtons rest
      else clickButtons rest
  end.

Definition whenNoEmails (m : M Vars.t unit) : M Vars.t unit :=
  found ← gets Vars.emails;
  if bool_decide (length found = 0) then m else ret tt.

(** The statements inside the [try] that collects emails, URLs and
    phone numbers.  (The two loops that first click the buttons opening
    the email and URL sections assign nothing and swallow every error,
    and have no counterpart here.) *)
Definition contactsBlock (env : CardEnv) : M Vars.t unit :=
  extractUrls env;;
  extractPhones env;;
  forOf emailSelectors (emailsFromSelector env);;
  whenNoEmails (emailsFromPage env);;
  whenNoEmails
    (tryCatch
       (allButtons ← await (buttons env); clickButtons allButtons)
       (λ message, say (ButtonClickingFailed message)));;
  removeDuplicates.

Definition extractContacts (env : CardEnv) (name : string)
    : M Vars.t unit :=
  tryCatch (contactsBlock env)
    (λ message, say (WarnContactExtractionFailed name message)).

(** *** The two flags *)

Definition yesNo (flag : bool) : string := if flag then "Yes" else "No".

Definition careerSupportOf (env : CardEnv) (name : string)
    : M Vars.t string :=
  tryCatch
    (flag ← await (hasCareerSupport env); ret (yesNo flag))
    (λ message, say (WarnCareerSupportCheckFailed name message);; ret "No").

Definition professionalContactOf (env : CardEnv) (name : string)
    : M Vars.t string :=
  tryCatch
    (flag ← await (hasProfessionalContact env); ret (yesNo flag))
    (λ message,
       say (WarnProfessionalContactCheckFailed name message);; ret "No").

(** *** Skills *)

Definition colonOrDash : regex :=
  Chr (λ c, match c with ":" | "-" => true | _ => false end%char).

(** [([^.\n]{10,100})] *)
Definition skillText : regex :=
  Group (between 10 100
           (Chr (λ c, negb (Ascii.eqb c "."%char || Ascii.eqb c JS.LF)))).

(** [/Skills?\s*[:\-]\s*([^.\n]{10,100})/i] and its three siblings. *)
Definition skillPatterns : list regex :=
  [seqs [litI "Skill"; Opt (litI "s"); spaces; colonOrDash; spaces;
         skillText];
   seqs [litI "Specialtie"; Opt (litI "s"); spaces; colonOrDash; spaces;
         skillText];
   seqs [litI "Expertis"; Opt (litI "e"); spaces; colonOrDash; spaces;
         skillText];
   seqs [litI "Professional"; Plus space; litI "focus"; spaces;
         colonOrDash; spaces; skillText]].

(** The loop over the skill patterns, left at the first match. *)
Fixpoint skillFromPatterns (patterns : list regex) (pageText : string)
    : M Vars.t unit :=
  match patterns with
  | [] => ret tt
  | pattern :: rest =>
      match exec pattern pageText with
      | Some m =>
          match group m with
          | Some captured =>
              if JS.truthy captured then pushSkill (JS.trim captured)
              else skillFromPatterns rest pageText
          | None => skillFromPatterns rest pageText
          end
      | None => skillFromPatterns rest pageText
      end
  end.

(** The statements inside the [try] that collects the skills. *)
Definition skillsBlock (env : CardEnv) : M Vars.t unit :=
  section ← await (skillsSection env);
  (if JS.truthy section && JS.truthy (JS.trim section)
   then pushSkill (JS.trim section)
   else ret tt);;
  found ← gets Vars.skills;
  if bool_decide (length found = 0) then
    pageText ← await (skillsBodyText env);
    skillFromPatterns skillPatterns pageText
  else ret tt.

Definition extractSkills (env : CardEnv) (name : string) : M Vars.t unit :=
  tryCatch (skillsBlock env)
    (λ message, say (WarnSkillsExtractionFailed name message)).

(** *** Email buckets *)

(** [/@(alumni\.|gsb\.|alumni-gsb\.)?stanford\.edu$/i] *)
Definition stanfordAddress : regex :=
  seqs [lit "@";
        Opt (alts [litI "alumni."; litI "gsb."; litI "alumni-gsb."]);
        litI "stanford.edu"; Eol].

Definition isStanfordEmail (e : string) : bool := test stanfordAddress e.

Definition stanfordEmails (emails : list string) : string :=
  JS.join ", " (List.filter isStanfordEmail emails).

Definition personalEmails (emails : list string) : string :=
  JS.join ", " (List.filter (λ e, negb (isStanfordEmail e)) emails).

(** *** The whole extraction *)

Definition makeRecord (env : CardEnv) (name degree location company
    careerSupport professionalContact : string) (v : Vars.t)
    : AlumniRecord :=
  {| name := name;
     classYear := NA;
     degree := degree;
     location := location;
     company := company;
     stanfordEmail := JS.orElse (stanfordEmails (Vars.emails v)) NA;
     personalEmail := JS.orElse (personalEmails (Vars.emails v)) NA;
     urls := JS.orElse (JS.join ", " (Vars.urls v)) NA;
     phone := JS.orElse (JS.join ", " (Vars.phones v)) NA;
     skills := JS.orElse (JS.join ", " (Vars.skills v)) NA;
     careerSupport := careerSupport;
     professionalContact := professionalContact;
     extractedAt := now env |}.

(** The statements inside the outer [try] of
    [extractAlumniFromElement]. *)
Definition visitProfile (env : CardEnv) : M Vars.t (option AlumniRecord) :=
  name ← extractName env;
  profileLink ← findProfileLink env;
  match profileLink with
  | None => say (NoProfileLink name);; ret None
  | Some profileLink =>
      await (click profileLink);;
      let degree := degreeOf env in
      let location := orNA (locationValue env) in
      let company := orNA (companyValue env) in
      extractContacts env name;;
      careerSupport ← careerSupportOf env name;
      professionalContact ← professionalContactOf env name;
      extractSkills env name;;
      await (goBack env);;
      v ← gets id;
      ret (Some (makeRecord env name degree location company careerSupport
                   professionalContact v))
  end.

End Profile.

(** [extractAlumniFromElement(element, page)], on the variables of one
    call. *)
Definition extractAlumniFromElementIn (env : CardEnv)
    : M Vars.t (option AlumniRecord) :=
  tryCatch (Profile.visitProfile env)
    (λ message,
       Profile.say (WarnFailedToExtractFromElement message);; ret None).

(** [extractAlumniFromElement(element, page)]: the variables are fresh at
    every call, the console is the process's. *)
Definition extractAlumniFromElement (env : CardEnv)
    : M world (option AlumniRecord) :=
  λ w, let '(result, v) := extractAlumniFromElementIn env
                             (Vars.init (console w)) in
       (result, World (fs w) (Vars.console v)).

(* ===================================================================== *)
(** ** Pagination *)
(* ===================================================================== *)

(** A pagination control: whether it reports itself disabled, and what a
    click on it gives. *)
Record control : Type := Control {
  disabled : outcome bool;
  press : outcome unit
}.

(** What the page answers during one call of [goToNextPage]. *)
Record NextPageEnv : Type := {
  nextQuery : string → outcome (option control);   (* page.$(selector) *)
  initialHeight : outcome nat;                     (* scrollHeight before *)
  scrollToBottom : outcome unit;
  newHeight : outcome nat                          (* scrollHeight after *)
}.

Definition nextButtonSelectors : list string :=
  ["button[aria-label=" +:+ JS.quoted "Next page" +:+ "]";
   "button[aria-label=" +:+ JS.quoted "next" +:+ "]";
   "a[aria-label=" +:+ JS.quoted "Next page" +:+ "]";
   "a[aria-label=" +:+ JS.quoted "next" +:+ "]";
   "button:has-text(" +:+ JS.quoted "Next" +:+ ")";
   "a:has-text(" +:+ JS.quoted "Next" +:+ ")";
   "button[data-testid=" +:+ JS.quoted "next-page" +:+ "]";
   "a[data-testid=" +:+ JS.quoted "next-page" +:+ "]";
   ".pagination button:last-child";
   ".pagination a:last-child"].

(** One round of the loop over the selectors: [true] when the function
    returned [true] from inside it. *)
Definition tryNextButton (env : NextPageEnv) (selector : string)
    : M world bool :=
  tryCatch
    (nextButton ← await (nextQuery env selector);
     match nextButton with
     | Some nextButton =>
         isDisabled ← await (disabled nextButton);
         if negb isDisabled then
           log (ClickingNextPage selector);;
           await (press nextButton);;
           ret true
         else ret false
     | None => ret false
     end)
    (λ _, ret false).

Fixpoint clickNextButton (env : NextPageEnv) (selectors : list string)
    : M world bool :=
  match selectors with
  | [] => ret false
  | selector :: rest =>
      clicked ← tryNextButton env selector;
      if clicked : bool then ret true else clickNextButton env rest
  end.

(** [goToNextPage(page)] *)
Definition goToNextPage (env : NextPageEnv) : M world bool :=
  tryCatch
    (clicked ← clickNextButton env nextButtonSelectors;
     if clicked : bool then ret true
     else
       before ← await (initialHeight env);
       await (scrollToBottom env);;
       after ← await (newHeight env);
       if before <? after then log NewContentViaInfiniteScroll;; ret true
       else ret false)
    (λ message, log (WarnErrorNavigatingToNextPage message);; ret false).

(* ===================================================================== *)
(** ** The listing loop *)
(* ===================================================================== *)

(** The filter on the name of a freshly extracted record. *)
Definition isValidAlumni (name : string) : bool :=
  negb (JS.includes name "Stanford") &&
  negb (JS.includes name "University") &&
  negb (JS.includes name "Alumni Directory") &&
  negb (JS.includes name "(link is external)") &&
  (String.length name <? 200) &&
  negb (JS.includes name "Maps & Directions") &&
  negb (JS.includes name "Terms of Use").

(** One round of the loop over the cards of a page, as the environment
    decides it: the cards fetched again are fewer than the cards already
    processed; fetching them throws; or the card at the current index is
    visited, and the write of its row may fail. *)
Inductive CardStep : Type :=
| Stale
| QueryThrows (message : string)
| Card (env : CardEnv) (writeError : option string).

(** One page of results: the cards found after scrolling (or the error of
    scrolling or of the query), the answers to [goToNextPage], and whether
    the cards of the next page show up in time. *)
Record PageEnv : Type := {
  listing : outcome (list CardStep);
  nextPage : NextPageEnv;
  newPageContent : outcome unit       (* page.waitForSelector(foundSelector) *)
}.

(** What the environment answers during one call of
    [crawlSearchResults]. *)
Record CrawlEnv : Type := {
  csvReadError : option string;
  initialCards : string → outcome nat;   (* cards found with a selector *)
  pages : list PageEnv
}.

Definition cardSelectors : list string :=
  ["div.flex.flex-col.break-words.text-saa-black.border.border-black-10.shadow-sm";
   "div[class*=" +:+ JS.quoted "flex" +:+ "][class*=" +:+ JS.quoted "flex-col"
     +:+ "]";
   "div[class*=" +:+ JS.quoted "border" +:+ "][class*=" +:+ JS.quoted "shadow"
     +:+ "]";
   "[data-test*=" +:+ JS.quoted "profile" +:+ "]";
   ".profile-card";
   ".alumni-card"].

(** The loop over the card selectors: the selector that first finds cards,
    and how many. *)
Fixpoint findCards (env : CrawlEnv) (selectors : list string)
    : option string * nat :=
  match selectors with
  | [] => (None, 0)
  | selector :: rest =>
      match initialCards env selector with
      | Returned count =>
          if 0 <? count then (Some selector, count) else findCards env rest
      | Thrown _ => findCards env rest
      end
  end.

(** The message of the error that every call on the page throws once the
    page is gone. *)
Definition pageClosed : string :=
  "Target page, context or browser has been closed".

Module Crawler.

(** The world together with the variables of one call of
    [crawlSearchResults]. *)
Record vars : Type := MkVars {
  outside : world;
  results : list AlumniRecord;
  existingNames : gset string;
  totalSavedCount : nat
}.

Definition init (w : world) : vars := MkVars w [] ∅ 0.

Definition inWorld {A} (m : M world A) : M vars A :=
  zoom outside
    (λ w v, MkVars w (results v) (existingNames v) (totalSavedCount v)) m.

Definition setExistingNames (names : gset string) : M vars unit :=
  modify (λ v, MkVars (outside v) (results v) names (totalSavedCount v)).

Definition setTotalSavedCount (count : nat) : M vars unit :=
  modify (λ v, MkVars (outside v) (results v) (existingNames v) count).

(** [results.push(alumniData); existingNames.add(alumniData.name);
    totalSavedCount++] *)
Definition accept (alumniData : AlumniRecord) : M vars unit :=
  modify (λ v, MkVars (outside v) (results v ++ [alumniData])
                 (existingNames v ∪ {[name alumniData]})
                 (S (totalSavedCount v))).

(** What the loop does with the record of one card. *)
Definition consider (searchType : string) (alumniData : AlumniRecord)
    (writeError : option string) : M vars unit :=
  if isValidAlumni (name alumniData) then
    known ← gets existingNames;
    if bool_decide (name alumniData ∈ known) then
      inWorld (log (SkippingDuplicate (name alumniData)))
    else
      accept alumniData;;
      inWorld (saveIncrementalCSV (Some alumniData) writeError);;
      inWorld (log (Extracted (name alumniData) searchType))
  else inWorld (log (FilteredOutNonAlumni (name alumniData))).

(** The loop over the cards of one page. *)
Fixpoint processCards (searchType : string) (steps : list CardStep)
    : M vars unit :=
  match steps with
  | [] => ret tt
  | step :: rest =>
      found ← gets results;
      if length found <? 1000 then
        match step with
        | Stale => ret tt
        | QueryThrows message => throw message
        | Card env writeError =>
            alumniData ← inWorld (extractAlumniFromElement env);
            match alumniData with
            | Some alumniData => consider searchType alumniData writeError
            | None => ret tt
            end;;
            processCards searchType rest
        end
      else ret tt
  end.

(** The loop over the pages.  When the environment has no further page
    to show, the page is gone and the next call on it throws.  The
    environment lists finitely many pages: a listing that never runs out,
    on which the loop of the source does not end, is not an environment
    of the model, and what is proved of a call holds of the calls that
    end. *)
Fixpoint crawlPages (searchType : string) (pages : list PageEnv)
    : M vars unit :=
  found ← gets results;
  if length found <? 1000 then
    match pages with
    | [] => throw pageClosed
    | page :: rest =>
        steps ← await (listing page);
        processCards searchType steps;;
        hasNextPage ← inWorld (goToNextPage (nextPage page));
        if hasNextPage : bool then
          arrived ← tryCatch (await (newPageContent page);; ret true)
                      (λ _, inWorld (log TimeoutWaitingForNewPage);;
                            ret false);
          if arrived : bool then crawlPages searchType rest else ret tt
        else inWorld (log (NoMorePages searchType))
    end
  else ret tt.

(** The body of the [try] of [crawlSearchResults]. *)
Definition crawl (env : CrawlEnv) (searchType : string) : M vars unit :=
  names ← inWorld (getExistingNames (csvReadError env));
  setExistingNames names;;
  match findCards env cardSelectors with
  | (_, O) => inWorld (log (NoAlumniCardsFound searchType))
  | (_, S _) =>
      setTotalSavedCount (size names);;
      crawlPages searchType (pages env)
  end.

(** [crawlSearchResults(page, searchType, searchTerm)]; the third
    argument is not used by the method. *)
Definition crawlSearchResults (env : CrawlEnv) (searchType : string)
    : M world (list AlumniRecord) :=
  λ w,
    let '(_, v) :=
      tryCatch (crawl env searchType)
        (λ message, inWorld (log (WarnErrorCrawling searchType message)))
        (init w) in
    (Returned (results v), outside v).

End Crawler.

(* ===================================================================== *)
(** ** The stealth subclass: the overriding listing loop *)
(* ===================================================================== *)

Module Stealth.

(** [stealthConfig.maxProfilesPerSession] *)
Definition maxProfilesPerSession : nat := 50.

Record vars : Type := MkVars {
  outside : world;
  results : list AlumniRecord;
  existingNames : gset string;
  totalSavedCount : nat;
  profilesThisSession : nat
}.

Definition init (w : world) : vars := MkVars w [] ∅ 0 0.

Definition inWorld {A} (m : M world A) : M vars A :=
  zoom outside
    (λ w v, MkVars w (results v) (existingNames v) (totalSavedCount v)
              (profilesThisSession v)) m.

Definition setExistingNames (names : gset string) : M vars unit :=
  modify (λ v, MkVars (outside v) (results v) names (totalSavedCount v)
                 (profilesThisSession v)).

Definition setTotalSavedCount (count : nat) : M vars unit :=
  modify (λ v, MkVars (outside v) (results v) (existingNames v) count
                 (profilesThisSession v)).

(** [results.push(alumniData); existingNames.add(alumniData.name);
    totalSavedCount++; profilesThisSession++] *)
Definition accept (alumniData : AlumniRecord) : M vars unit :=
  modify (λ v, MkVars (outside v) (results v ++ [alumniData])
                 (existingNames v ∪ {[name alumniData]})
                 (S (totalSavedCount v)) (S (profilesThisSession v))).

Definition consider (searchType : string) (alumniData : AlumniRecord)
    (writeError : option string) : M vars unit :=
  if isValidAlumni (name alumniData) then
    known ← gets existingNames;
    if bool_decide (name alumniData ∈ known) then
      inWorld (log (SkippingDuplicate (name alumniData)))
    else
      accept alumniData;;
      inWorld (saveIncrementalCSV (Some alumniData) writeError);;
      inWorld (log (Extracted (name alumniData) searchType))
  else inWorld (log (FilteredOutNonAlumni (name alumniData))).

(** The condition shared by the two loops. *)
Definition mayContinue (v : vars) : bool :=
  (length (results v) <? 1000) &&
  (profilesThisSession v <? maxProfilesPerSession).

Fixpoint processCards (searchType : string) (steps : list CardStep)
    : M vars unit :=
  match steps with
  | [] => ret tt
  | step :: rest =>
      go ← gets mayContinue;
      if go : bool then
        match step with
        | Stale => ret tt
        | QueryThrows message => throw message
        | Card env writeError =>
            alumniData ← inWorld (extractAlumniFromElement env);
            match alumniData with
            | Some alumniData => consider searchType alumniData writeError
            | None => ret tt
            end;;
            processCards searchType rest
        end
      else ret tt
  end.

(** The loop over the pages; as in the base class the environment lists
    finitely many pages, and a listing that never runs out is not an
    environment of the model. *)
Fixpoint crawlPages (searchType : string) (pages : list PageEnv)
    : M vars unit :=
  go ← gets mayContinue;
  if go : bool then
    match pages with
    | [] => throw pageClosed
    | page :: rest =>
        steps ← await (listing page);
        processCards searchType steps;;
        session ← gets profilesThisSession;
        if maxProfilesPerSession <=? session then
          inWorld (log SessionLimitReached)
        else
          hasNextPage ← inWorld (goToNextPage (nextPage page));
          if hasNextPage : bool then
            arrived ← tryCatch (await (newPageContent page);; ret true)
                        (λ _, inWorld (log TimeoutWaitingForNewPage);;
                              ret false);
            if arrived : bool then crawlPages searchType rest else ret tt
          else inWorld (log (NoMorePages searchType))
    end
  else ret tt.

Definition crawl (env : CrawlEnv) (searchType : string) : M vars unit :=
  names ← inWorld (getExistingNames (csvReadError env));
  setExistingNames names;;
  match findCards env cardSelectors with
  | (_, O) => inWorld (log (NoAlumniCardsFound searchType))
  | (_, S _) =>
      setTotalSavedCount (size names);;
      crawlPages searchType (pages env)
  end.

(** The override of [crawlSearchResults]. *)
Definition crawlSearchResults (env : CrawlEnv) (searchType : string)
    : M world (list AlumniRecord) :=
  λ w,
    let '(_, v) :=
      tryCatch (crawl env searchType)
        (λ message, inWorld (log (WarnErrorCrawling searchType message)))
        (init w) in
    (Returned (results v), outside v).

End Stealth.

(* ===================================================================== *)
(** ** Search strategies *)
(* ===================================================================== *)

(** A search input: what clearing it, typing into it and pressing Enter
    give. *)
Record searchInput : Type := SearchInput {
  clear : outcome unit;
  type : outcome unit;
  pressEnter : outcome unit
}.

(** What the page answers during one call of [performSearch]. *)
Record SearchEnv : Type := {
  gotoDirectory : outcome unit;
  (* page.waitForSelector(selector) followed by page.$(selector) *)
  searchBoxQuery : string → outcome (option searchInput)
}.

Definition searchSelectors : list string :=
  ["input[placeholder*=" +:+ JS.quoted "Search" +:+ "]";
   "input[type=" +:+ JS.quoted "search" +:+ "]";
   "input[name*=" +:+ JS.quoted "search" +:+ "]";
   "input[id*=" +:+ JS.quoted "search" +:+ "]";
   "input[class*=" +:+ JS.quoted "search" +:+ "]";
   ".search-input";
   "[data-test*=" +:+ JS.quoted "search" +:+ "]"].

(** The loop over the search-box selectors. *)
Fixpoint findSearchBox (env : SearchEnv) (selectors : list string)
    : option searchInput :=
  match selectors with
  | [] => None
  | selector :: rest =>
      match searchBoxQuery env selector with
      | Returned (Some searchBox) => Some searchBox
      | _ => findSearchBox env rest
      end
  end.

(** [performSearch(page, searchTerm)] *)
Definition performSearch (env : SearchEnv) (searchTerm : string)
    : M world unit :=
  tryCatch
    (await (gotoDirectory env);;
     match findSearchBox env searchSelectors with
     | Some searchBox =>
         await (clear searchBox);;
         await (type searchBox);;
         await (pressEnter searchBox);;
         log (SearchCompleted searchTerm)
     | None => log (CouldNotFindSearchBox searchTerm)
     end)
    (λ message, log (WarnSearchFailed searchTerm message)).

(** What the environment answers during one call of [crawlAlumni]: the
    address the browser ends up at when the directory is opened, and, for
    every search term and every strategy label, the answers to
    [performSearch] and to [crawlSearchResults]. *)
Record AlumniEnv : Type := {
  landing : outcome string;
  searchFor : string → SearchEnv;
  resultsFor : string → CrawlEnv
}.

Definition targetProfiles : nat := 10000.

Definition decades : list string :=
  ["1960"; "1970"; "1980"; "1990"; "2000"; "2010"; "2020"].
Definition schools : list string :=
  ["Business"; "Engineering"; "Medicine"; "Law"; "Education"; "Humanities";
   "Sciences"].
Definition commonNames : list string :=
  ["Smith"; "Johnson"; "Williams"; "Brown"; "Jones"; "Garcia"; "Miller";
   "Davis"; "Rodriguez"; "Martinez"].

(** One of the three loops over buckets: [label] gives the strategy label
    passed to [crawlSearchResults] for a search term. *)
Fixpoint searchBuckets (env : AlumniEnv) (label : string → string)
    (terms : list string) (allAlumniData : list AlumniRecord)
    : M world (list AlumniRecord) :=
  match terms with
  | [] => ret allAlumniData
  | term :: rest =>
      if targetProfiles <=? length allAlumniData then ret allAlumniData
      else
        performSearch (searchFor env term) term;;
        found ← Crawler.crawlSearchResults (resultsFor env (label term))
                  (label term);
        log (StrategyCompleted (label term) (length found));;
        searchBuckets env label rest (allAlumniData ++ found)
  end.

Definition decadeLabel (decade : string) : string := decade +:+ "s".
Definition schoolLabel (school : string) : string := school.
Definition surnameLabel (name : string) : string := "surname-" +:+ name.

(** The strategies of [crawlAlumni], from the default search on. *)
Definition runStrategies (env : AlumniEnv) : M world (list AlumniRecord) :=
  defaultResults ← Crawler.crawlSearchResults (resultsFor env "default")
                     "default";
  let allAlumniData := [] ++ defaultResults in
  log (StrategyCompleted "default" (length defaultResults));;
  if targetProfiles <=? length allAlumniData then ret allAlumniData
  else
    allAlumniData ← searchBuckets env decadeLabel decades allAlumniData;
    allAlumniData ← searchBuckets env schoolLabel schools allAlumniData;
    searchBuckets env surnameLabel commonNames allAlumniData.

Definition redirectedToLogin (currentUrl : string) : bool :=
  JS.includes currentUrl "/auth" || JS.includes currentUrl "/login" ||
  JS.includes currentUrl "/signin" ||
  JS.includes currentUrl "pass.stanford.edu".

(** The [try] block of [crawlAlumni()] with its handler, up to the
    promise that waits for the operator to press Enter: the model
    describes the runs in which that promise is resolved. *)
Definition crawlAlumni (env : AlumniEnv) : M world unit :=
  tryCatch
    (currentUrl ← await (landing env);
     if redirectedToLogin currentUrl then
       throw ("Session expired. Please run " +:+
              JS.quoted "npm run save-session" +:+
              " to create a new session.")
     else runStrategies env;; ret tt)
    (λ message, log (ErrorDuringCrawling message)).

(* ===================================================================== *)
(** ** Writing all records at once, and cleaning the output file *)
(* ===================================================================== *)

(** The console lines of [saveToCSV] and of the cleaning script. *)
Inductive report : Type :=
| NoDataToSave
| SavingDataToCSV
| DataSavedTo
| CsvFileNotFound
| CleaningCsvFile
| OriginalDataLines (count : nat)
| Removing (shown : string)
| CleanedDataLines (count : nat)
| RemovedInvalidEntries (count : nat)
| CleanedCsvSaved.

(** The world together with the console lines above. *)
Record desk : Type := Desk {
  base : world;
  reports : list report
}.

Definition onBase {A} (m : M world A) : M desk A :=
  zoom base (λ w d, Desk w (reports d)) m.

Definition tell (r : report) : M desk unit :=
  modify (λ d, Desk (base d) (reports d ++ [r])).

(** [saveToCSV(data = null)]: [data] is [None] when the argument is
    omitted; [thisData] is [this.data].  The writer is created without
    the [append] option, so it truncates the file and writes the header
    first. *)
Definition saveToCSV (data : option (list AlumniRecord))
    (thisData : list AlumniRecord) (writeError : option string)
    : M desk unit :=
  let dataToSave := default thisData data in
  if bool_decide (length dataToSave = 0) then tell NoDataToSave
  else
    tell SavingDataToCSV;;
    onBase (CsvWriter.writeRecords false dataToSave writeError);;
    tell DataSavedTo.

(** The script [clean-csv.js]. *)
Module CleanCsv.

(** The name column as the filter reads it: the text before the first
    comma of the line as it stands, without a surrounding pair of
    quotes. *)
Definition nameOf (line : string) (firstComma : Z) : string :=
  let name := JS.substring line 0 (Z.to_nat firstComma) in
  if JS.startsWith name (String JS.DQ "") && JS.endsWith name (String JS.DQ "")
  then JS.sliceInner name
  else name.

(** The constant [isValidAlumni] of the filter. *)
Definition isValidAlumni (name : string) : bool :=
  negb (JS.includes name "Stanford") &&
  negb (JS.includes name "University") &&
  negb (JS.includes name "Alumni Directory") &&
  negb (JS.includes name "(link is external)") &&
  (String.length name <? 200) &&
  negb (JS.includes name "Maps & Directions") &&
  negb (JS.includes name "Terms of Use") &&
  negb (JS.includes name "Emergency Info") &&
  negb (JS.includes name "Copyright") &&
  negb (JS.includes name "Privacy") &&
  negb (JS.includes name "Trademarks").

(** The callback of [dataLines.filter]. *)
Definition keepLine (line : string) : M desk bool :=
  if negb (JS.truthy (JS.trim line)) then ret false
  else
    let firstComma := JS.indexOf line "," in
    if (firstComma <=? 0)%Z then ret false
    else
      let name := nameOf line firstComma in
      (if negb (isValidAlumni name)
       then tell (Removing (JS.substring name 0 50))
       else ret tt);;
      ret (isValidAlumni name).

(** [dataLines.filter(...)] *)
Fixpoint filterLines (dataLines : list string) : M desk (list string) :=
  match dataLines with
  | [] => ret []
  | line :: rest =>
      keep ← keepLine line;
      kept ← filterLines rest;
      ret (if keep : bool then line :: kept else kept)
  end.

(** [cleanCSV()]; [readError] and [writeError] are the errors of
    [readFileSync] and [writeFileSync], if they throw. *)
Definition cleanCSV (readError writeError : option string) : M desk unit :=
  existing ← onBase (gets fs);
  match existing with
  | None => tell CsvFileNotFound
  | Some stored =>
      tell CleaningCsvFile;;
      csvContent ← await (match readError with
                          | Some e => Thrown e
                          | None => Returned stored
                          end);
      let lines := JS.split JS.LF csvContent in
      let header := default "" (head lines) in
      let dataLines := List.tl lines in
      tell (OriginalDataLines (length dataLines));;
      cleanedLines ← filterLines dataLines;
      tell (CleanedDataLines (length cleanedLines));;
      tell (RemovedInvalidEntries (length dataLines - length cleanedLines));;
      let cleanedContent :=
        JS.join (String JS.LF "") (header :: cleanedLines) in
      match writeError with
      | Some e => throw e
      | None => onBase (setFile cleanedContent)
      end;;
      tell CleanedCsvSaved
  end.

End CleanCsv.

(* ===================================================================== *)
(** ** The stealth subclass: one session *)
(* ===================================================================== *)

(** [try { body } finally { finalizer }]: the finalizer runs however the
    body ends, and what it throws replaces the end of the body. *)
Definition tryFinally {S A} (body : M S A) (finalizer : M S unit) : M S A :=
  λ s, match body s with
       | (Returned a, s1) =>
           match finalizer s1 with
           | (Returned _, s2) => (Returned a, s2)
           | (Thrown e, s2) => (Thrown e, s2)
           end
       | (Thrown e, s1) =>
           match finalizer s1 with
           | (Returned _, s2) => (Thrown e, s2)
           | (Thrown e', s2) => (Thrown e', s2)
           end
       end.

Module StealthSession.

(** What the browser answers around the search, and the number that
    [randomDelay] prints (it depends on [Math.random]). *)
Record Env : Type := {
  browserSet : bool;               (* this.browser is set *)
  initialize : outcome unit;       (* this.initialize() *)
  newPage : outcome unit;          (* newContext(...).then(c => c.newPage()) *)
  directory : AlumniEnv;
  waitSeconds : nat;
  urlAtError : string;             (* page.url() in the handler *)
  titleAtError : outcome string;   (* page.title() in the handler *)
  closePage : outcome unit
}.

(** The console lines of the override of [crawlAlumni]. *)
Inductive line : Type :=
| NavigatingToDirectory
| WaitingForPageToLoad
| CurrentUrl (url : string)
| SessionExpiredAdvice
| Target (count : nat)
| UsingStealthApproach
| CrawlingDefaultResults
| WaitingBetweenStrategies
| Waiting (seconds : nat)
| StealthSessionResults (count : nat)
| AllDataSavedIncrementally
| StealthModeCompleted
| NoAlumniDataCollected
| StealthSessionCompleted
| BrowserStaysOpen
| ErrorDuringStealthCrawling (message : string)
| DebugInfo (url title : string)
| BrowserStaysOpenAfterError
| ClosingBrowser.

Record state : Type := State {
  outside : world;
  lines : list line
}.

Definition inWorld {A} (m : M world A) : M state A :=
  zoom outside (λ w s, State w (lines s)) m.

Definition say (l : line) : M state unit :=
  modify (λ s, State (outside s) (lines s ++ [l])).

(** The target of the stealth mode. *)
Definition targetProfiles : nat := 1000.

(** [randomDelay(baseDelay)] *)
Definition randomDelay (env : Env) : M state unit :=
  say (Waiting (waitSeconds env)).

(** The [try] block of the override of [crawlAlumni()]: the default
    search is the only strategy.  The model describes the runs in which
    the promise that waits for the operator to press Enter is resolved;
    the waits of fixed length leave no trace. *)
Definition session (env : Env) : M state unit :=
  say NavigatingToDirectory;;
  currentUrl ← await (landing (directory env));
  say WaitingForPageToLoad;;
  say (CurrentUrl currentUrl);;
  if redirectedToLogin currentUrl then
    say SessionExpiredAdvice;;
    throw ("Session expired. Please run " +:+
           JS.quoted "npm run save-session" +:+
           " to create a new session.")
  else
    let allAlumniData := [] in
    say (Target targetProfiles);;
    say UsingStealthApproach;;
    say CrawlingDefaultResults;;
    defaultResults ← inWorld (Stealth.crawlSearchResults
                                (resultsFor (directory env) "default")
                                "default");
    let allAlumniData := allAlumniData ++ defaultResults in
    inWorld (log (StrategyCompleted "default" (length defaultResults)));;
    (if length allAlumniData <? targetProfiles then
       say WaitingBetweenStrategies;;
       randomDelay env
     else ret tt);;
    let totalUniqueProfiles := length allAlumniData in
    say (StealthSessionResults totalUniqueProfiles);;
    say AllDataSavedIncrementally;;
    say StealthModeCompleted;;
    (if bool_decide (totalUniqueProfiles = 0)
     then say NoAlumniDataCollected
     else say StealthSessionCompleted);;
    say BrowserStaysOpen.

(** Its [catch] block. *)
Definition debugInfo (env : Env) (message : string) : M state unit :=
  say (ErrorDuringStealthCrawling message);;
  say (DebugInfo (urlAtError env)
         (match titleAtError env with
          | Returned title => title
          | Thrown _ => "Unable to get title"
          end));;
  say BrowserStaysOpenAfterError.

(** The override of [crawlAlumni()]. *)
Definition crawlAlumni (env : Env) : M state unit :=
  (if negb (browserSet env) then await (initialize env) else ret tt);;
  await (newPage env);;
  tryFinally
    (tryCatch (session env) (debugInfo env))
    (say ClosingBrowser;; await (closePage env)).

End StealthSession.

(* ===================================================================== *)
(** ** The first crawler: log in, read the cards of one page, save *)
(* ===================================================================== *)

(** The class of [crawler.js] whose [crawl] method the command line
    calls.  Its [initialize], [login], [searchAlumni] and [close] are
    those of the later versions of the class. *)
Module Simple.

(** The record of this version: six columns. *)
Record AlumniCard : Type := {
  name : string;
  classYear : string;
  degree : string;
  location : string;
  company : string;
  extractedAt : string
}.

(** What a card answers to the three evaluations, and the clock. *)
Record CardEnv : Type := {
  nameEval : outcome string;       (* element.$eval('h3, strong', ...) *)
  degreeEval : outcome string;     (* element.$eval('div, span', ...) *)
  companyEval : outcome string;    (* element.$$eval('div, span', ...) *)
  now : string
}.

(** An element found by a query: what a click on it gives and what its
    text is. *)
Record handle : Type := Handle {
  click : outcome unit;
  textContent : outcome (option string)
}.

(** What the browser, the file system and the process environment answer
    during one run. *)
Record Env : Type := {
  launch : outcome unit;                  (* chromium.launch *)
  sessionAtInitialize : bool;             (* fs.existsSync(sessionFile) *)
  newContext : outcome unit;
  newPage : outcome unit;
  setViewportSize : outcome unit;
  setExtraHTTPHeaders : outcome unit;
  sessionAtLogin : bool;
  gotoLogin : outcome unit;
  content : outcome string;
  waitForUserid : outcome unit;
  waitForPassword : outcome unit;
  username : option string;               (* process.env.STANFORD_USERNAME *)
  password : option string;
  typeUsername : outcome unit;
  typePassword : outcome unit;
  loginButton : outcome (option handle);
  waitForLoadState : outcome unit;
  urlAfterLogin : string;
  errorElement : outcome (option handle);
  gotoDirectory : outcome unit;
  waitForCards : outcome unit;
  cards : outcome (list CardEnv);
  writeError : option string;
  closeBrowser : outcome unit
}.

Inductive line : Type :=
| Initializing
| LoadedSession
| BrowserInitialized
| UsingSavedSession
| AttemptingLogin
| PageHtml (html : string)
| LoggedIn
| ErrorLoginFailed (message : string)
| Searching
| SearchDone
| ErrorSearchFailed (message : string)
| ExtractingData
| WarnFailedToExtractFromElement (message : string)
| WarnFailedOneElement (message : string)
| ExtractedDataFor (count : nat)
| ErrorDataExtractionFailed (message : string)
| NoDataToSave
| SavingData
| DataSaved
| BrowserClosed
| ErrorCrawlingFailed (message : string).

(** The fields of the object, the output file, the console, and how many
    times the browser has been closed. *)
Record state : Type := State {
  browser : bool;          (* this.browser is set *)
  page : bool;             (* this.page is set *)
  isLoggedIn : bool;
  data : list AlumniCard;
  file : option string;
  closed : nat;
  console : list line
}.

(** The object as the constructor leaves it. *)
Definition fresh (file : option string) : state :=
  State false false false [] file 0 [].

Definition say (l : line) : M state unit :=
  modify (λ s, State (browser s) (page s) (isLoggedIn s) (data s) (file s)
                 (closed s) (console s ++ [l])).
Definition setBrowser : M state unit :=
  modify (λ s, State true (page s) (isLoggedIn s) (data s) (file s)
                 (closed s) (console s)).
Definition setPage : M state unit :=
  modify (λ s, State (browser s) true (isLoggedIn s) (data s) (file s)
                 (closed s) (console s)).
Definition setLoggedIn : M state unit :=
  modify (λ s, State (browser s) (page s) true (data s) (file s)
                 (closed s) (console s)).
Definition pushData (r : AlumniCard) : M state unit :=
  modify (λ s, State (browser s) (page s) (isLoggedIn s) (data s ++ [r])
                 (file s) (closed s) (console s)).
Definition setFile (content : string) : M state unit :=
  modify (λ s, State (browser s) (page s) (isLoggedIn s) (data s)
                 (Some content) (closed s) (console s)).
Definition countClose : M state unit :=
  modify (λ s, State (browser s) (page s) (isLoggedIn s) (data s) (file s)
                 (S (closed s)) (console s)).

(** A call of a method of [this.page]: a [TypeError] when the page has
    not been created. *)
Definition onPage {A} (call : outcome A) : M state A :=
  created ← gets page;
  if created : bool then await call
  else throw "Cannot read properties of null".

(** [initialize()] *)
Definition initialize (env : Env) : M state unit :=
  say Initializing;;
  await (launch env);;
  setBrowser;;
  (if sessionAtInitialize env then
     await (newContext env);;
     say LoadedSession;;
     setLoggedIn
   else await (newContext env));;
  await (newPage env);;
  setPage;;
  await (setViewportSize env);;
  await (setExtraHTTPHeaders env);;
  say BrowserInitialized.

(** A value of the environment of the process used as a condition. *)
Definition missing (value : option string) : bool :=
  match value with
  | Some v => negb (JS.truthy v)
  | None => true
  end.

(** [login()] *)
Definition login (env : Env) : M state unit :=
  if sessionAtLogin env then say UsingSavedSession
  else
    say AttemptingLogin;;
    tryCatch
      (onPage (gotoLogin env);;
       html ← onPage (content env);
       say (PageHtml html);;
       onPage (waitForUserid env);;
       onPage (waitForPassword env);;
       (if missing (username env) || missing (password env)
        then throw "Missing credentials. Please set STANFORD_USERNAME and STANFORD_PASSWORD in your .env file"
        else ret tt);;
       onPage (typeUsername env);;
       onPage (typePassword env);;
       loginButton ← onPage (loginButton env);
       match loginButton with
       | None => throw "Could not find login button"
       | Some loginButton =>
           await (click loginButton);;
           onPage (waitForLoadState env);;
           let currentUrl := urlAfterLogin env in
           (if JS.includes currentUrl "login" || JS.includes currentUrl "signin"
            then
              errorElement ← onPage (errorElement env);
              match errorElement with
              | Some errorElement =>
                  errorText ← await (textContent errorElement);
                  throw ("Login failed: " +:+ default "null" errorText)
              | None => throw "Login failed: Still on login page"
              end
            else ret tt);;
           setLoggedIn;;
           say LoggedIn
       end)
      (λ message, say (ErrorLoginFailed message);; throw message).

(** [searchAlumni(searchCriteria)]; the criteria are not used. *)
Definition searchAlumni (env : Env) : M state unit :=
  loggedIn ← gets isLoggedIn;
  if negb loggedIn then throw "Must be logged in to search alumni"
  else
    say Searching;;
    tryCatch
      (onPage (gotoDirectory env);; say SearchDone)
      (λ message, say (ErrorSearchFailed message);; throw message).

(** [extractAlumniFromElement(element)]: every evaluation has its own
    [.catch(() => 'N/A')]. *)
Definition extractAlumniFromElement (card : CardEnv)
    : M state (option AlumniCard) :=
  tryCatch
    (let name := Profile.orNA (nameEval card) in
     let degree := Profile.orNA (degreeEval card) in
     let company := Profile.orNA (companyEval card) in
     let location := "N/A" in
     let classYear := "N/A" in
     ret (Some {| name := name;
                  classYear := classYear;
                  degree := degree;
                  location := location;
                  company := company;
                  extractedAt := now card |}))
    (λ message, say (WarnFailedToExtractFromElement message);; ret None).

(** [extractAlumniData()] *)
Definition extractAlumniData (env : Env) : M state unit :=
  say ExtractingData;;
  tryCatch
    (onPage (waitForCards env);;
     alumniElements ← onPage (cards env);
     forOf alumniElements (λ element,
       tryCatch
         (alumniData ← extractAlumniFromElement element;
          match alumniData with
          | Some alumniData => pushData alumniData
          | None => ret tt
          end)
         (λ message, say (WarnFailedOneElement message)));;
     found ← gets data;
     say (ExtractedDataFor (length found)))
    (λ message, say (ErrorDataExtractionFailed message);; throw message).

(** The [header] option of the writer of this version. *)
Definition header : list ((AlumniCard → string) * string) :=
  [(name, "Name"); (classYear, "Class Year"); (degree, "Degree");
   (location, "Location"); (company, "Company");
   (extractedAt, "Extracted At")].

Definition headerString : string :=
  CsvWriter.joinRecords [CsvWriter.getCsvLine (snd <$> header)].

Definition recordLine (r : AlumniCard) : string :=
  CsvWriter.getCsvLine ((λ column, column.1 r) <$> header).

(** [saveToCSV()] *)
Definition saveToCSV (env : Env) : M state unit :=
  found ← gets data;
  if bool_decide (length found = 0) then say NoDataToSave
  else
    say SavingData;;
    match writeError env with
    | Some e => throw e
    | None =>
        setFile (headerString +:+
                 CsvWriter.joinRecords (recordLine <$> found))
    end;;
    say DataSaved.

(** [close()] *)
Definition close (env : Env) : M state unit :=
  launched ← gets browser;
  if launched : bool then
    await (closeBrowser env);;
    countClose;;
    say BrowserClosed
  else ret tt.

(** [crawl(searchCriteria)] *)
Definition crawl (env : Env) : M state unit :=
  tryFinally
    (tryCatch
       (initialize env;;
        login env;;
        searchAlumni env;;
        extractAlumniData env;;
        saveToCSV env)
       (λ message, say (ErrorCrawlingFailed message);; throw message))
    (close env).

End Simple.

(* ===================================================================== *)
(** ** Reference behaviour, in the words of the specification *)
(* ===================================================================== *)

Module Spec.

(** The sink after one more row: a missing file is created with the
    column header, an existing one is only extended. *)
Definition appendRow (sink : option string) (r : AlumniRecord)
    : option string :=
  Some (default CsvWriter.headerString sink +:+
        CsvWriter.stringifyRecords [r]).

(** The sink after the rows of the given records, in their order. *)
Definition appendRows (sink : option string) (rs : list AlumniRecord)
    : option string :=
  foldl appendRow sink rs.

(** The buckets after the default search, in their fixed order: the
    search term and the strategy label of each. *)
Definition bucketOrder : list (string * string) :=
  ((λ decade, (decade, decadeLabel decade)) <$> decades) ++
  ((λ school, (school, schoolLabel school)) <$> schools) ++
  ((λ name, (name, surnameLabel name)) <$> commonNames).

(** One pass over the buckets that stops, for good, at the first bucket
    before which the target count has been reached. *)
Fixpoint runBuckets (env : AlumniEnv) (plan : list (string * string))
    (allAlumniData : list AlumniRecord) : M world (list AlumniRecord) :=
  match plan with
  | [] => ret allAlumniData
  | (term, label) :: rest =>
      if targetProfiles <=? length allAlumniData then ret allAlumniData
      else
        performSearch (searchFor env term) term;;
        found ← Crawler.crawlSearchResults (resultsFor env label) label;
        log (StrategyCompleted label (length found));;
        runBuckets env rest (allAlumniData ++ found)
  end.

(** The default search, then the buckets in order. *)
Definition runInOrder (env : AlumniEnv) : M world (list AlumniRecord) :=
  defaultResults ← Crawler.crawlSearchResults (resultsFor env "default")
                     "default";
  log (StrategyCompleted "default" (length defaultResults));;
  runBuckets env bucketOrder defaultResults.

(** A next-page control that is found with the selector, reports itself
    enabled, and accepts the click. *)
Definition clickable (env : NextPageEnv) (selector : string) : Prop :=
  ∃ c, nextQuery env selector = Returned (Some c) ∧
       disabled c = Returned false ∧ press c = Returned tt.

(** Some selector of [goToNextPage] finds such a control. *)
Definition anyClickable (env : NextPageEnv) : Prop :=
  ∃ selector, selector ∈ nextButtonSelectors ∧ clickable env selector.

(** The page is taller after the scroll to the bottom than before. *)
Definition grew (env : NextPageEnv) : Prop :=
  ∃ before after,
    initialHeight env = Returned before ∧
    scrollToBottom env = Returned tt ∧
    newHeight env = Returned after ∧ before < after.

(** The strings whose presence in a name marks site chrome. *)
Definition denylist : list string :=
  ["Stanford"; "University"; "Alumni Directory"; "(link is external)";
   "Maps & Directions"; "Terms of Use"].

End Spec.

(* ===================================================================== *)
(** ** Sample environments *)
(* ===================================================================== *)

Module Sample.

Definition anchor (text target : string) : element :=
  Element (Returned (Some text)) (Returned (Some target)) (Returned tt).

(** A card that shows a name in its heading and links to a profile, and
    a profile page on which nothing else is found. *)
Definition card (shown stamp : string) : CardEnv := {|
  cardQuery := λ selector,
    if bool_decide (selector = "h3 a")
    then Returned (Some (anchor shown "/profile/1"))
    else Returned None;
  cardQueryAll := λ selector,
    if bool_decide (selector = "h3 a")
    then Returned [anchor shown "/profile/1"]
    else Returned [];
  cardText := Returned (Some shown);
  degreeBodyText := Returned shown;
  locationValue := Returned NA;
  companyValue := Returned NA;
  urlQueryAll := λ _, Returned [];
  urlBodyText := Returned shown;
  professionalContactText := Returned "";
  phoneQueryAll := λ _, Returned [];
  phoneBodyText := Returned shown;
  emailSection := Returned None;
  emailQueryAll := λ _, Returned [];
  emailBodyText := Returned shown;
  buttons := Returned [];
  hasCareerSupport := Returned false;
  hasProfessionalContact := Returned false;
  skillsSection := Returned "";
  skillsBodyText := Returned shown;
  goBack := Returned tt;
  now := stamp
|}.

(** No next-page control, and a page that does not grow. *)
Definition lastPage : NextPageEnv := {|
  nextQuery := λ _, Returned None;
  initialHeight := Returned 2400;
  scrollToBottom := Returned tt;
  newHeight := Returned 2400
|}.

(** A listing of one page showing the given cards. *)
Definition listingOf (cards : list CardEnv) : CrawlEnv := {|
  csvReadError := None;
  initialCards := λ _, Returned (length cards);
  pages := [ {| listing := Returned ((λ c, Card c None) <$> cards);
                nextPage := lastPage;
                newPageContent := Returned tt |} ]
|}.

Definition freshWorld : world := World None [].

(** The profile of a person with two addresses behind [mailto:] links,
    which the first and the last email selector both find. *)
Definition cardWithEmails : CardEnv := {|
  cardQuery := cardQuery (card "Alice Example" "2024-05-01T10:00:00.000Z");
  cardQueryAll :=
    cardQueryAll (card "Alice Example" "2024-05-01T10:00:00.000Z");
  cardText := Returned (Some "Alice Example");
  degreeBodyText := Returned "Alice Example alice@stanford.edu alice@gmail.com";
  locationValue := Returned NA;
  companyValue := Returned NA;
  urlQueryAll := λ _, Returned [];
  urlBodyText := Returned "Alice Example alice@stanford.edu alice@gmail.com";
  professionalContactText := Returned "";
  phoneQueryAll := λ _, Returned [];
  phoneBodyText := Returned "Alice Example alice@stanford.edu alice@gmail.com";
  emailSection := Returned None;
  emailQueryAll := λ selector,
    if JS.includes selector "mailto"
    then Returned [anchor "alice@stanford.edu" "mailto:alice@stanford.edu";
                   anchor "alice@gmail.com" "mailto:alice@gmail.com"]
    else Returned [];
  emailBodyText := Returned "";
  buttons := Returned [];
  hasCareerSupport := Returned false;
  hasProfessionalContact := Returned false;
  skillsSection := Returned "";
  skillsBodyText := Returned "";
  goBack := Returned tt;
  now := "2024-05-01T10:00:00.000Z"
|}.

(** The profile of a person with a LinkedIn link (which three of the
    four URL selectors find) and no email link.  The page loses its
    execution context just before the page text is searched for emails:
    that evaluation and the later ones are rejected, while the way back
    to the listing works. *)
Definition cardWithFailingEmailSearch : CardEnv := {|
  cardQuery := cardQuery (card "Jane Doe" "2024-05-01T10:00:00.000Z");
  cardQueryAll := cardQueryAll (card "Jane Doe" "2024-05-01T10:00:00.000Z");
  cardText := Returned (Some "Jane Doe");
  degreeBodyText := Returned "Jane Doe LinkedIn";
  locationValue := Returned NA;
  companyValue := Returned NA;
  urlQueryAll := λ selector,
    if JS.includes selector "linkedin.com" || JS.includes selector "http"
    then Returned [anchor "LinkedIn" "https://linkedin.com/in/jane-doe"]
    else Returned [];
  urlBodyText := Returned "Jane Doe LinkedIn";
  professionalContactText := Returned "";
  phoneQueryAll := λ _, Returned [];
  phoneBodyText := Returned "Jane Doe LinkedIn";
  emailSection := Returned None;
  emailQueryAll := λ _, Returned [];
  emailBodyText := Thrown "Execution context was destroyed";
  buttons := Returned [];
  hasCareerSupport := Thrown "Execution context was destroyed";
  hasProfessionalContact := Thrown "Execution context was destroyed";
  skillsSection := Thrown "Execution context was destroyed";
  skillsBodyText := Thrown "Execution context was destroyed";
  goBack := Returned tt;
  now := "2024-05-01T10:00:00.000Z"
|}.

(** A card whose profile link cannot be clicked. *)
Definition cardWithDeadLink : CardEnv := {|
  cardQuery := cardQuery (card "Jane Doe" "2024-05-01T10:00:00.000Z");
  cardQueryAll := λ selector,
    if bool_decide (selector = "h3 a")
    then Returned [Element (Returned (Some "Jane Doe"))
                     (Returned (Some "/profile/1"))
                     (Thrown "Element is not attached to the DOM")]
    else Returned [];
  cardText := Returned (Some "Jane Doe");
  degreeBodyText := Returned "";
  locationValue := Returned NA;
  companyValue := Returned NA;
  urlQueryAll := λ _, Returned [];
  urlBodyText := Returned "";
  professionalContactText := Returned "";
  phoneQueryAll := λ _, Returned [];
  phoneBodyText := Returned "";
  emailSection := Returned None;
  emailQueryAll := λ _, Returned [];
  emailBodyText := Returned "";
  buttons := Returned [];
  hasCareerSupport := Returned false;
  hasProfessionalContact := Returned false;
  skillsSection := Returned "";
  skillsBodyText := Returned "";
  goBack := Returned tt;
  now := "2024-05-01T10:00:00.000Z"
|}.

(** A directory page on which no selector finds a search input in
    time. *)
Definition pageWithoutSearchBox : SearchEnv := {|
  gotoDirectory := Returned tt;
  searchBoxQuery := λ _, Thrown "Timeout 3000ms exceeded"
|}.

End Sample.

(* ===================================================================== *)
(** ** Sample files and sessions *)
(* ===================================================================== *)

Module Examples.

(** A record with a name and a class year. *)
Definition janeDoe : AlumniRecord := {|
  name := "Jane Doe";
  classYear := "2020";
  degree := "MBA '20";
  location := NA;
  company := NA;
  stanfordEmail := NA;
  personalEmail := NA;
  urls := NA;
  phone := NA;
  skills := NA;
  careerSupport := "No";
  professionalContact := "No";
  extractedAt := "2024-05-01T10:00:00.000Z"
|}.

(** A file that holds a header line without a line break after it. *)
Definition headerWithoutLineBreak : string := "Name,Class Year,Degree".

(** A file with a header, a row of a person, a row made from the footer
    of the site, and a line break at the end. *)
Definition fileWithFooterRow : string :=
  JS.join (String JS.LF "")
    ["Name,Class Year,Degree"; "John Smith,1999,BA"; "Terms of Use,N/A,N/A";
     ""].

(** The profile of a person whose contact section shows two phone
    numbers, one of them twice. *)
Definition cardWithPhones : CardEnv := {|
  cardQuery := cardQuery (Sample.card "Jane Doe" "2024-05-01T10:00:00.000Z");
  cardQueryAll :=
    cardQueryAll (Sample.card "Jane Doe" "2024-05-01T10:00:00.000Z");
  cardText := Returned (Some "Jane Doe");
  degreeBodyText := Returned "Jane Doe";
  locationValue := Returned NA;
  companyValue := Returned NA;
  urlQueryAll := λ _, Returned [];
  urlBodyText := Returned "Jane Doe";
  professionalContactText :=
    Returned "Work (650) 924-7485 Mobile 650-555-0199 Fax (650) 924-7485";
  phoneQueryAll := λ _, Returned [];
  phoneBodyText := Returned "Jane Doe";
  emailSection := Returned None;
  emailQueryAll := λ _, Returned [];
  emailBodyText := Returned "Jane Doe";
  buttons := Returned [];
  hasCareerSupport := Returned false;
  hasProfessionalContact := Returned true;
  skillsSection := Returned "";
  skillsBodyText := Returned "Jane Doe";
  goBack := Returned tt;
  now := "2024-05-01T10:00:00.000Z"
|}.

(** The profile of a person whose page has no skills section and whose
    text names skills after the word Skills. *)
Definition cardWithSkillsInText : CardEnv := {|
  cardQuery := cardQuery (Sample.card "Jane Doe" "2024-05-01T10:00:00.000Z");
  cardQueryAll :=
    cardQueryAll (Sample.card "Jane Doe" "2024-05-01T10:00:00.000Z");
  cardText := Returned (Some "Jane Doe");
  degreeBodyText := Returned "Jane Doe";
  locationValue := Returned NA;
  companyValue := Returned NA;
  urlQueryAll := λ _, Returned [];
  urlBodyText := Returned "Jane Doe";
  professionalContactText := Returned "";
  phoneQueryAll := λ _, Returned [];
  phoneBodyText := Returned "Jane Doe";
  emailSection := Returned None;
  emailQueryAll := λ _, Returned [];
  emailBodyText := Returned "Jane Doe";
  buttons := Returned [];
  hasCareerSupport := Returned false;
  hasProfessionalContact := Returned false;
  skillsSection := Returned "";
  skillsBodyText :=
    Returned "Jane Doe Skills: negotiation, public speaking. Contact";
  goBack := Returned tt;
  now := "2024-05-01T10:00:00.000Z"
|}.

(** Two cards of the first crawler; on the second the company is not
    found. *)
Definition cards : list Simple.CardEnv :=
  [ {| Simple.nameEval := Returned "Jane Doe";
       Simple.degreeEval := Returned "MBA '20";
       Simple.companyEval := Returned "Acme";
       Simple.now := "2024-05-01T10:00:00.000Z" |};
    {| Simple.nameEval := Returned "John Smith";
       Simple.degreeEval := Returned "BA '99";
       Simple.companyEval := Thrown "No element found";
       Simple.now := "2024-05-01T10:00:01.000Z" |} ].

(** A run without a saved session in which the log-in form is filled
    in, the button leads to the directory and two cards are shown. *)
Definition firstRun : Simple.Env := {|
  Simple.launch := Returned tt;
  Simple.sessionAtInitialize := false;
  Simple.newContext := Returned tt;
  Simple.newPage := Returned tt;
  Simple.setViewportSize := Returned tt;
  Simple.setExtraHTTPHeaders := Returned tt;
  Simple.sessionAtLogin := false;
  Simple.gotoLogin := Returned tt;
  Simple.content := Returned "<html></html>";
  Simple.waitForUserid := Returned tt;
  Simple.waitForPassword := Returned tt;
  Simple.username := Some "jdoe";
  Simple.password := Some "secret";
  Simple.typeUsername := Returned tt;
  Simple.typePassword := Returned tt;
  Simple.loginButton :=
    Returned (Some (Simple.Handle (Returned tt) (Returned None)));
  Simple.waitForLoadState := Returned tt;
  Simple.urlAfterLogin := "https://alumnidirectory.stanford.edu/";
  Simple.errorElement := Returned None;
  Simple.gotoDirectory := Returned tt;
  Simple.waitForCards := Returned tt;
  Simple.cards := Returned cards;
  Simple.writeError := None;
  Simple.closeBrowser := Returned tt
|}.

(** The same run with no user name in the environment of the
    process. *)
Definition firstRunWithoutUsername : Simple.Env := {|
  Simple.launch := Returned tt;
  Simple.sessionAtInitialize := false;
  Simple.newContext := Returned tt;
  Simple.newPage := Returned tt;
  Simple.setViewportSize := Returned tt;
  Simple.setExtraHTTPHeaders := Returned tt;
  Simple.sessionAtLogin := false;
  Simple.gotoLogin := Returned tt;
  Simple.content := Returned "<html></html>";
  Simple.waitForUserid := Returned tt;
  Simple.waitForPassword := Returned tt;
  Simple.username := None;
  Simple.password := Some "secret";
  Simple.typeUsername := Returned tt;
  Simple.typePassword := Returned tt;
  Simple.loginButton :=
    Returned (Some (Simple.Handle (Returned tt) (Returned None)));
  Simple.waitForLoadState := Returned tt;
  Simple.urlAfterLogin := "https://alumnidirectory.stanford.edu/";
  Simple.errorElement := Returned None;
  Simple.gotoDirectory := Returned tt;
  Simple.waitForCards := Returned tt;
  Simple.cards := Returned cards;
  Simple.writeError := None;
  Simple.closeBrowser := Returned tt
|}.

(** A listing of one page with two cards; the write of the row of the
    second fails because the disk is full. *)
Definition listingWithFailedWrite : CrawlEnv := {|
  csvReadError := None;
  initialCards := λ _, Returned 2;
  pages :=
    [ {| listing :=
           Returned [Card (Sample.card "Jane Doe" "2024-05-01T10:00:00.000Z")
                       None;
                     Card (Sample.card "John Roe" "2024-05-01T10:01:00.000Z")
                       (Some "ENOSPC: no space left on device")];
         nextPage := Sample.lastPage;
         newPageContent := Returned tt |} ]
|}.

(** A directory that shows the same two people, one of them twice,
    whatever is searched for, and has no search input. *)
Definition directory : AlumniEnv := {|
  landing := Returned "https://alumnidirectory.stanford.edu/";
  searchFor := λ _, Sample.pageWithoutSearchBox;
  resultsFor := λ _,
    Sample.listingOf
      [Sample.card "Jane Doe" "2024-05-01T10:00:00.000Z";
       Sample.card "John Roe" "2024-05-01T10:01:00.000Z";
       Sample.card "Jane Doe" "2024-05-01T10:02:00.000Z"]
|}.

(** A session of the stealth crawler in which the page cannot be closed
    at the end. *)
Definition stealthSession : StealthSession.Env := {|
  StealthSession.browserSet := false;
  StealthSession.initialize := Returned tt;
  StealthSession.newPage := Returned tt;
  StealthSession.directory := directory;
  StealthSession.waitSeconds := 62;
  StealthSession.urlAtError := "https://alumnidirectory.stanford.edu/";
  StealthSession.titleAtError := Returned "Stanford Alumni Directory";
  StealthSession.closePage := Thrown pageClosed
|}.

End Examples.

(* ===================================================================== *)
(** ** Notions used to state the properties *)
(* ===================================================================== *)

(** [m] ends with the same [part] of the state it started with, however
    it ends. *)
Definition preserves {S X A} (part : S → X) (m : M S A) : Prop :=
  ∀ s o s', m s = (o, s') → part s' = part s.

(** The computations on the world that only write to the console. *)
Abbreviation consoleOnly := (preserves fs).

(** [m] returns, whatever the state. *)
Definition safe {S A} (m : M S A) : Prop :=
  ∀ s, ∃ a s', m s = (Returned a, s').

(** A record that some call of the extractor returned. *)
Definition extracted (r : AlumniRecord) : Prop :=
  ∃ env w w', extractAlumniFromElement env w = (Returned (Some r), w').

(** A property of the file, the accepted records and the names seen, read
    off the variables of a call of [crawlSearchResults]. *)
Definition holdsIn
    (P : option string → list AlumniRecord → gset string → Prop)
    (v : Crawler.vars) : Prop :=
  P (fs (Crawler.outside v)) (Crawler.results v) (Crawler.existingNames v).

(** What is known where a part of the listing loop ends: [I] when it
    returns, [I] or [X] when it throws. *)
Definition holdsAtEnd
    (I X : option string → list AlumniRecord → gset string → Prop)
    {A} (o : outcome A) (v : Crawler.vars) : Prop :=
  match o with
  | Returned _ => holdsIn I v
  | Thrown _ => holdsIn I v ∨ holdsIn X v
  end.

(** In the stealth loop the session counter counts the accepted records,
    and stays within the session limit. *)
Definition counted (v : Stealth.vars) : Prop :=
  Stealth.profilesThisSession v = length (Stealth.results v) ∧
  length (Stealth.results v) ≤ Stealth.maxProfilesPerSession.

(** A name that the CSV writer writes as it stands and that is read back
    as it stands: not empty, without comma, quote or line break, and
    without white space at its start. *)
Definition plainName (n : string) : Prop :=
  JS.truthy n = true ∧ CsvWriter.needsQuote n = false ∧ JS.trimStart n = n.

(** Whether the filter of the cleaning script keeps a line, and the
    content it writes for a given content. *)
Definition keptByCleaning (line : string) : bool :=
  JS.truthy (JS.trim line) && (0 <? JS.indexOf line ",")%Z &&
  CleanCsv.isValidAlumni (CleanCsv.nameOf line (JS.indexOf line ",")).

Definition cleanedContent (csvContent : string) : string :=
  let lines := JS.split JS.LF csvContent in
  JS.join (String JS.LF "")
    (default "" (head lines) ::
     List.filter keptByCleaning (List.tl lines)).

(** [matches r prev s rest]: the pattern [r] matches the text [s] at a
    position where the preceding code unit is [prev] and the input that
    follows the match is [rest].  An iteration of a loop matches a text
    that is not empty. *)
Inductive matches : Re.regex → option ascii → string → string → Prop :=
| MatchEps prev rest : matches Re.Eps prev "" rest
| MatchChr (p : ascii → bool) c prev rest :
    p c = true → matches (Re.Chr p) prev (String c "") rest
| MatchSeq a b prev s1 s2 rest :
    matches a prev s1 (s2 +:+ rest) →
    matches b (Re.lastOf prev s1) s2 rest →
    matches (Re.Seq a b) prev (s1 +:+ s2) rest
| MatchAltL a b prev s rest :
    matches a prev s rest → matches (Re.Alt a b) prev s rest
| MatchAltR a b prev s rest :
    matches b prev s rest → matches (Re.Alt a b) prev s rest
| MatchStarNil a prev rest : matches (Re.Star a) prev "" rest
| MatchStarCons a prev s1 s2 rest :
    s1 ≠ "" →
    matches a prev s1 (s2 +:+ rest) →
    matches (Re.Star a) (Re.lastOf prev s1) s2 rest →
    matches (Re.Star a) prev (s1 +:+ s2) rest
| MatchGroup a prev s rest :
    matches a prev s rest → matches (Re.Group a) prev s rest
| MatchWordBoundary prev rest :
    xorb (Re.wordAt prev) (Re.wordAt (Re.headOf rest)) = true →
    matches Re.WordBoundary prev "" rest
| MatchBol rest : matches Re.Bol None "" rest
| MatchEol prev : matches Re.Eol prev "" "".

(** The loop that [Re.rmatch] runs for [Star a], as a function of the
    number of iterations it may still try. *)
Definition starLoop (a : Re.regex)
    (k : option string → option ascii → string → option Re.result)
    : nat → option string → option ascii → string → option Re.result :=
  fix loop (fuel : nat) (cap : option string) (prev : option ascii)
      (rest : string) : option Re.result :=
    match fuel with
    | O => k cap prev rest
    | S fuel' =>
        match Re.rmatch a cap prev rest
                (λ cap' prev' rest',
                   if String.length rest' <? String.length rest
                   then loop fuel' cap' prev' rest' else None) with
        | Some out => Some out
        | None => k cap prev rest
        end
    end.

(** [m] keeps the property [P] of the state, however it ends. *)
Definition maintains {S A} (P : S → Prop) (m : M S A) : Prop :=
  ∀ s o s', m s = (o, s') → P s → P s'.

(** An entry of the URLs column made from a link that points to none of
    the internal sites. *)
Definition externalEntry (entry : string) : Prop :=
  ∃ url, entry = Profile.urlEntry url ∧ Profile.isExternal url = true.

(** The URLs collected so far are entries made from external links. *)
Definition urlsExternal (v : Vars.t) : Prop :=
  Forall externalEntry (Vars.urls v).

(** A phone number as the extractor records it: the trimmed text of a
    match of one of the five shapes. *)
Definition phoneShaped (phone : string) : Prop :=
  ∃ pattern prev m rest,
    pattern ∈ Profile.phonePatterns ∧ matches pattern prev m rest ∧
    phone = JS.trim m.

(** The phone numbers collected so far are distinct and have one of the
    five shapes. *)
Definition phonesDistinct (v : Vars.t) : Prop :=
  NoDup (Vars.phones v) ∧ Forall phoneShaped (Vars.phones v).

(** The emails collected so far contain an at sign. *)
Definition emailsHaveAt (v : Vars.t) : Prop :=
  Forall (λ e, JS.includes e "@" = true) (Vars.emails v).

(** The same readings of the variables of the stealth override of
    [crawlSearchResults]. *)
Definition stealthHoldsIn
    (P : option string → list AlumniRecord → gset string → Prop)
    (v : Stealth.vars) : Prop :=
  P (fs (Stealth.outside v)) (Stealth.results v) (Stealth.existingNames v).

Definition stealthHoldsAtEnd
    (I X : option string → list AlumniRecord → gset string → Prop)
    {A} (o : outcome A) (v : Stealth.vars) : Prop :=
  match o with
  | Returned _ => stealthHoldsIn I v
  | Thrown _ => stealthHoldsIn I v ∨ stealthHoldsIn X v
  end.

(** The record that the first crawler makes of a card. *)
Definition cardRecord (card : Simple.CardEnv) : Simple.AlumniCard :=
  {| Simple.name := Profile.orNA (Simple.nameEval card);
     Simple.classYear := "N/A";
     Simple.degree := Profile.orNA (Simple.degreeEval card);
     Simple.location := "N/A";
     Simple.company := Profile.orNA (Simple.companyEval card);
     Simple.extractedAt := Simple.now card |}.

(** The record that a visit of the card gives. *)
Definition recordOf (card : CardEnv) (r : AlumniRecord) : Prop :=
  ∃ w w', extractAlumniFromElement card w = (Returned (Some r), w').

(** The environment fails the write of the row of this card with the
    error [e]. *)
Definition failedWrite (env : CrawlEnv) (card : CardEnv) (e : string)
    : Prop :=
  ∃ page steps,
    page ∈ pages env ∧ listing page = Returned steps ∧
    Card card (Some e) ∈ steps.

(** No write of the environment fails. *)
Definition writesSucceed (env : CrawlEnv) : bool :=
  forallb (λ page,
             match listing page with
             | Returned steps =>
                 forallb (λ step,
                            match step with
                            | Card _ (Some _) => false
                            | _ => true
                            end) steps
             | Thrown _ => true
             end) (pages env).

(** The file holds what it held at the start of the call followed by
    the rows of the records accepted so far. *)
Definition written (sink : option string) (v : Crawler.vars) : Prop :=
  fs (Crawler.outside v) = Spec.appendRows sink (Crawler.results v).

(** The file holds the rows of all accepted records but the last, which
    is the record of a card whose write failed with [e]. *)
Definition lastUnwritten (sink : option string)
    (failed : CardEnv → string → Prop) (e : string) (v : Crawler.vars)
    : Prop :=
  ∃ rs0 r card,
    Crawler.results v = rs0 ++ [r] ∧
    fs (Crawler.outside v) = Spec.appendRows sink rs0 ∧
    failed card e ∧ recordOf card r.

Definition writtenAtEnd (sink : option string)
    (failed : CardEnv → string → Prop) {A} (o : outcome A)
    (v : Crawler.vars) : Prop :=
  match o with
  | Returned _ => written sink v
  | Thrown e => written sink v ∨ lastUnwritten sink failed e v
  end.

(* ===================================================================== *)
(** * Properties *)
(* ===================================================================== *)

(** ** Running binds and handlers *)

Section MonadFacts.
Context {S : Type}.

Lemma run_bind {A B} (m : M S A) (f : A → M S B) (s : S) :
  (m ≫= f) s =
  match m s with
  | (Returned a, s') => f a s'
  | (Thrown e, s') => (Thrown e, s')
  end.
Proof. reflexivity. Qed.

Lemma bind_returned {A B} (m : M S A) (f : A → M S B) s a s1 :
  m s = (Returned a, s1) → (m ≫= f) s = f a s1.
Proof. intros H. rewrite run_bind, H. reflexivity. Qed.

Lemma bind_thrown {A B} (m : M S A) (f : A → M S B) s e s1 :
  m s = (Thrown e, s1) → (m ≫= f) s = (Thrown e, s1).
Proof. intros H. rewrite run_bind, H. reflexivity. Qed.

Lemma bind_returned_inv {A B} (m : M S A) (f : A → M S B) s b s' :
  (m ≫= f) s = (Returned b, s') →
  ∃ a s1, m s = (Returned a, s1) ∧ f a s1 = (Returned b, s').
Proof.
  rewrite run_bind. destruct (m s) as [[a|e] s1]; [eauto | discriminate].
Qed.

Lemma tryCatch_returned {A} (m : M S A) h s a s1 :
  m s = (Returned a, s1) → tryCatch m h s = (Returned a, s1).
Proof. unfold tryCatch. intros ->. reflexivity. Qed.

Lemma tryCatch_thrown {A} (m : M S A) h s e s1 :
  m s = (Thrown e, s1) → tryCatch m h s = h e s1.
Proof. unfold tryCatch. intros ->. reflexivity. Qed.
End MonadFacts.

(** Claim C10.  [getExistingNames] returns a set whatever the state of the
    output file and never throws: when the file does not exist it returns
    the empty set and leaves the world as it is; when reading the file
    throws, it logs a warning carrying the error's message and returns the
    empty set. *)
Theorem getExistingNames_total (readError : option string) (w : world) :
  (∃ names w', getExistingNames readError w = (Returned names, w')) ∧
  (fs w = None → getExistingNames readError w = (Returned ∅, w)) ∧
  (∀ stored e, fs w = Some stored → readError = Some e →
     getExistingNames readError w =
       (Returned ∅,
        World (fs w) (console w ++ [WarnReadingExistingCSV e]))).
Proof.
  destruct w as [[stored|] out]; destruct readError as [e|];
    (split; [| split]); simpl; try discriminate; eauto;
    intros; simplify_eq; reflexivity.
Qed.

(** Claim C8, as amended.  When the prominent-degree pattern matches within
    the first 500 characters of the body text, the degree extractor
    returns the first such match, trimmed, and none of the later methods
    is consulted; so it returns "MBA '24" whenever that first match is
    "MBA '24". *)
Theorem prominent_degree_takes_priority (fullText : string) (m : Re.found) :
  Re.exec Degree.prominentDegree (JS.substring fullText 0 500) = Some m →
  Degree.extractDegree fullText = JS.trim (Re.text m) ∧
  (Re.text m = "MBA '24" → Degree.extractDegree fullText = "MBA '24").
Proof.
  intros Hm. unfold Degree.extractDegree. rewrite Hm. split; [done|].
  intros ->. reflexivity.
Qed.

(** An instance of the property of claim C8. *)
Lemma prominent_degree_takes_priority_witness :
  Degree.extractDegree "Jane Doe MBA '24 Palo Alto, California" = "MBA '24".
Proof.
  destruct (Re.exec Degree.prominentDegree
              (JS.substring "Jane Doe MBA '24 Palo Alto, California" 0 500))
    as [m|] eqn:Hm; [| vm_compute in Hm; discriminate].
  apply (prominent_degree_takes_priority _ m Hm).
  vm_compute in Hm. injection Hm as <-. reflexivity.
Defined.

(** Claim C8 as stated fails: the text below contains "MBA '24" within its
    first 500 characters, and the degree extractor returns the degree that
    is written before it. *)
Lemma earlier_degree_shadows_MBA_24 :
  JS.includes (JS.substring "Jane Doe BA '20, MBA '24" 0 500) "MBA '24" = true ∧
  Degree.extractDegree "Jane Doe BA '20, MBA '24" = "BA '20" ∧
  Degree.extractDegree "Jane Doe BA '20, MBA '24" ≠ "MBA '24".
Proof. vm_compute. split; [done|]. split; [done|]. discriminate. Qed.

(** ** Pagination *)

Lemma tryNextButton_spec env selector w :
  ∃ b w', tryNextButton env selector w = (Returned b, w') ∧
          (b = true ↔ Spec.clickable env selector).
Proof.
  unfold tryNextButton, tryCatch, Spec.clickable.
  rewrite run_bind. unfold await at 1.
  destruct (nextQuery env selector) as [[c|]|e] eqn:Hq; simpl.
  - rewrite run_bind. unfold await at 1.
    destruct (disabled c) as [[|]|e] eqn:Hd; simpl.
    + eexists _, _. split; [done|]. split; [done|].
      intros (c' & ? & ? & ?). congruence.
    + unfold mbind, M_bind, bind, log, modify, await, ret. simpl.
      destruct (press c) as [[]|e] eqn:Hp; simpl.
      * eexists _, _. split; [done|]. split; [|done]. eauto.
      * eexists _, _. split; [done|]. split; [done|].
        intros (c' & ? & ? & ?). congruence.
    + eexists _, _. split; [done|]. split; [done|].
      intros (c' & ? & ? & ?). congruence.
  - eexists _, _. split; [done|]. split; [done|].
    intros (c' & ? & ? & ?). congruence.
  - eexists _, _. split; [done|]. split; [done|].
    intros (c' & ? & ? & ?). congruence.
Qed.

Lemma clickNextButton_spec env selectors w :
  ∃ b w', clickNextButton env selectors w = (Returned b, w') ∧
          (b = true ↔ ∃ selector, selector ∈ selectors ∧
                                  Spec.clickable env selector).
Proof.
  revert w. induction selectors as [|selector rest IH]; intros w; simpl.
  - eexists _, _. split; [done|]. split; [done|].
    intros (? & Hin & _). by apply elem_of_nil in Hin.
  - destruct (tryNextButton_spec env selector w) as (b & w1 & Hrun & Hb).
    rewrite (bind_returned _ _ _ _ _ Hrun). destruct b.
    + eexists _, _. split; [done|]. split; [|done]. intros _.
      exists selector. split; [apply elem_of_cons; auto | by apply Hb].
    + destruct (IH w1) as (b & w2 & Hrest & Hb2).
      eexists _, _. split; [exact Hrest|]. rewrite Hb2. split.
      * intros (s & Hin & Hc). exists s. split; [|done].
        apply elem_of_cons. auto.
      * intros (s & Hin & Hc). apply elem_of_cons in Hin as [->|Hin].
        -- apply Hb in Hc. discriminate.
        -- eauto.
Qed.

Lemma goToNextPage_spec env w :
  ∃ b w', goToNextPage env w = (Returned b, w') ∧
          (b = true ↔
             Spec.anyClickable env ∨ (¬ Spec.anyClickable env ∧ Spec.grew env)).
Proof.
  unfold goToNextPage, tryCatch.
  destruct (clickNextButton_spec env nextButtonSelectors w)
    as (b & w1 & Hrun & Hb).
  rewrite (bind_returned _ _ _ _ _ Hrun). destruct b.
  - eexists _, _. split; [done|]. split; [|done]. intros _. left.
    by apply Hb.
  - assert (Hno : ¬ Spec.anyClickable env).
    { intros H. apply Hb in H. discriminate. }
    unfold mbind, M_bind, bind, await, Spec.grew.
    destruct (initialHeight env) as [before|e] eqn:Hi; simpl.
    2: { eexists _, _. split; [done|]. split; [done|].
         intros [?|(_ & ? & ? & ? & ?)]; [done | congruence]. }
    destruct (scrollToBottom env) as [[]|e] eqn:Hs; simpl.
    2: { eexists _, _. split; [done|]. split; [done|].
         intros [?|(_ & ? & ? & ? & ? & ?)]; [done | congruence]. }
    destruct (newHeight env) as [after|e] eqn:Hn; simpl.
    2: { eexists _, _. split; [done|]. split; [done|].
         intros [?|(_ & ? & ? & ? & ? & ? & ?)]; [done | congruence]. }
    destruct (before <? after) eqn:Hlt; simpl.
    + eexists _, _. split; [done|]. split; [|done]. intros _. right.
      split; [done|]. exists before, after. apply Nat.ltb_lt in Hlt. done.
    + eexists _, _. split; [done|]. split; [done|].
      intros [?|(_ & b' & a' & ? & ? & ? & Hlt')]; [done|].
      simplify_eq. apply Nat.ltb_ge in Hlt. lia.
Qed.

(** ** Computations that leave a part of the state alone, and
       computations that cannot throw *)

Section Frames.
Context {S X : Type} (part : S → X).

Lemma preserves_ret {A} (a : A) : preserves part (ret a).
Proof. intros s o s' [= <- <-]. done. Qed.

Lemma preserves_mret {A} (a : A) : preserves part (mret a).
Proof. apply preserves_ret. Qed.

Lemma preserves_throw {A} e : preserves part (@throw S A e).
Proof. intros s o s' [= <- <-]. done. Qed.

Lemma preserves_await {A} (x : outcome A) : preserves part (await x).
Proof. intros s o s' [= <- <-]. done. Qed.

Lemma preserves_gets {A} (f : S → A) : preserves part (gets f).
Proof. intros s o s' [= <- <-]. done. Qed.

Lemma preserves_modify (f : S → S) :
  (∀ s, part (f s) = part s) → preserves part (modify f).
Proof. intros Hf s o s' [= <- <-]. apply Hf. Qed.

Lemma preserves_bind {A B} (m : M S A) (f : A → M S B) :
  preserves part m → (∀ a, preserves part (f a)) → preserves part (m ≫= f).
Proof.
  intros Hm Hf s o s'. rewrite run_bind.
  destruct (m s) as [[a|e] s1] eqn:Hrun.
  - intros Hk. rewrite (Hf a _ _ _ Hk). eauto.
  - intros [= <- <-]. eauto.
Qed.

Lemma preserves_tryCatch {A} (m : M S A) h :
  preserves part m → (∀ e, preserves part (h e)) → preserves part (tryCatch m h).
Proof.
  intros Hm Hh s o s'. unfold tryCatch.
  destruct (m s) as [[a|e] s1] eqn:Hrun.
  - intros [= <- <-]. eauto.
  - intros Hk. rewrite (Hh e _ _ _ Hk). eauto.
Qed.

Lemma preserves_forOf {A} (xs : list A) (body : A → M S unit) :
  (∀ x, preserves part (body x)) → preserves part (forOf xs body).
Proof.
  intros Hbody. induction xs as [|x xs IH]; simpl.
  - apply preserves_ret.
  - apply preserves_bind; [apply Hbody | intros _; exact IH].
Qed.
End Frames.

Section Safety.
Context {S : Type}.

Lemma safe_ret {A} (a : A) : @safe S _ (ret a).
Proof. intros s. by eexists _, _. Qed.

Lemma safe_mret {A} (a : A) : @safe S _ (mret a).
Proof. apply safe_ret. Qed.

Lemma safe_gets {A} (f : S → A) : safe (gets f).
Proof. intros s. by eexists _, _. Qed.

Lemma safe_modify (f : S → S) : safe (modify f).
Proof. intros s. by eexists _, _. Qed.

Lemma safe_bind {A B} (m : M S A) (f : A → M S B) :
  safe m → (∀ a, safe (f a)) → safe (m ≫= f).
Proof.
  intros Hm Hf s. destruct (Hm s) as (a & s1 & Hrun).
  rewrite (bind_returned _ _ _ _ _ Hrun). apply Hf.
Qed.

Lemma safe_tryCatch {A} (m : M S A) h :
  (∀ e, safe (h e)) → safe (tryCatch m h).
Proof.
  intros Hh s. unfold tryCatch. destruct (m s) as [[a|e] s1]; [|apply Hh].
  by eexists _, _.
Qed.

Lemma safe_forOf {A} (xs : list A) (body : A → M S unit) :
  (∀ x, safe (body x)) → safe (forOf xs body).
Proof.
  intros Hbody. induction xs as [|x xs IH]; simpl.
  - apply safe_ret.
  - apply safe_bind; [apply Hbody | intros _; exact IH].
Qed.

Lemma safe_not_thrown {A} (m : M S A) s e s' :
  safe m → m s ≠ (Thrown e, s').
Proof. intros Hm Hrun. destruct (Hm s) as (a & s1 & H). congruence. Qed.
End Safety.

Create HintDb frame discriminated.
#[export] Hint Resolve preserves_ret preserves_mret preserves_throw
  preserves_await preserves_gets safe_ret safe_mret safe_gets safe_modify
  : frame.

(** Structural steps for goals of the two kinds. *)
Ltac frame_step :=
  first
    [ apply preserves_bind; [| intros ?]
    | apply preserves_tryCatch; [| intros ?]
    | apply preserves_forOf; intros ?
    | apply preserves_modify; intros ?; reflexivity
    | apply safe_bind; [| intros ?]
    | apply safe_tryCatch; intros ?
    | apply safe_forOf; intros ?
    | progress auto with frame
    | match goal with
      | |- preserves _ (match ?x with _ => _ end) => destruct x
      | |- preserves _ (if ?x then _ else _) => destruct x
      | |- safe (match ?x with _ => _ end) => destruct x
      | |- safe (if ?x then _ else _) => destruct x
      end ].
Ltac frame := repeat frame_step.

Lemma consoleOnly_log n : consoleOnly (log n).
Proof. unfold log. frame. Qed.
#[export] Hint Resolve consoleOnly_log : frame.

Lemma consoleOnly_clickNextButton env selectors :
  consoleOnly (clickNextButton env selectors).
Proof.
  induction selectors as [|selector rest IH]; simpl; [frame|].
  apply preserves_bind; [unfold tryNextButton; frame|].
  intros []; [frame | exact IH].
Qed.

Lemma consoleOnly_goToNextPage env : consoleOnly (goToNextPage env).
Proof.
  unfold goToNextPage. apply preserves_tryCatch; [|intros; frame].
  apply preserves_bind; [apply consoleOnly_clickNextButton|].
  intros []; frame.
Qed.

Lemma consoleOnly_getExistingNames readError :
  consoleOnly (getExistingNames readError).
Proof. unfold getExistingNames. frame. Qed.

Lemma consoleOnly_extractAlumniFromElement env :
  consoleOnly (extractAlumniFromElement env).
Proof.
  intros w o w'. unfold extractAlumniFromElement.
  destruct (extractAlumniFromElementIn env _) as [r v]. intros [= <- <-]. done.
Qed.

Lemma extractAlumniFromElementIn_returns env v :
  ∃ r v', extractAlumniFromElementIn env v = (Returned r, v').
Proof.
  unfold extractAlumniFromElementIn, tryCatch.
  destruct (Profile.visitProfile env v) as [[r|e] v1]; eauto.
Qed.

Lemma extractAlumniFromElement_returns env w :
  ∃ r w', extractAlumniFromElement env w = (Returned r, w') ∧ fs w' = fs w.
Proof.
  unfold extractAlumniFromElement.
  destruct (extractAlumniFromElementIn_returns env (Vars.init (console w)))
    as (r & v' & ->). eauto.
Qed.

Lemma goToNextPage_returns env w :
  ∃ b w', goToNextPage env w = (Returned b, w') ∧ fs w' = fs w.
Proof.
  destruct (goToNextPage_spec env w) as (b & w' & H & _).
  exists b, w'. split; [done|]. by eapply consoleOnly_goToNextPage.
Qed.

(** ** The listing loop keeps an invariant *)

Module CrawlerFacts.
Import Crawler.

Local Arguments findCards : simpl never.

Section Invariant.
(** [I sink results names] is to hold whenever the loop is between two
    cards; [X] may hold instead when the call ends by a failed write. *)
Variables I X : option string → list AlumniRecord → gset string → Prop.

Hypothesis accepted : ∀ sink rs names r,
  I sink rs names → length rs < 1000 → extracted r →
  isValidAlumni (name r) = true → name r ∉ names →
  I (Spec.appendRow sink r) (rs ++ [r]) (names ∪ {[name r]}) ∧
  X sink (rs ++ [r]) (names ∪ {[name r]}).

Lemma inWorld_run {A} (m : M world A) v :
  inWorld m v =
  let '(o, w') := m (outside v) in
  (o, MkVars w' (results v) (existingNames v) (totalSavedCount v)).
Proof. reflexivity. Qed.

Lemma inWorld_frame {A} (m : M world A) v o v' :
  inWorld m v = (o, v') → consoleOnly m → holdsIn I v → holdsIn I v'.
Proof.
  rewrite inWorld_run.
  destruct (m (outside v)) as [o1 w'] eqn:Hrun. intros [= <- <-] Hq.
  unfold holdsIn. simpl. by rewrite (Hq _ _ _ Hrun).
Qed.

Lemma consider_post searchType r writeError v o v' :
  extracted r → length (results v) < 1000 →
  consider searchType r writeError v = (o, v') →
  holdsIn I v → holdsAtEnd I X o v'.
Proof.
  intros Hex Hlen. unfold consider.
  destruct (isValidAlumni (name r)) eqn:Hvalid.
  2: { intros Hrun HI.
       pose proof (inWorld_frame _ _ _ _ Hrun (consoleOnly_log _) HI).
       destruct o; [|left]; done. }
  rewrite run_bind. unfold gets at 1.
  case_bool_decide as Hknown.
  { intros Hrun HI.
    pose proof (inWorld_frame _ _ _ _ Hrun (consoleOnly_log _) HI).
    destruct o; [|left]; done. }
  intros Hrun HI. destruct (accepted _ _ _ r HI Hlen Hex Hvalid Hknown)
    as [HI' HX'].
  revert Hrun. unfold accept, saveIncrementalCSV, CsvWriter.writeRecords.
  destruct v as [[sink out] rs names total].
  destruct writeError as [e|].
  - destruct sink; intros [= <- <-]; right; exact HX'.
  - destruct sink; intros [= <- <-]; exact HI'.
Qed.

Lemma processCards_post searchType steps v o v' :
  processCards searchType steps v = (o, v') → holdsIn I v → holdsAtEnd I X o v'.
Proof.
  revert v. induction steps as [|step rest IH]; intros v; simpl.
  { intros [= <- <-]. done. }
  rewrite run_bind. unfold gets at 1.
  destruct (length (results v) <? 1000) eqn:Hlen.
  2: { intros [= <- <-]. done. }
  apply Nat.ltb_lt in Hlen.
  destruct step as [|message|env writeError].
  - intros [= <- <-]. done.
  - intros [= <- <-]. by left.
  - rewrite run_bind, inWorld_run.
    destruct (extractAlumniFromElement_returns env (outside v))
      as (r & w' & Hrun & Hfs).
    rewrite Hrun. intros Hk HI.
    set (v1 := MkVars w' (results v) (existingNames v) (totalSavedCount v))
      in *.
    assert (HI1 : holdsIn I v1) by (unfold holdsIn; simpl; by rewrite Hfs).
    destruct r as [r|].
    + assert (Hex : extracted r) by (by eexists _, _, _).
      rewrite run_bind in Hk.
      destruct (consider searchType r writeError v1) as [[[]|e] v2] eqn:Hc.
      * eapply IH; [exact Hk|].
        apply (consider_post _ _ _ v1 _ _ Hex Hlen Hc HI1).
      * injection Hk as <- <-.
        apply (consider_post _ _ _ v1 _ _ Hex Hlen Hc HI1).
    + eapply IH; [exact Hk | exact HI1].
Qed.

Lemma crawlPages_post searchType pages v o v' :
  crawlPages searchType pages v = (o, v') → holdsIn I v → holdsAtEnd I X o v'.
Proof.
  revert v. induction pages as [|page rest IH]; intros v; simpl;
    rewrite run_bind; unfold gets at 1;
    destruct (length (results v) <? 1000) eqn:Hlen;
    try (intros [= <- <-]; first [done | by left]).
  rewrite run_bind. unfold await at 1.
  destruct (listing page) as [steps|e]; [|intros [= <- <-]; by left].
  rewrite run_bind.
  destruct (processCards searchType steps v) as [[[]|e] v1] eqn:Hcards.
  2: { intros [= <- <-] HI. apply (processCards_post _ _ _ _ _ Hcards HI). }
  intros Hk HI.
  pose proof (processCards_post _ _ _ _ _ Hcards HI) as HI1. simpl in HI1.
  revert Hk. rewrite run_bind, inWorld_run.
  destruct (goToNextPage_returns (nextPage page) (outside v1))
    as (b & w2 & -> & Hfs).
  set (v2 := MkVars w2 (results v1) (existingNames v1) (totalSavedCount v1)).
  assert (HI2 : holdsIn I v2) by (unfold holdsIn; simpl; by rewrite Hfs).
  destruct b.
  - rewrite run_bind. unfold tryCatch.
    destruct (newPageContent page) as [[]|e]; simpl.
    + intros Hk. by eapply IH.
    + intros [= <- <-]. exact HI2.
  - intros Hk.
    pose proof (inWorld_frame _ _ _ _ Hk (consoleOnly_log _) HI2).
    destruct o; [|left]; done.
Qed.

Lemma crawl_post env searchType w o v' :
  (∀ names w1,
     getExistingNames (csvReadError env) w = (Returned names, w1) →
     I (fs w) [] names) →
  crawl env searchType (init w) = (o, v') → holdsAtEnd I X o v'.
Proof.
  intros Hseed. unfold crawl. rewrite run_bind, inWorld_run. simpl.
  destruct (getExistingNames (csvReadError env) w) as [[names|e] w1]
    eqn:Hnames.
  2: { destruct w as [[?|] ?]; simpl in Hnames; [|discriminate].
       unfold tryCatch in Hnames. by destruct (csvReadError env). }
  pose proof (consoleOnly_getExistingNames _ _ _ _ Hnames) as Hfs.
  specialize (Hseed _ _ eq_refl).
  rewrite run_bind. unfold setExistingNames, modify at 1. simpl.
  set (v1 := MkVars w1 [] names 0).
  assert (HI1 : holdsIn I v1) by (unfold holdsIn; simpl; by rewrite Hfs).
  destruct (findCards env cardSelectors) as [? [|n]].
  - intros Hk.
    pose proof (inWorld_frame _ _ _ _ Hk (consoleOnly_log _) HI1).
    destruct o; [|left]; done.
  - rewrite run_bind. unfold setTotalSavedCount, modify at 1. simpl.
    intros Hk. eapply crawlPages_post; [exact Hk|]. exact HI1.
Qed.

Lemma crawlSearchResults_invariant env searchType w rs w' :
  (∀ names w1,
     getExistingNames (csvReadError env) w = (Returned names, w1) →
     I (fs w) [] names) →
  crawlSearchResults env searchType w = (Returned rs, w') →
  ∃ names, I (fs w') rs names ∨ X (fs w') rs names.
Proof.
  intros Hseed. unfold crawlSearchResults, tryCatch.
  destruct (crawl env searchType (init w)) as [[[]|e] v1] eqn:Hcrawl.
  - intros [= <- <-]. exists (existingNames v1). left.
    apply (crawl_post _ _ _ _ _ Hseed Hcrawl).
  - pose proof (crawl_post _ _ _ _ _ Hseed Hcrawl) as Hpost.
    rewrite inWorld_run. simpl. intros [= <- <-].
    exists (existingNames v1). exact Hpost.
Qed.
End Invariant.
End CrawlerFacts.

(** ** The profile extractor *)

Module ProfileFacts.
Import Profile.

Lemma truthy_nonempty s : JS.truthy s = true → s ≠ "".
Proof. by destruct s. Qed.

Lemma uniq_fresh seen xs x : x ∈ JS.uniq seen xs → x ∉ seen.
Proof.
  revert seen. induction xs as [|y xs IH]; intros seen; simpl.
  - intros H. by apply elem_of_nil in H.
  - case_bool_decide as Hy; [apply IH|].
    intros [->|Hin]%elem_of_cons; [done|].
    apply IH in Hin. intros Hx. apply Hin. by apply list_elem_of_further.
Qed.

Lemma uniq_NoDup seen xs : NoDup (JS.uniq seen xs).
Proof.
  revert seen. induction xs as [|y xs IH]; intros seen; simpl.
  - constructor.
  - case_bool_decide; [apply IH|]. constructor; [|apply IH].
    intros Hin%uniq_fresh. apply Hin. by apply list_elem_of_here.
Qed.

(** *** The name *)

Lemma nameFromSelectors_nonempty env selectors nm :
  nameFromSelectors env selectors = Some nm → nm ≠ "".
Proof.
  induction selectors as [|selector rest IH]; simpl; [done|].
  destruct (cardQuery env selector) as [[nameElement|]|]; try done.
  destruct (textContent nameElement) as [[nameText|]|]; try done.
  destruct (JS.truthy nameText && JS.truthy (JS.trim nameText) &&
            negb (bool_decide (JS.trim nameText = ""))) eqn:Hc; [|done].
  intros [= <-]. apply andb_true_iff in Hc as [Hc _].
  apply andb_true_iff in Hc as [_ Hc]. by apply truthy_nonempty.
Qed.

Lemma nameFromText_nonempty env name v nm v' :
  name ≠ "" → nameFromText env name v = (Returned nm, v') → nm ≠ "".
Proof.
  intros Hname. unfold nameFromText, tryCatch. rewrite run_bind.
  unfold await at 1. destruct (cardText env) as [[elementText|]|e].
  - destruct (filter _ _) as [|line lines] eqn:Hlines.
    + intros [= <- _]. done.
    + intros [= <- _].
      assert (Hin : line ∈ line :: lines) by apply list_elem_of_here.
      rewrite <- Hlines in Hin. apply list_elem_of_filter in Hin as [Hin _].
      by apply truthy_nonempty.
  - intros [= <- _]. done.
  - intros [= <- _]. done.
Qed.

Lemma extractName_nonempty env v nm v' :
  extractName env v = (Returned nm, v') → nm ≠ "".
Proof.
  unfold extractName.
  assert (Hname : default NA (nameFromSelectors env nameSelectors) ≠ "").
  { destruct (nameFromSelectors env nameSelectors) as [nm0|] eqn:H; [|done].
    simpl. by eapply nameFromSelectors_nonempty. }
  destruct (_ || _).
  - by apply nameFromText_nonempty.
  - intros [= <- _]. done.
Qed.

(** *** What each block leaves alone *)

Lemma say_keeps {X} (part : Vars.t → X) n :
  (∀ v out, part (Vars.Make (Vars.emails v) (Vars.urls v) (Vars.phones v)
                    (Vars.skills v) out) = part v) →
  preserves part (say n).
Proof. intros H. apply preserves_modify. intros v. apply H. Qed.

Lemma say_keeps_emails n : preserves Vars.emails (say n).
Proof. by apply say_keeps. Qed.
Lemma say_keeps_skills n : preserves Vars.skills (say n).
Proof. by apply say_keeps. Qed.
Lemma say_safe n : safe (say n).
Proof. apply safe_modify. Qed.
Lemma pushEmail_safe e : safe (pushEmail e).
Proof. apply safe_modify. Qed.
Lemma pushUrl_safe e : safe (pushUrl e).
Proof. apply safe_modify. Qed.
Lemma pushPhone_safe e : safe (pushPhone e).
Proof. apply safe_modify. Qed.
Lemma pushSkill_safe e : safe (pushSkill e).
Proof. apply safe_modify. Qed.
Lemma pushSkill_keeps_emails k : preserves Vars.emails (pushSkill k).
Proof. by apply preserves_modify. Qed.
Lemma pushUrl_keeps_emails k : preserves Vars.emails (pushUrl k).
Proof. by apply preserves_modify. Qed.
Lemma pushPhone_keeps_emails k : preserves Vars.emails (pushPhone k).
Proof. by apply preserves_modify. Qed.
Lemma pushEmail_keeps_skills k : preserves Vars.skills (pushEmail k).
Proof. by apply preserves_modify. Qed.
Lemma pushUrl_keeps_skills k : preserves Vars.skills (pushUrl k).
Proof. by apply preserves_modify. Qed.
Lemma pushPhone_keeps_skills k : preserves Vars.skills (pushPhone k).
Proof. by apply preserves_modify. Qed.
Lemma removeDuplicates_keeps_skills : preserves Vars.skills removeDuplicates.
Proof. by apply preserves_modify. Qed.

#[export] Hint Resolve say_keeps_emails say_keeps_skills say_safe
  pushEmail_safe pushUrl_safe pushPhone_safe pushSkill_safe
  pushSkill_keeps_emails pushUrl_keeps_emails pushPhone_keeps_emails
  pushEmail_keeps_skills pushUrl_keeps_skills pushPhone_keeps_skills
  removeDuplicates_keeps_skills : frame.

Lemma extractName_keeps {X} (part : Vars.t → X) env :
  (∀ n, preserves part (say n)) → preserves part (extractName env).
Proof.
  intros Hsay. unfold extractName, nameFromText. frame; apply Hsay.
Qed.

Lemma findProfileLink_keeps {X} (part : Vars.t → X) env :
  (∀ n, preserves part (say n)) → preserves part (findProfileLink env).
Proof.
  intros Hsay. unfold findProfileLink, alternativeLink. frame; apply Hsay.
Qed.

Lemma careerSupportOf_keeps {X} (part : Vars.t → X) env name :
  (∀ n, preserves part (say n)) → preserves part (careerSupportOf env name).
Proof. intros Hsay. unfold careerSupportOf. frame; apply Hsay. Qed.

Lemma professionalContactOf_keeps {X} (part : Vars.t → X) env name :
  (∀ n, preserves part (say n)) →
  preserves part (professionalContactOf env name).
Proof. intros Hsay. unfold professionalContactOf. frame; apply Hsay. Qed.

Lemma skillFromPatterns_keeps_emails patterns pageText :
  preserves Vars.emails (skillFromPatterns patterns pageText).
Proof. induction patterns; simpl; frame. Qed.

Lemma extractSkills_keeps_emails env name :
  preserves Vars.emails (extractSkills env name).
Proof.
  unfold extractSkills, skillsBlock. frame.
  apply skillFromPatterns_keeps_emails.
Qed.

Lemma careerSupportOf_safe env name : safe (careerSupportOf env name).
Proof. unfold careerSupportOf. frame. Qed.
Lemma professionalContactOf_safe env name :
  safe (professionalContactOf env name).
Proof. unfold professionalContactOf. frame. Qed.
Lemma extractSkills_safe env name : safe (extractSkills env name).
Proof. unfold extractSkills. frame. Qed.
Lemma extractContacts_safe env name : safe (extractContacts env name).
Proof. unfold extractContacts. frame. Qed.

Lemma extractUrls_safe env : safe (extractUrls env).
Proof. unfold extractUrls. frame. Qed.
Lemma extractPhones_safe env : safe (extractPhones env).
Proof. unfold extractPhones. frame. Qed.
Lemma emailsFromSelector_safe env selector :
  safe (emailsFromSelector env selector).
Proof. unfold emailsFromSelector. frame. Qed.
Lemma extractName_safe env : safe (extractName env).
Proof. unfold extractName, nameFromText. frame. Qed.
Lemma findProfileLink_safe env : safe (findProfileLink env).
Proof. unfold findProfileLink, alternativeLink. frame. Qed.

Lemma emailsFromPage_thrown env v e v' :
  emailsFromPage env v = (Thrown e, v') → v' = v.
Proof.
  unfold emailsFromPage. rewrite run_bind. unfold await at 1.
  destruct (emailBodyText env) as [pageText|e0]; [|by intros [= _ <-]].
  intros H. exfalso. revert H. apply safe_not_thrown. frame.
Qed.

(** The block ends either normally, with the emails deduplicated, or by
    a throw, with no email collected. *)
Lemma contactsBlock_emails env v o v' :
  contactsBlock env v = (o, v') →
  match o with
  | Returned _ => NoDup (Vars.emails v')
  | Thrown _ => Vars.emails v' = []
  end.
Proof.
  unfold contactsBlock.
  rewrite run_bind. destruct (extractUrls_safe env v) as (? & v1 & ->).
  rewrite run_bind. destruct (extractPhones_safe env v1) as (? & v2 & ->).
  rewrite run_bind.
  destruct (safe_forOf emailSelectors (emailsFromSelector env)
              (emailsFromSelector_safe env) v2) as (? & v3 & ->).
  rewrite run_bind. unfold whenNoEmails at 1. rewrite run_bind.
  unfold gets at 1. case_bool_decide as Hnone.
  - destruct (emailsFromPage env v3) as [[[]|e] v4] eqn:Hpage.
    + rewrite run_bind.
      match goal with
      | |- context [whenNoEmails ?m v4] =>
          assert (Hs : safe (whenNoEmails m))
            by (unfold whenNoEmails; frame);
          destruct (Hs v4) as (? & v5 & ->)
      end.
      intros [= <- <-]. apply uniq_NoDup.
    + apply emailsFromPage_thrown in Hpage as ->. intros [= <- <-].
      by apply length_zero_iff_nil.
  - simpl. rewrite run_bind.
    match goal with
    | |- context [whenNoEmails ?m v3] =>
        assert (Hs : safe (whenNoEmails m))
          by (unfold whenNoEmails; frame);
        destruct (Hs v3) as (? & v5 & ->)
    end.
    intros [= <- <-]. apply uniq_NoDup.
Qed.

Lemma extractContacts_NoDup env name v o v' :
  extractContacts env name v = (o, v') → NoDup (Vars.emails v').
Proof.
  unfold extractContacts, tryCatch.
  destruct (contactsBlock env v) as [[[]|e] v1] eqn:Hblock.
  - intros [= <- <-]. apply (contactsBlock_emails _ _ _ _ Hblock).
  - intros [= <- <-]. simpl.
    rewrite (contactsBlock_emails _ _ _ _ Hblock). constructor.
Qed.

(** When the block throws, the handler logs the warning and the call
    goes on with no email. *)
Lemma extractContacts_failure env name v e v1 :
  contactsBlock env v = (Thrown e, v1) →
  extractContacts env name v =
    (Returned tt,
     Vars.Make [] (Vars.urls v1) (Vars.phones v1) (Vars.skills v1)
       (Vars.console v1 ++ [WarnContactExtractionFailed name e])).
Proof.
  intros Hblock. unfold extractContacts, tryCatch. rewrite Hblock.
  pose proof (contactsBlock_emails _ _ _ _ Hblock) as Hnone. simpl in Hnone.
  unfold say, modify. by rewrite Hnone.
Qed.

(** The skills block pushes a skill only as its last act. *)
Lemma skillFromPatterns_safe patterns pageText :
  safe (skillFromPatterns patterns pageText).
Proof. induction patterns; simpl; frame. Qed.

Lemma skillsBlock_thrown env v e v' :
  skillsBlock env v = (Thrown e, v') → Vars.skills v' = Vars.skills v.
Proof.
  unfold skillsBlock. rewrite run_bind. unfold await at 1.
  destruct (skillsSection env) as [section|e0]; [|by intros [= _ <-]].
  rewrite run_bind.
  destruct (JS.truthy section && JS.truthy (JS.trim section)).
  - unfold pushSkill, modify at 1. rewrite run_bind. unfold gets at 1.
    cbn [Vars.skills]. rewrite bool_decide_eq_false_2; [discriminate|].
    rewrite length_app. simpl. lia.
  - unfold ret at 1. rewrite run_bind. unfold gets at 1.
    case_bool_decide as Hlen; [|by intros [= _ <-]].
    rewrite run_bind. unfold await at 1.
    destruct (skillsBodyText env) as [pageText|e0]; [|by intros [= _ <-]].
    intros H. exfalso. revert H. apply safe_not_thrown.
    apply skillFromPatterns_safe.
Qed.

End ProfileFacts.

Module RecordFacts.
Import Profile ProfileFacts.

(** A profile visit that yields a record: the record is made of the
    name read from the card, the three evaluated fields, and the
    variables as they are at the end. *)
Lemma visitProfile_record env v r v' :
  visitProfile env v = (Returned (Some r), v') →
  ∃ nm cs pc,
    nm ≠ "" ∧
    r = makeRecord env nm (degreeOf env) (orNA (locationValue env))
          (orNA (companyValue env)) cs pc v' ∧
    NoDup (Vars.emails v').
Proof.
  unfold visitProfile. intros H.
  apply bind_returned_inv in H as (nm & v1 & Hname & H).
  apply bind_returned_inv in H as ([link|] & v2 & Hlink & H);
    [|discriminate].
  apply bind_returned_inv in H as ([] & v3 & Hclick & H).
  cbv zeta in H.
  apply bind_returned_inv in H as ([] & v4 & Hcontacts & H).
  apply bind_returned_inv in H as (cs & v5 & Hcs & H).
  apply bind_returned_inv in H as (pc & v6 & Hpc & H).
  apply bind_returned_inv in H as ([] & v7 & Hskills & H).
  apply bind_returned_inv in H as ([] & v8 & Hback & H).
  unfold await in Hback. injection Hback as _ <-.
  injection H as <- <-.
  exists nm, cs, pc. split; [by eapply extractName_nonempty|].
  split; [done|].
  rewrite (extractSkills_keeps_emails _ _ _ _ _ Hskills).
  rewrite (professionalContactOf_keeps Vars.emails _ _ say_keeps_emails
             _ _ _ Hpc).
  rewrite (careerSupportOf_keeps Vars.emails _ _ say_keeps_emails
             _ _ _ Hcs).
  by eapply extractContacts_NoDup.
Qed.

Lemma extractAlumniFromElementIn_record env v r v' :
  extractAlumniFromElementIn env v = (Returned (Some r), v') →
  visitProfile env v = (Returned (Some r), v').
Proof.
  unfold extractAlumniFromElementIn, tryCatch.
  destruct (visitProfile env v) as [[result|e] v1]; [done|discriminate].
Qed.

Lemma extracted_name_nonempty env w r w' :
  extractAlumniFromElement env w = (Returned (Some r), w') → name r ≠ "".
Proof.
  unfold extractAlumniFromElement.
  destruct (extractAlumniFromElementIn env _) as [result v] eqn:Hin.
  intros [= -> <-].
  apply extractAlumniFromElementIn_record, visitProfile_record in Hin
    as (nm & cs & pc & Hnm & -> & _). done.
Qed.

End RecordFacts.

(** ** The validity filter *)

Lemma startsWith_app_l s p q :
  JS.startsWith s (p +:+ q) = true → JS.startsWith s p = true.
Proof.
  revert s. induction p as [|a p IH]; intros s; [by destruct s|].
  destruct s as [|b s]; simpl; [done|].
  intros [-> H]%andb_true_iff. by rewrite (IH _ H).
Qed.

Lemma includes_app_l s p q :
  JS.includes s (p +:+ q) = true → JS.includes s p = true.
Proof.
  induction s as [|c s IH]; cbn [JS.includes].
  - rewrite !orb_false_r. apply startsWith_app_l.
  - intros [H|H]%orb_true_iff; apply orb_true_iff.
    + left. by apply (startsWith_app_l (String c s) p q).
    + right. by apply IH.
Qed.

Lemma isValidAlumni_iff nm :
  isValidAlumni nm = true ↔
  String.length nm < 200 ∧
  ∀ bad, bad ∈ Spec.denylist → JS.includes nm bad = false.
Proof.
  unfold isValidAlumni, Spec.denylist.
  rewrite !andb_true_iff, !negb_true_iff, Nat.ltb_lt. split.
  - intros ((((((H1 & H2) & H3) & H4) & Hlen) & H5) & H6). split; [done|].
    intros bad Hbad. repeat (apply elem_of_cons in Hbad as [->|Hbad]; [done|]).
    by apply elem_of_nil in Hbad.
  - intros [Hlen Hall].
    repeat split; try done; apply Hall; set_solver.
Qed.

Lemma isValidAlumni_rejects nm bad :
  bad ∈ Spec.denylist → JS.includes nm bad = true → isValidAlumni nm = false.
Proof.
  intros Hbad Hinc. destruct (isValidAlumni nm) eqn:Hvalid; [|done].
  apply isValidAlumni_iff in Hvalid as [_ Hall]. rewrite (Hall _ Hbad) in Hinc.
  discriminate.
Qed.

(** Claim C6.  Every record that [crawlSearchResults] accepts has a name
    that is not empty, is shorter than 200 characters and contains none of
    the denylisted strings; and the filter rejects every name that contains
    a denylisted string, in particular every name that contains "Stanford
    Alumni Directory". *)
Theorem accepted_names_pass_the_filter env searchType w rs w' :
  Crawler.crawlSearchResults env searchType w = (Returned rs, w') →
  (∀ r, r ∈ rs →
     name r ≠ "" ∧ String.length (name r) < 200 ∧
     ∀ bad, bad ∈ Spec.denylist → JS.includes (name r) bad = false) ∧
  (∀ nm bad, bad ∈ Spec.denylist → JS.includes nm bad = true →
     isValidAlumni nm = false) ∧
  (∀ nm, JS.includes nm "Stanford Alumni Directory" = true →
     isValidAlumni nm = false).
Proof.
  intros Hrun. split; [|split].
  - set (good := λ r : AlumniRecord,
           name r ≠ "" ∧ String.length (name r) < 200 ∧
           ∀ bad, bad ∈ Spec.denylist → JS.includes (name r) bad = false).
    set (I := λ (_ : option string) (rs : list AlumniRecord) (_ : gset string),
           Forall good rs).
    destruct (CrawlerFacts.crawlSearchResults_invariant I I) with
      (env := env) (searchType := searchType) (w := w) (rs := rs) (w' := w')
      as (names & H); try done.
    + intros sink rs0 names r HI _ (cenv & cw & cw' & Hex) Hvalid _.
      assert (Hgood : good r).
      { split; [by eapply RecordFacts.extracted_name_nonempty|].
        by apply isValidAlumni_iff. }
      split; apply Forall_app; split; try done; by constructor.
    + intros. constructor.
    + intros r Hr. assert (HF : Forall good rs) by (by destruct H).
      by apply (proj1 (Forall_forall _ _) HF).
  - apply isValidAlumni_rejects.
  - intros nm H. apply (isValidAlumni_rejects nm "Stanford"); [set_solver|].
    by apply (includes_app_l nm "Stanford" " Alumni Directory").
Qed.

Lemma appendRows_snoc sink rs r :
  Spec.appendRows sink (rs ++ [r]) = Spec.appendRow (Spec.appendRows sink rs) r.
Proof. unfold Spec.appendRows. by rewrite foldl_app. Qed.

Module WriteFacts.
Import Crawler CrawlerFacts.

Local Arguments findCards : simpl never.

Section Writes.
Variable sink : option string.
Variable failed : CardEnv → string → Prop.

Lemma inWorld_written {A} (m : M world A) v o v' :
  inWorld m v = (o, v') → consoleOnly m → written sink v → written sink v'.
Proof.
  rewrite inWorld_run.
  destruct (m (outside v)) as [o1 w'] eqn:Hrun. intros [= <- <-] Hq.
  unfold written. simpl. by rewrite (Hq _ _ _ Hrun).
Qed.

(** What [consider] does with a record that passes the filter and is not
    known: the record is accepted, and its row is written at once. *)
Lemma consider_accepts searchType r v :
  isValidAlumni (name r) = true → name r ∉ existingNames v →
  consider searchType r None v =
    (Returned tt,
     MkVars
       (World (Spec.appendRow (fs (outside v)) r)
          ((console (outside v) ++ [SavedToCSV (name r)]) ++
           [Extracted (name r) searchType]))
       (results v ++ [r]) (existingNames v ∪ {[name r]})
       (S (totalSavedCount v))).
Proof.
  intros Hvalid Hfresh. unfold consider. rewrite Hvalid, run_bind.
  unfold gets at 1. rewrite bool_decide_eq_false_2 by done.
  by destruct v as [[[stored|] out] rs names total].
Qed.

(** When the write fails the record has been accepted, the file is as it
    was, and the error of the write leaves [consider]. *)
Lemma consider_failed_write searchType r e v :
  isValidAlumni (name r) = true → name r ∉ existingNames v →
  consider searchType r (Some e) v =
    (Thrown e,
     MkVars (outside v) (results v ++ [r]) (existingNames v ∪ {[name r]})
       (S (totalSavedCount v))).
Proof.
  intros Hvalid Hfresh. unfold consider. rewrite Hvalid, run_bind.
  unfold gets at 1. rewrite bool_decide_eq_false_2 by done.
  by destruct v as [[[stored|] out] rs names total].
Qed.

(** A record that is filtered out or known changes neither the file nor
    the accepted records. *)
Lemma consider_skips searchType r writeError v :
  isValidAlumni (name r) = false ∨ name r ∈ existingNames v →
  ∃ out,
    consider searchType r writeError v =
      (Returned tt,
       MkVars (World (fs (outside v)) out) (results v) (existingNames v)
         (totalSavedCount v)).
Proof.
  intros Hskip. unfold consider.
  destruct (isValidAlumni (name r)) eqn:Hvalid.
  - destruct Hskip as [|Hknown]; [done|]. rewrite run_bind.
    unfold gets at 1. rewrite bool_decide_eq_true_2 by done. by eexists.
  - by eexists.
Qed.

Lemma consider_written searchType card r writeError v o v' :
  recordOf card r → (∀ e, writeError = Some e → failed card e) →
  consider searchType r writeError v = (o, v') →
  written sink v → writtenAtEnd sink failed o v'.
Proof.
  intros Hrecord Hfailed Hrun Hv.
  destruct (isValidAlumni (name r)) eqn:Hvalid.
  2: { destruct (consider_skips searchType r writeError v (or_introl Hvalid))
         as [out Hskip]. rewrite Hskip in Hrun. by injection Hrun as <- <-. }
  destruct (decide (name r ∈ existingNames v)) as [Hknown|Hfresh].
  { destruct (consider_skips searchType r writeError v (or_intror Hknown))
      as [out Hskip]. rewrite Hskip in Hrun. by injection Hrun as <- <-. }
  destruct writeError as [e|].
  - rewrite (consider_failed_write _ _ _ _ Hvalid Hfresh) in Hrun.
    injection Hrun as <- <-. right. exists (results v), r, card.
    split; [done|]. split; [exact Hv|]. split; [by apply Hfailed | done].
  - rewrite (consider_accepts _ _ _ Hvalid Hfresh) in Hrun.
    injection Hrun as <- <-. unfold writtenAtEnd, written in *.
    cbn [outside results fs].
    by rewrite appendRows_snoc, Hv.
Qed.

Lemma processCards_written searchType steps v o v' :
  (∀ card e, Card card (Some e) ∈ steps → failed card e) →
  processCards searchType steps v = (o, v') →
  written sink v → writtenAtEnd sink failed o v'.
Proof.
  revert v. induction steps as [|step rest IH]; intros v Hsteps; simpl.
  { intros [= <- <-]. done. }
  rewrite run_bind. unfold gets at 1.
  destruct (length (results v) <? 1000) eqn:Hlen.
  2: { intros [= <- <-]. done. }
  assert (∀ card e, Card card (Some e) ∈ rest → failed card e) as Hrest.
  { intros card e Hin. by apply Hsteps, list_elem_of_further. }
  destruct step as [|message|card writeError].
  - intros [= <- <-]. done.
  - intros [= <- <-]. by left.
  - rewrite run_bind, inWorld_run.
    destruct (extractAlumniFromElement_returns card (outside v))
      as (r & w' & Hrun & Hfs).
    rewrite Hrun. intros Hk Hv.
    set (v1 := MkVars w' (results v) (existingNames v) (totalSavedCount v))
      in *.
    assert (Hv1 : written sink v1) by (unfold written; simpl; by rewrite Hfs).
    destruct r as [r|].
    + assert (Hrecord : recordOf card r) by (by eexists _, _).
      assert (∀ e, writeError = Some e → failed card e) as Hfailed.
      { intros e ->. apply Hsteps, list_elem_of_here. }
      rewrite run_bind in Hk.
      destruct (consider searchType r writeError v1) as [[[]|e] v2] eqn:Hc.
      * eapply IH; [exact Hrest | exact Hk |].
        apply (consider_written _ _ _ _ v1 _ _ Hrecord Hfailed Hc Hv1).
      * injection Hk as <- <-.
        apply (consider_written _ _ _ _ v1 _ _ Hrecord Hfailed Hc Hv1).
    + eapply IH; [exact Hrest | exact Hk | exact Hv1].
Qed.

Lemma crawlPages_written searchType pages v o v' :
  (∀ page steps card e,
     page ∈ pages → listing page = Returned steps →
     Card card (Some e) ∈ steps → failed card e) →
  crawlPages searchType pages v = (o, v') →
  written sink v → writtenAtEnd sink failed o v'.
Proof.
  revert v. induction pages as [|page rest IH]; intros v Hpages; simpl;
    rewrite run_bind; unfold gets at 1;
    destruct (length (results v) <? 1000) eqn:Hlen;
    try (intros [= <- <-]; first [done | by left]).
  rewrite run_bind. unfold await at 1.
  destruct (listing page) as [steps|e] eqn:Hlisting;
    [|intros [= <- <-]; by left].
  assert (∀ card e, Card card (Some e) ∈ steps → failed card e) as Hsteps.
  { intros card e. by apply (Hpages page), Hlisting; apply list_elem_of_here. }
  assert (∀ page0 steps0 card e,
            page0 ∈ rest → listing page0 = Returned steps0 →
            Card card (Some e) ∈ steps0 → failed card e) as Hrest.
  { intros page0 steps0 card e Hin. by apply Hpages, list_elem_of_further. }
  rewrite run_bind.
  destruct (processCards searchType steps v) as [[[]|e] v1] eqn:Hcards.
  2: { intros [= <- <-] Hv.
       apply (processCards_written _ _ _ _ _ Hsteps Hcards Hv). }
  intros Hk Hv.
  pose proof (processCards_written _ _ _ _ _ Hsteps Hcards Hv) as Hv1.
  simpl in Hv1.
  revert Hk. rewrite run_bind, inWorld_run.
  destruct (goToNextPage_returns (nextPage page) (outside v1))
    as (b & w2 & -> & Hfs).
  set (v2 := MkVars w2 (results v1) (existingNames v1) (totalSavedCount v1)).
  assert (Hv2 : written sink v2) by (unfold written; simpl; by rewrite Hfs).
  destruct b.
  - rewrite run_bind. unfold tryCatch.
    destruct (newPageContent page) as [[]|e]; simpl.
    + intros Hk. by eapply IH.
    + intros [= <- <-]. exact Hv2.
  - intros Hk.
    pose proof (inWorld_written _ _ _ _ Hk (consoleOnly_log _) Hv2).
    destruct o; [|left]; done.
Qed.
End Writes.

Lemma crawl_written env searchType w o v' :
  crawl env searchType (init w) = (o, v') →
  writtenAtEnd (fs w) (failedWrite env) o v'.
Proof.
  unfold crawl. rewrite run_bind, inWorld_run. simpl.
  destruct (getExistingNames (csvReadError env) w) as [[names|e] w1]
    eqn:Hnames.
  2: { destruct w as [[?|] ?]; simpl in Hnames; [|discriminate].
       unfold tryCatch in Hnames. by destruct (csvReadError env). }
  pose proof (consoleOnly_getExistingNames _ _ _ _ Hnames) as Hfs.
  rewrite run_bind. unfold setExistingNames, modify at 1. simpl.
  set (v1 := MkVars w1 [] names 0).
  assert (Hv1 : written (fs w) v1) by (unfold written; simpl; by rewrite Hfs).
  destruct (findCards env cardSelectors) as [? [|n]].
  - intros Hk.
    pose proof (inWorld_written _ _ _ _ _ Hk (consoleOnly_log _) Hv1).
    destruct o; [|left]; done.
  - rewrite run_bind. unfold setTotalSavedCount, modify at 1. simpl.
    intros Hk. eapply crawlPages_written; [|exact Hk|exact Hv1].
    intros page steps card e Hpage Hlisting Hin. by exists page, steps.
Qed.

(** After a call the file holds the rows of all accepted records, unless
    the call was ended by a failed write: then the last accepted record
    has no row, and the warning carries the error of the write. *)
Lemma crawlSearchResults_written env searchType w rs w' :
  crawlSearchResults env searchType w = (Returned rs, w') →
  fs w' = Spec.appendRows (fs w) rs ∨
  ∃ rs0 r card e,
    rs = rs0 ++ [r] ∧ fs w' = Spec.appendRows (fs w) rs0 ∧
    failedWrite env card e ∧ recordOf card r ∧
    last (console w') = Some (WarnErrorCrawling searchType e).
Proof.
  unfold crawlSearchResults, tryCatch.
  destruct (crawl env searchType (init w)) as [[[]|e] v1] eqn:Hcrawl.
  - intros [= <- <-]. left. apply (crawl_written _ _ _ _ _ Hcrawl).
  - pose proof (crawl_written _ _ _ _ _ Hcrawl) as Hpost.
    rewrite inWorld_run. simpl. intros [= <- <-]. cbn [fs console].
    destruct Hpost as [Hv|(rs0 & r & card & Hrs & Hfs & Hfailed & Hrecord)].
    + by left.
    + right. exists rs0, r, card, e. by rewrite last_snoc.
Qed.

Lemma writesSucceed_no_failure env card e :
  writesSucceed env = true → ¬ failedWrite env card e.
Proof.
  unfold writesSucceed. rewrite forallb_forall.
  intros Hall (page & steps & Hpage & Hlisting & Hin).
  apply list_elem_of_In, Hall in Hpage. rewrite Hlisting in Hpage.
  rewrite forallb_forall in Hpage. by apply list_elem_of_In, Hpage in Hin.
Qed.

End WriteFacts.

(** Claim C2.  The header is the fixed list of columns.  A write of one
    record to a missing file creates it with the header followed by the
    record's row; a write to an existing file adds the row and nothing
    else.  A record that passes the filter and is not known is accepted
    and its row, and no other, is written at once; when that write fails
    the record stays accepted, the file is as it was and the error leaves
    the loop.  So after any call of [crawlSearchResults] in which no
    write fails the file holds what it held before followed by the rows
    of the accepted records, one row per record in the order of
    acceptance; and after a call in which a write fails it holds either
    that or the rows of all accepted records but the last, which is then
    the record of a card whose write failed, with the warning for that
    error as the last line of the console. *)
Theorem rows_are_appended_one_at_a_time :
  CsvWriter.headerString =
    "Name,Class Year,Degree,Location,Company,Stanford Email,Personal Email,URLs,Phone,Skills,Career Support,Professional Contact,Extracted At"
    +:+ String JS.LF "" ∧
  (∀ r, CsvWriter.stringifyRecords [r] =
          CsvWriter.recordLine r +:+ String JS.LF "") ∧
  (∀ r out,
     saveIncrementalCSV (Some r) None (World None out) =
       (Returned tt,
        World (Some (CsvWriter.headerString +:+ CsvWriter.stringifyRecords [r]))
          (out ++ [SavedToCSV (name r)]))) ∧
  (∀ r stored out,
     saveIncrementalCSV (Some r) None (World (Some stored) out) =
       (Returned tt,
        World (Some (stored +:+ CsvWriter.stringifyRecords [r]))
          (out ++ [SavedToCSV (name r)]))) ∧
  (∀ searchType r v,
     isValidAlumni (name r) = true → name r ∉ Crawler.existingNames v →
     Crawler.consider searchType r None v =
       (Returned tt,
        Crawler.MkVars
          (World (Spec.appendRow (fs (Crawler.outside v)) r)
             ((console (Crawler.outside v) ++ [SavedToCSV (name r)]) ++
              [Extracted (name r) searchType]))
          (Crawler.results v ++ [r])
          (Crawler.existingNames v ∪ {[name r]})
          (S (Crawler.totalSavedCount v)))) ∧
  (∀ searchType r e v,
     isValidAlumni (name r) = true → name r ∉ Crawler.existingNames v →
     Crawler.consider searchType r (Some e) v =
       (Thrown e,
        Crawler.MkVars (Crawler.outside v) (Crawler.results v ++ [r])
          (Crawler.existingNames v ∪ {[name r]})
          (S (Crawler.totalSavedCount v)))) ∧
  (∀ env searchType w rs w',
     Crawler.crawlSearchResults env searchType w = (Returned rs, w') →
     (writesSucceed env = true → fs w' = Spec.appendRows (fs w) rs) ∧
     (fs w' = Spec.appendRows (fs w) rs ∨
      ∃ rs0 r card e,
        rs = rs0 ++ [r] ∧ fs w' = Spec.appendRows (fs w) rs0 ∧
        failedWrite env card e ∧ recordOf card r ∧
        last (console w') = Some (WarnErrorCrawling searchType e))).
Proof.
  split; [reflexivity|]. split; [reflexivity|]. split; [reflexivity|].
  split; [reflexivity|].
  split; [exact (WriteFacts.consider_accepts)|].
  split; [exact (WriteFacts.consider_failed_write)|].
  intros env searchType w rs w' Hrun.
  pose proof (WriteFacts.crawlSearchResults_written _ _ _ _ _ Hrun) as Hend.
  split; [|exact Hend].
  intros Hwrites.
  destruct Hend as [Hall|(rs0 & r & card & e & _ & _ & Hfailed & _)];
    [exact Hall|].
  by apply WriteFacts.writesSucceed_no_failure in Hfailed.
Qed.

(** The cap of the base class. *)
Lemma base_cap env searchType w rs w' :
  Crawler.crawlSearchResults env searchType w = (Returned rs, w') →
  length rs ≤ 1000.
Proof.
  intros Hrun.
  set (I := λ (_ : option string) (rs : list AlumniRecord) (_ : gset string),
         length rs ≤ 1000).
  destruct (CrawlerFacts.crawlSearchResults_invariant I I) with
    (env := env) (searchType := searchType) (w := w) (rs := rs) (w' := w')
    as (names & [H|H]); try done.
  - intros sink rs0 names r HI Hlen _ _ _. unfold I.
    rewrite length_app. simpl. lia.
  - intros. unfold I. simpl. lia.
Qed.

(** The check against the names seen: within one call no name is accepted
    twice, and no name that the file was read to contain is accepted. *)
Lemma no_duplicate_within_a_call env searchType w rs w' seed w1 :
  getExistingNames (csvReadError env) w = (Returned seed, w1) →
  Crawler.crawlSearchResults env searchType w = (Returned rs, w') →
  NoDup (name <$> rs) ∧ ∀ r, r ∈ rs → name r ∉ seed.
Proof.
  intros Hseed Hrun.
  set (I := λ (_ : option string) (rs : list AlumniRecord)
              (names : gset string),
         NoDup (name <$> rs) ∧ (∀ r, r ∈ rs → name r ∉ seed) ∧
         ∀ n, n ∈ names ↔ n ∈ seed ∨ n ∈ name <$> rs).
  destruct (CrawlerFacts.crawlSearchResults_invariant I I) with
    (env := env) (searchType := searchType) (w := w) (rs := rs) (w' := w')
    as (names & H); try done.
  - intros sink rs0 names r (Hnd & Hseed' & Hnames) _ _ _ Hfresh.
    assert (I (Spec.appendRow sink r) (rs0 ++ [r]) (names ∪ {[name r]}));
      [|done].
    split; [|split].
    + rewrite fmap_app. apply NoDup_app. split; [done|]. split.
      * intros n Hn ->%list_elem_of_singleton. apply Hfresh, Hnames. by right.
      * apply NoDup_singleton.
    + intros r' [Hr'| ->%list_elem_of_singleton]%elem_of_app; [by apply Hseed'|].
      intros Hin. apply Hfresh, Hnames. by left.
    + intros n. rewrite elem_of_union, elem_of_singleton, Hnames, fmap_app,
        elem_of_app. simpl. rewrite list_elem_of_singleton. tauto.
  - intros names w2 Hseed2. rewrite Hseed in Hseed2. injection Hseed2 as <- <-.
    split; [constructor|]. split.
    + intros r Hr. by apply elem_of_nil in Hr.
    + intros n. simpl. rewrite elem_of_nil. tauto.
  - assert (HI : I (fs w') rs names) by (by destruct H).
    destruct HI as (Hnd & Hs & _). done.
Qed.

(** ** The stealth loop *)

Module StealthFacts.
Import Stealth.

Local Arguments findCards : simpl never.
Local Arguments Nat.leb : simpl never.
Local Arguments Nat.ltb : simpl never.

Lemma stealth_inWorld_run {A} (m : M world A) v :
  inWorld m v =
  let '(o, w') := m (outside v) in
  (o, MkVars w' (results v) (existingNames v) (totalSavedCount v)
        (profilesThisSession v)).
Proof. reflexivity. Qed.

Lemma inWorld_counted {A} (m : M world A) v o v' :
  inWorld m v = (o, v') → counted v → counted v'.
Proof.
  rewrite stealth_inWorld_run. destruct (m (outside v)) as [o1 w'].
  by intros [= <- <-].
Qed.

Lemma consider_counted searchType r writeError v o v' :
  mayContinue v = true →
  consider searchType r writeError v = (o, v') → counted v → counted v'.
Proof.
  intros Hgo. unfold consider. destruct (isValidAlumni (name r)).
  2: apply inWorld_counted.
  rewrite run_bind. unfold gets at 1. case_bool_decide.
  1: apply inWorld_counted.
  rewrite run_bind. unfold accept, modify at 1.
  intros Hrun [Hsession Hlen].
  assert (counted
            (MkVars (outside v) (results v ++ [r])
               (existingNames v ∪ {[name r]}) (S (totalSavedCount v))
               (S (profilesThisSession v)))) as Hnext.
  { unfold mayContinue in Hgo. apply andb_true_iff in Hgo as [_ Hgo].
    apply Nat.ltb_lt in Hgo. unfold counted. simpl.
    rewrite length_app. simpl. lia. }
  revert Hrun. rewrite run_bind.
  destruct (inWorld (saveIncrementalCSV (Some r) writeError) _)
    as [[[]|e] v1] eqn:Hsave.
  - intros Hlog. eapply inWorld_counted; [exact Hlog|].
    eapply inWorld_counted; [exact Hsave | exact Hnext].
  - intros [= <- <-]. eapply inWorld_counted; [exact Hsave | exact Hnext].
Qed.

Lemma processCards_counted searchType steps v o v' :
  processCards searchType steps v = (o, v') → counted v → counted v'.
Proof.
  revert v. induction steps as [|step rest IH]; intros v; simpl.
  { by intros [= <- <-]. }
  rewrite run_bind. unfold gets at 1.
  destruct (mayContinue v) eqn:Hgo; [|by intros [= <- <-]].
  destruct step as [|message|env writeError]; try by intros [= <- <-].
  rewrite run_bind.
  destruct (inWorld (extractAlumniFromElement env) v) as [[r|e] v1] eqn:Hex.
  2: { intros [= <- <-] Hc. eapply inWorld_counted; [exact Hex | exact Hc]. }
  intros Hk Hc.
  assert (Hc1 : counted v1)
    by (eapply inWorld_counted; [exact Hex | exact Hc]).
  assert (Hgo1 : mayContinue v1 = true).
  { revert Hex. rewrite stealth_inWorld_run.
    destruct (extractAlumniFromElement env (outside v)).
    by intros [= _ <-]. }
  revert Hk. rewrite run_bind. destruct r as [r|].
  - destruct (consider searchType r writeError v1) as [[[]|e] v2] eqn:Hcons.
    + intros Hk. eapply IH; [exact Hk|].
      eapply consider_counted; [exact Hgo1 | exact Hcons | exact Hc1].
    + intros [= <- <-].
      eapply consider_counted; [exact Hgo1 | exact Hcons | exact Hc1].
  - intros Hk. eapply IH; [exact Hk | exact Hc1].
Qed.

Lemma crawlPages_counted searchType pages v o v' :
  crawlPages searchType pages v = (o, v') → counted v → counted v'.
Proof.
  revert v. induction pages as [|page rest IH]; intros v; simpl;
    rewrite run_bind; unfold gets at 1;
    (destruct (mayContinue v); [|by intros [= <- <-]]);
    [by intros [= <- <-]|].
  rewrite run_bind. unfold await at 1.
  destruct (listing page) as [steps|e]; [|by intros [= <- <-]].
  rewrite run_bind.
  destruct (processCards searchType steps v) as [[[]|e] v1] eqn:Hcards.
  2: { intros [= <- <-] Hc.
       eapply processCards_counted; [exact Hcards | exact Hc]. }
  intros Hk Hc.
  assert (Hc1 : counted v1)
    by (eapply processCards_counted; [exact Hcards | exact Hc]).
  revert Hk. rewrite run_bind. unfold gets at 1.
  destruct (maxProfilesPerSession <=? profilesThisSession v1).
  { intros Hk. eapply inWorld_counted; [exact Hk | exact Hc1]. }
  rewrite run_bind.
  destruct (inWorld (goToNextPage (nextPage page)) v1) as [[b|e] v2] eqn:Hn.
  2: { intros [= <- <-]. eapply inWorld_counted; [exact Hn | exact Hc1]. }
  assert (Hc2 : counted v2)
    by (eapply inWorld_counted; [exact Hn | exact Hc1]).
  destruct b;
    [|intros Hk; eapply inWorld_counted; [exact Hk | exact Hc2]].
  rewrite run_bind. unfold tryCatch.
  destruct (newPageContent page) as [[]|e]; simpl.
  - intros Hk. eapply IH; [exact Hk | exact Hc2].
  - intros [= <- <-]. exact Hc2.
Qed.

Lemma crawl_counted env searchType w o v' :
  crawl env searchType (init w) = (o, v') → counted v'.
Proof.
  unfold crawl. rewrite run_bind.
  assert (Hc0 : counted (init w)) by (unfold counted; simpl; lia).
  destruct (inWorld (getExistingNames (csvReadError env)) (init w))
    as [[names|e] v1] eqn:Hnames.
  2: { intros [= <- <-]. eapply inWorld_counted; [exact Hnames | exact Hc0]. }
  assert (Hc1 : counted v1)
    by (eapply inWorld_counted; [exact Hnames | exact Hc0]).
  rewrite run_bind. unfold setExistingNames, modify at 1.
  destruct (findCards env cardSelectors) as [? [|n]].
  - intros Hk. eapply inWorld_counted; [exact Hk | exact Hc1].
  - rewrite run_bind. unfold setTotalSavedCount, modify at 1.
    intros Hk. eapply crawlPages_counted; [exact Hk|]. exact Hc1.
Qed.

Lemma session_cap env searchType w :
  ∃ rs w', crawlSearchResults env searchType w = (Returned rs, w') ∧
           length rs ≤ maxProfilesPerSession.
Proof.
  unfold crawlSearchResults, tryCatch.
  destruct (crawl env searchType (init w)) as [[[]|e] v1] eqn:Hcrawl.
  - eexists _, _. split; [done|]. by apply crawl_counted in Hcrawl as [_ ?].
  - rewrite stealth_inWorld_run. simpl. eexists _, _. split; [done|].
    by apply crawl_counted in Hcrawl as [_ ?].
Qed.
End StealthFacts.

(** Claim C9.  Every call of [crawlSearchResults] returns, with at most
    1000 records; the override of the stealth subclass returns at most
    [maxProfilesPerSession] = 50 records. *)
Theorem hard_profile_cap env searchType w :
  (∃ rs w', Crawler.crawlSearchResults env searchType w = (Returned rs, w') ∧
            length rs ≤ 1000) ∧
  (∃ rs w', Stealth.crawlSearchResults env searchType w = (Returned rs, w') ∧
            length rs ≤ Stealth.maxProfilesPerSession ∧ length rs ≤ 1000) ∧
  Stealth.maxProfilesPerSession = 50.
Proof.
  split; [|split; [|done]].
  - destruct (Crawler.crawlSearchResults env searchType w) as [o w'] eqn:Hrun.
    assert (∃ rs, o = Returned rs) as [rs ->].
    { revert Hrun. unfold Crawler.crawlSearchResults.
      destruct (tryCatch _ _ _). intros [= <- _]. eauto. }
    exists rs, w'. split; [done|]. by eapply base_cap.
  - destruct (StealthFacts.session_cap env searchType w) as (rs & w' & H & Hlen).
    exists rs, w'. split; [done|]. split; [done|].
    unfold Stealth.maxProfilesPerSession in Hlen. lia.
Qed.

(** ** Search strategies *)

Module StrategyFacts.

Local Arguments Nat.leb : simpl never.
Local Opaque targetProfiles.

Lemma bind_ext {S A B} (m m' : M S A) (f f' : A → M S B) s :
  (∀ s, m s = m' s) → (∀ a s, f a s = f' a s) →
  (m ≫= f) s = (m' ≫= f') s.
Proof.
  intros Hm Hf. rewrite !run_bind, Hm.
  destruct (m' s) as [[a|e] s1]; [apply Hf | done].
Qed.

Lemma runBuckets_done env plan all w :
  targetProfiles ≤ length all →
  Spec.runBuckets env plan all w = (Returned all, w).
Proof.
  intros Hdone. destruct plan as [|[term label] rest]; simpl; [done|].
  by apply Nat.leb_le in Hdone as ->.
Qed.

Lemma searchBuckets_runBuckets env label terms all w :
  searchBuckets env label terms all w =
  Spec.runBuckets env ((λ term, (term, label term)) <$> terms) all w.
Proof.
  revert all w. induction terms as [|term rest IH]; intros all w; simpl;
    [done|].
  destruct (targetProfiles <=? length all); [done|].
  apply bind_ext; [done|]. intros _ w1.
  apply bind_ext; [done|]. intros found w2.
  apply bind_ext; [done|]. intros _ w3. apply IH.
Qed.

Lemma runBuckets_app env plan1 plan2 all w :
  Spec.runBuckets env (plan1 ++ plan2) all w =
  (Spec.runBuckets env plan1 all ≫= Spec.runBuckets env plan2) w.
Proof.
  revert all w.
  induction plan1 as [|[term label] rest IH]; intros all w; simpl; [done|].
  destruct (targetProfiles <=? length all) eqn:Hdone.
  - apply Nat.leb_le in Hdone. symmetry. by apply runBuckets_done.
  - rewrite !run_bind.
    destruct (performSearch (searchFor env term) term w) as [[[]|e] w1];
      [|done].
    rewrite !run_bind.
    destruct (Crawler.crawlSearchResults (resultsFor env label) label w1)
      as [[found|e] w2]; [|done].
    rewrite !run_bind.
    destruct (log (StrategyCompleted label (length found)) w2)
      as [[[]|e] w3]; [|done].
    apply IH.
Qed.

Lemma runStrategies_in_order env w :
  runStrategies env w = Spec.runInOrder env w.
Proof.
  unfold runStrategies, Spec.runInOrder.
  apply bind_ext; [done|]. intros defaultResults w1.
  apply bind_ext; [done|]. intros _ w2.
  change ([] ++ defaultResults) with defaultResults.
  destruct (targetProfiles <=? length defaultResults) eqn:Hdone.
  - apply Nat.leb_le in Hdone. symmetry. by apply runBuckets_done.
  - unfold Spec.bucketOrder. rewrite runBuckets_app.
    apply bind_ext; [apply searchBuckets_runBuckets|]. intros all1 w3.
    rewrite runBuckets_app.
    apply bind_ext; [apply searchBuckets_runBuckets|]. intros all2 w4.
    apply searchBuckets_runBuckets.
Qed.

Lemma findSearchBox_none env selectors :
  (∀ selector box, selector ∈ selectors →
     searchBoxQuery env selector ≠ Returned (Some box)) →
  findSearchBox env selectors = None.
Proof.
  induction selectors as [|selector rest IH]; intros Hnone; simpl; [done|].
  destruct (searchBoxQuery env selector) as [[box|]|e] eqn:Hq.
  - exfalso. apply (Hnone selector box); [apply list_elem_of_here | done].
  - apply IH. intros s b Hs. apply Hnone. by apply list_elem_of_further.
  - apply IH. intros s b Hs. apply Hnone. by apply list_elem_of_further.
Qed.

Lemma log_safe n : safe (log n).
Proof. apply safe_modify. Qed.

Lemma performSearch_safe env term : safe (performSearch env term).
Proof. unfold performSearch. frame. apply log_safe. Qed.

Lemma consoleOnly_performSearch env term :
  consoleOnly (performSearch env term).
Proof. unfold performSearch. frame. Qed.

Lemma performSearch_returns env term w :
  ∃ w', performSearch env term w = (Returned tt, w') ∧ fs w' = fs w.
Proof.
  destruct (performSearch_safe env term w) as ([] & w' & Hrun).
  exists w'. split; [done|].
  by apply (consoleOnly_performSearch _ _ _ _ _ Hrun).
Qed.

Lemma crawlSearchResults_safe env searchType :
  safe (Crawler.crawlSearchResults env searchType).
Proof.
  intros w. unfold Crawler.crawlSearchResults.
  destruct (tryCatch _ _ _) as [o v]. by eexists _, _.
Qed.

Lemma searchBuckets_safe env label terms all :
  safe (searchBuckets env label terms all).
Proof.
  revert all. induction terms as [|term rest IH]; intros all; simpl;
    [apply safe_ret|].
  destruct (targetProfiles <=? length all); [apply safe_ret|].
  apply safe_bind; [apply performSearch_safe|]. intros _.
  apply safe_bind; [apply crawlSearchResults_safe|]. intros found.
  apply safe_bind; [apply log_safe|]. intros _. apply IH.
Qed.

Lemma runStrategies_safe env : safe (runStrategies env).
Proof.
  unfold runStrategies.
  apply safe_bind; [apply crawlSearchResults_safe|]. intros found.
  apply safe_bind; [apply log_safe|]. intros _.
  destruct (targetProfiles <=? _); [apply safe_ret|].
  apply safe_bind; [apply searchBuckets_safe|]. intros all1.
  apply safe_bind; [apply searchBuckets_safe|]. intros all2.
  apply searchBuckets_safe.
Qed.

Lemma crawlAlumni_runs_strategies env w currentUrl :
  landing env = Returned currentUrl →
  redirectedToLogin currentUrl = false →
  ∃ all w', runStrategies env w = (Returned all, w') ∧
            crawlAlumni env w = (Returned tt, w').
Proof.
  intros Hland Hok. destruct (runStrategies_safe env w) as (all & w' & Hrun).
  exists all, w'. split; [done|].
  unfold crawlAlumni, tryCatch. rewrite run_bind. unfold await at 1.
  rewrite Hland, Hok, run_bind, Hrun. reflexivity.
Qed.

Lemma performSearch_without_box env term w :
  gotoDirectory env = Returned tt →
  findSearchBox env searchSelectors = None →
  performSearch env term w =
    (Returned tt, World (fs w) (console w ++ [CouldNotFindSearchBox term])).
Proof.
  intros Hgoto Hnone. unfold performSearch, tryCatch.
  rewrite run_bind. unfold await at 1. rewrite Hgoto, Hnone. reflexivity.
Qed.

End StrategyFacts.

(** Claim C4.  [crawlAlumni], once on the directory, runs the strategies;
    these are the default search followed by one pass over the buckets in
    the fixed order decades, schools, surnames, a pass that ends at the
    first bucket before which the target of 10000 profiles is reached.
    [performSearch] always returns and leaves the file alone; when no
    selector yields a search input it does nothing but log that the box
    was not found. *)
Theorem strategies_in_fixed_order :
  (∀ env w currentUrl,
     landing env = Returned currentUrl →
     redirectedToLogin currentUrl = false →
     ∃ all w', runStrategies env w = (Returned all, w') ∧
               crawlAlumni env w = (Returned tt, w')) ∧
  (∀ env w, runStrategies env w = Spec.runInOrder env w) ∧
  targetProfiles = 10000 ∧
  Spec.bucketOrder =
    [("1960", "1960s"); ("1970", "1970s"); ("1980", "1980s");
     ("1990", "1990s"); ("2000", "2000s"); ("2010", "2010s");
     ("2020", "2020s");
     ("Business", "Business"); ("Engineering", "Engineering");
     ("Medicine", "Medicine"); ("Law", "Law"); ("Education", "Education");
     ("Humanities", "Humanities"); ("Sciences", "Sciences");
     ("Smith", "surname-Smith"); ("Johnson", "surname-Johnson");
     ("Williams", "surname-Williams"); ("Brown", "surname-Brown");
     ("Jones", "surname-Jones"); ("Garcia", "surname-Garcia");
     ("Miller", "surname-Miller"); ("Davis", "surname-Davis");
     ("Rodriguez", "surname-Rodriguez"); ("Martinez", "surname-Martinez")] ∧
  (∀ env plan all w,
     targetProfiles ≤ length all →
     Spec.runBuckets env plan all w = (Returned all, w)) ∧
  (∀ env term w,
     ∃ w', performSearch env term w = (Returned tt, w') ∧ fs w' = fs w) ∧
  (∀ env term w,
     gotoDirectory env = Returned tt →
     (∀ selector box, selector ∈ searchSelectors →
        searchBoxQuery env selector ≠ Returned (Some box)) →
     performSearch env term w =
       (Returned tt,
        World (fs w) (console w ++ [CouldNotFindSearchBox term]))).
Proof.
  split; [apply StrategyFacts.crawlAlumni_runs_strategies|].
  split; [apply StrategyFacts.runStrategies_in_order|].
  split; [reflexivity|]. split; [reflexivity|].
  split; [apply StrategyFacts.runBuckets_done|].
  split; [apply StrategyFacts.performSearch_returns|].
  intros env term w Hgoto Hnone.
  apply StrategyFacts.performSearch_without_box; [done|].
  by apply StrategyFacts.findSearchBox_none.
Qed.

(** Claim C5.  [goToNextPage] always returns; it returns [true] exactly
    when some selector finds a control that is enabled and accepts the
    click, or, no selector doing so, the page is taller after the scroll
    to the bottom than before.  When it returns [false] after the cards of
    a page, the loop over the pages ends there, normally, whatever pages
    might have followed. *)
Theorem pagination_contract :
  (∀ env w,
     ∃ b w', goToNextPage env w = (Returned b, w') ∧
       (b = true ↔
          Spec.anyClickable env ∨ (¬ Spec.anyClickable env ∧ Spec.grew env))) ∧
  (∀ searchType page rest v steps v1 w2,
     length (Crawler.results v) < 1000 →
     listing page = Returned steps →
     Crawler.processCards searchType steps v = (Returned tt, v1) →
     goToNextPage (nextPage page) (Crawler.outside v1) = (Returned false, w2) →
     Crawler.crawlPages searchType (page :: rest) v =
       (Returned tt,
        Crawler.MkVars (World (fs w2) (console w2 ++ [NoMorePages searchType]))
          (Crawler.results v1) (Crawler.existingNames v1)
          (Crawler.totalSavedCount v1))).
Proof.
  split; [apply goToNextPage_spec|].
  intros searchType page rest v steps v1 w2 Hlen Hlist Hcards Hnext.
  cbn [Crawler.crawlPages]. rewrite run_bind. unfold gets at 1.
  apply Nat.ltb_lt in Hlen as ->.
  rewrite run_bind. unfold await at 1. rewrite Hlist.
  rewrite run_bind, Hcards. rewrite run_bind, CrawlerFacts.inWorld_run, Hnext.
  reflexivity.
Qed.


(** Claim C7.  In a record returned by the extractor the emails collected
    are free of duplicates and are split by the institutional-address
    pattern: the matching ones, joined by ", ", make the [stanfordEmail]
    field, the others the [personalEmail] field, every email is in exactly
    one of the two buckets, and an empty bucket is written "N/A";
    alice@stanford.edu matches the pattern and alice@gmail.com does
    not. *)
Theorem emails_are_bucketed_by_domain env v r v' :
  extractAlumniFromElementIn env v = (Returned (Some r), v') →
  let emails := Vars.emails v' in
  let institutional := List.filter Profile.isStanfordEmail emails in
  let personal :=
    List.filter (λ e, negb (Profile.isStanfordEmail e)) emails in
  NoDup emails ∧
  stanfordEmail r = JS.orElse (JS.join ", " institutional) "N/A" ∧
  personalEmail r = JS.orElse (JS.join ", " personal) "N/A" ∧
  (∀ e, e ∈ emails →
     (Profile.isStanfordEmail e = true ∧ e ∈ institutional ∧ e ∉ personal) ∨
     (Profile.isStanfordEmail e = false ∧ e ∈ personal ∧ e ∉ institutional)) ∧
  (institutional = [] → stanfordEmail r = "N/A") ∧
  (personal = [] → personalEmail r = "N/A") ∧
  Profile.isStanfordEmail "alice@stanford.edu" = true ∧
  Profile.isStanfordEmail "alice@gmail.com" = false.
Proof.
  intros Hrun.
  apply RecordFacts.extractAlumniFromElementIn_record,
    RecordFacts.visitProfile_record in Hrun
    as (nm & cs & pc & _ & -> & Hnodup).
  cbv zeta. split; [done|]. split; [done|]. split; [done|].
  split; [|split; [|split; [|split]]].
  - intros e He. apply list_elem_of_In in He.
    destruct (Profile.isStanfordEmail e) eqn:Hs; [left|right];
      (split; [done|]); rewrite !list_elem_of_In, !filter_In, Hs; split;
      try done; intros [_ ?]; done.
  - intros Hnone. simpl. unfold Profile.stanfordEmails. by rewrite Hnone.
  - intros Hnone. simpl. unfold Profile.personalEmails. by rewrite Hnone.
  - reflexivity.
  - reflexivity.
Qed.

(** Claim C3, as amended.  [extractAlumniFromElement] never throws.  When
    the evaluation of the degree, the location or the company is rejected,
    the field is "N/A".  When the block collecting emails, URLs and phone
    numbers throws, the warning is logged, no email has been collected (so
    both email fields are "N/A"), and the URLs and phone numbers collected
    before the failure are kept.  When the skills block throws, the warning
    is logged and no skill has been added.  When the visit of the profile
    itself throws, the warning is logged and the result is [null]; the loop
    over the cards then goes on with the next card. *)
Theorem extraction_failures_are_contained :
  (∀ env v, ∃ result v',
     extractAlumniFromElementIn env v = (Returned result, v')) ∧
  (∀ env v r v',
     extractAlumniFromElementIn env v = (Returned (Some r), v') →
     (∀ e, degreeBodyText env = Thrown e → degree r = "N/A") ∧
     (∀ e, locationValue env = Thrown e → location r = "N/A") ∧
     (∀ e, companyValue env = Thrown e → company r = "N/A")) ∧
  (∀ env nm v e v1,
     Profile.contactsBlock env v = (Thrown e, v1) →
     Profile.extractContacts env nm v =
       (Returned tt,
        Vars.Make [] (Vars.urls v1) (Vars.phones v1) (Vars.skills v1)
          (Vars.console v1 ++ [WarnContactExtractionFailed nm e]))) ∧
  (∀ env nm v e v1,
     Profile.skillsBlock env v = (Thrown e, v1) →
     Vars.skills v1 = Vars.skills v ∧
     Profile.extractSkills env nm v =
       (Returned tt,
        Vars.Make (Vars.emails v1) (Vars.urls v1) (Vars.phones v1)
          (Vars.skills v1)
          (Vars.console v1 ++ [WarnSkillsExtractionFailed nm e]))) ∧
  (∀ env nm d l c cs pc v,
     (Vars.emails v = [] →
      stanfordEmail (Profile.makeRecord env nm d l c cs pc v) = "N/A" ∧
      personalEmail (Profile.makeRecord env nm d l c cs pc v) = "N/A") ∧
     (Vars.skills v = [] →
      skills (Profile.makeRecord env nm d l c cs pc v) = "N/A")) ∧
  (∀ env v e v1,
     Profile.visitProfile env v = (Thrown e, v1) →
     extractAlumniFromElementIn env v =
       (Returned None,
        Vars.Make (Vars.emails v1) (Vars.urls v1) (Vars.phones v1)
          (Vars.skills v1)
          (Vars.console v1 ++ [WarnFailedToExtractFromElement e]))) ∧
  (∀ searchType env writeError rest v w',
     length (Crawler.results v) < 1000 →
     extractAlumniFromElement env (Crawler.outside v) = (Returned None, w') →
     Crawler.processCards searchType (Card env writeError :: rest) v =
       Crawler.processCards searchType rest
         (Crawler.MkVars w' (Crawler.results v) (Crawler.existingNames v)
            (Crawler.totalSavedCount v))).
Proof.
  split; [apply extractAlumniFromElementIn_returns|].
  split.
  { intros env v r v' Hrun.
    apply RecordFacts.extractAlumniFromElementIn_record,
      RecordFacts.visitProfile_record in Hrun
      as (nm & cs & pc & _ & -> & _).
    simpl. unfold Profile.degreeOf.
    split; [|split]; intros e ->; reflexivity. }
  split; [intros; by apply ProfileFacts.extractContacts_failure|].
  split.
  { intros env nm v e v1 Hblock.
    split; [by eapply ProfileFacts.skillsBlock_thrown|].
    unfold Profile.extractSkills, tryCatch. by rewrite Hblock. }
  split.
  { intros env nm d l c cs pc v. split.
    - intros Hnone. simpl.
      unfold Profile.stanfordEmails, Profile.personalEmails.
      by rewrite Hnone.
    - intros Hnone. simpl. by rewrite Hnone. }
  split.
  { intros env v e v1 Hvisit. unfold extractAlumniFromElementIn, tryCatch.
    by rewrite Hvisit. }
  intros searchType env writeError rest v w' Hlen Hrun.
  cbn [Crawler.processCards]. rewrite run_bind. unfold gets at 1.
  apply Nat.ltb_lt in Hlen as ->.
  rewrite run_bind, CrawlerFacts.inWorld_run, Hrun. reflexivity.
Qed.

(** Claim C3 as stated fails: here the block collecting emails, URLs and
    phone numbers throws and its warning is logged, while the list of URLs
    is not empty and the record's [urls] field is not "N/A". *)
Lemma failed_contact_search_keeps_the_urls_found :
  ∃ v1 r v',
    Profile.contactsBlock Sample.cardWithFailingEmailSearch (Vars.init []) =
      (Thrown "Execution context was destroyed", v1) ∧
    Vars.urls v1 ≠ [] ∧
    extractAlumniFromElementIn Sample.cardWithFailingEmailSearch
      (Vars.init []) = (Returned (Some r), v') ∧
    In (WarnContactExtractionFailed "Jane Doe"
          "Execution context was destroyed") (Vars.console v') ∧
    urls r ≠ "N/A".
Proof.
  eexists _, _, _. split; [vm_compute; reflexivity|].
  split; [discriminate|]. split; [vm_compute; reflexivity|].
  split; [by left | discriminate].
Qed.

(** Claim C1 (the code departs from it).  A card whose name contains a
    comma is accepted, and its row written, by two successive calls of
    [crawlSearchResults] on the same output file: the row holds the name
    between quotes, [getExistingNames] cuts the line at the comma inside
    the quotes and so reads a name that is not the record's, and the second
    call does not recognise the name. *)
Theorem name_with_a_comma_is_written_twice :
  ∃ r1 w1 r2 w2,
    Crawler.crawlSearchResults
      (Sample.listingOf [Sample.card "John Smith, Jr." "2024-05-01T10:00:00.000Z"])
      "default" Sample.freshWorld = (Returned [r1], w1) ∧
    Crawler.crawlSearchResults
      (Sample.listingOf [Sample.card "John Smith, Jr." "2024-05-01T10:05:00.000Z"])
      "1960s" w1 = (Returned [r2], w2) ∧
    name r1 = "John Smith, Jr." ∧ name r2 = "John Smith, Jr." ∧
    fs w1 = Some (CsvWriter.headerString +:+ CsvWriter.stringifyRecords [r1]) ∧
    fs w2 = Some (CsvWriter.headerString +:+ CsvWriter.stringifyRecords [r1]
                  +:+ CsvWriter.stringifyRecords [r2]) ∧
    ("John Smith, Jr." ∉
       namesOfContent
         (CsvWriter.headerString +:+ CsvWriter.stringifyRecords [r1])) ∧
    elements
      (namesOfContent
         (CsvWriter.headerString +:+ CsvWriter.stringifyRecords [r1])) =
      [String JS.DQ "John Smith"].
Proof.
  eexists _, _, _, _. split; [vm_compute; reflexivity|].
  split; [vm_compute; reflexivity|].
  split; [reflexivity|]. split; [reflexivity|].
  split; [reflexivity|]. split; [reflexivity|].
  split; [|vm_compute; reflexivity].
  match goal with
  | |- ?n ∉ ?names =>
      assert (Hread : bool_decide (n ∈ names) = false)
        by (vm_compute; reflexivity);
      by apply bool_decide_eq_false in Hread
  end.
Qed.

(** An instance of the property of claim C10. *)
Lemma getExistingNames_total_witness :
  getExistingNames (Some "EACCES: permission denied")
    (World (Some "Name,Class Year") []) =
    (Returned ∅,
     World (Some "Name,Class Year")
       [WarnReadingExistingCSV "EACCES: permission denied"]) ∧
  getExistingNames None Sample.freshWorld = (Returned ∅, Sample.freshWorld).
Proof.
  split.
  - exact (proj2 (proj2 (getExistingNames_total
                           (Some "EACCES: permission denied")
                           (World (Some "Name,Class Year") [])))
             "Name,Class Year" "EACCES: permission denied" eq_refl eq_refl).
  - exact (proj1 (proj2 (getExistingNames_total None Sample.freshWorld))
             eq_refl).
Defined.

(** An instance of the property of claim C5. *)
Lemma pagination_contract_witness :
  ∃ v',
    Crawler.crawlPages "default"
      (pages (Sample.listingOf
                [Sample.card "Jane Doe" "2024-05-01T10:00:00.000Z"]))
      (Crawler.init Sample.freshWorld) = (Returned tt, v') ∧
    length (Crawler.results v') = 1.
Proof.
  eexists. split.
  - eapply (proj2 pagination_contract "default" _ [] (Crawler.init Sample.freshWorld)).
    + simpl. lia.
    + reflexivity.
    + vm_compute. reflexivity.
    + vm_compute. reflexivity.
  - reflexivity.
Defined.

(** An instance of the property of claim C6. *)
Lemma accepted_names_pass_the_filter_witness :
  ∃ rs w',
    Crawler.crawlSearchResults
      (Sample.listingOf
         [Sample.card "Jane Doe" "2024-05-01T10:00:00.000Z";
          Sample.card "Stanford Alumni Directory" "2024-05-01T10:01:00.000Z"])
      "default" Sample.freshWorld = (Returned rs, w') ∧
    name <$> rs = ["Jane Doe"] ∧
    ∀ r, r ∈ rs →
      name r ≠ "" ∧ String.length (name r) < 200 ∧
      ∀ bad, bad ∈ Spec.denylist → JS.includes (name r) bad = false.
Proof.
  destruct (Crawler.crawlSearchResults
              (Sample.listingOf
                 [Sample.card "Jane Doe" "2024-05-01T10:00:00.000Z";
                  Sample.card "Stanford Alumni Directory"
                    "2024-05-01T10:01:00.000Z"])
              "default" Sample.freshWorld) as [[rs|e] w'] eqn:Hrun;
    [| vm_compute in Hrun; discriminate].
  exists rs, w'. split; [reflexivity|]. split.
  - vm_compute in Hrun. injection Hrun as <- _. reflexivity.
  - exact (proj1 (accepted_names_pass_the_filter _ _ _ _ _ Hrun)).
Defined.

(** An instance of the property of claim C2. *)
Lemma rows_are_appended_one_at_a_time_witness :
  (∃ rs w',
     Crawler.crawlSearchResults
       (Sample.listingOf
          [Sample.card "Jane Doe" "2024-05-01T10:00:00.000Z";
           Sample.card "John Roe" "2024-05-01T10:01:00.000Z"])
       "default" Sample.freshWorld = (Returned rs, w') ∧
     name <$> rs = ["Jane Doe"; "John Roe"] ∧
     fs w' = Spec.appendRows None rs) ∧
  (∃ rs w',
     Crawler.crawlSearchResults Examples.listingWithFailedWrite
       "default" Sample.freshWorld = (Returned rs, w') ∧
     name <$> rs = ["Jane Doe"; "John Roe"] ∧
     ∃ rs0 r card e,
       rs = rs0 ++ [r] ∧ fs w' = Spec.appendRows None rs0 ∧
       failedWrite Examples.listingWithFailedWrite card e ∧
       recordOf card r ∧
       last (console w') = Some (WarnErrorCrawling "default" e)).
Proof.
  split.
  - destruct (Crawler.crawlSearchResults
                (Sample.listingOf
                   [Sample.card "Jane Doe" "2024-05-01T10:00:00.000Z";
                    Sample.card "John Roe" "2024-05-01T10:01:00.000Z"])
                "default" Sample.freshWorld) as [[rs|e] w'] eqn:Hrun;
      [| vm_compute in Hrun; discriminate].
    exists rs, w'. split; [reflexivity|]. split.
    + vm_compute in Hrun. injection Hrun as <- _. reflexivity.
    + exact (proj1 (proj2 (proj2 (proj2 (proj2 (proj2 (proj2
               rows_are_appended_one_at_a_time)))))
               _ _ _ _ _ Hrun) eq_refl).
  - destruct (Crawler.crawlSearchResults Examples.listingWithFailedWrite
                "default" Sample.freshWorld) as [[rs|e] w'] eqn:Hrun;
      [| vm_compute in Hrun; discriminate].
    exists rs, w'. split; [reflexivity|]. split.
    + vm_compute in Hrun. injection Hrun as <- _. reflexivity.
    + destruct (proj2 (proj2 (proj2 (proj2 (proj2 (proj2 (proj2
                  rows_are_appended_one_at_a_time)))))
                  _ _ _ _ _ Hrun)) as [Hall|Hlast]; [|exact Hlast].
      vm_compute in Hrun. injection Hrun as <- <-.
      vm_compute in Hall. discriminate Hall.
Defined.

(** An instance of the property of claim C4. *)
Lemma strategies_in_fixed_order_witness :
  performSearch Sample.pageWithoutSearchBox "1960" Sample.freshWorld =
    (Returned tt, World None [CouldNotFindSearchBox "1960"]).
Proof.
  apply (proj2 (proj2 (proj2 (proj2 (proj2 (proj2 strategies_in_fixed_order)))))
           Sample.pageWithoutSearchBox "1960" Sample.freshWorld).
  - reflexivity.
  - intros selector box _. discriminate.
Defined.

(** An instance of the property of claim C7. *)
Lemma emails_are_bucketed_by_domain_witness :
  ∃ r v',
    extractAlumniFromElementIn Sample.cardWithEmails (Vars.init []) =
      (Returned (Some r), v') ∧
    Vars.emails v' = ["alice@stanford.edu"; "alice@gmail.com"] ∧
    stanfordEmail r = "alice@stanford.edu" ∧
    personalEmail r = "alice@gmail.com".
Proof.
  destruct (extractAlumniFromElementIn Sample.cardWithEmails (Vars.init []))
    as [[[r|]|e] v'] eqn:Hrun; try (vm_compute in Hrun; discriminate).
  exists r, v'. split; [reflexivity|].
  destruct (emails_are_bucketed_by_domain _ _ _ _ Hrun)
    as (_ & Hs & Hp & _).
  assert (Hemails : Vars.emails v' = ["alice@stanford.edu"; "alice@gmail.com"]).
  { vm_compute in Hrun. by injection Hrun as _ <-. }
  split; [exact Hemails|]. rewrite Hs, Hp, Hemails. split; reflexivity.
Defined.

(** An instance of the property of claim C3. *)
Lemma extraction_failures_are_contained_witness :
  Profile.extractContacts Sample.cardWithFailingEmailSearch "Jane Doe"
    (Vars.init []) =
    (Returned tt,
     Vars.Make []
       ["LinkedIn: https://linkedin.com/in/jane-doe";
        "LinkedIn: https://linkedin.com/in/jane-doe";
        "LinkedIn: https://linkedin.com/in/jane-doe"] [] []
       [WarnContactExtractionFailed "Jane Doe"
          "Execution context was destroyed"]) ∧
  extractAlumniFromElementIn Sample.cardWithDeadLink (Vars.init []) =
    (Returned None,
     Vars.Make [] [] [] []
       [WarnFailedToExtractFromElement "Element is not attached to the DOM"]).
Proof.
  split.
  - apply (proj1 (proj2 (proj2 extraction_failures_are_contained))
             Sample.cardWithFailingEmailSearch "Jane Doe" (Vars.init [])
             "Execution context was destroyed"
             (Vars.Make []
                ["LinkedIn: https://linkedin.com/in/jane-doe";
                 "LinkedIn: https://linkedin.com/in/jane-doe";
                 "LinkedIn: https://linkedin.com/in/jane-doe"] [] [] [])).
    vm_compute. reflexivity.
  - apply (proj1 (proj2 (proj2 (proj2 (proj2 (proj2
             extraction_failures_are_contained)))))
             Sample.cardWithDeadLink (Vars.init [])
             "Element is not attached to the DOM" (Vars.init [])).
    vm_compute. reflexivity.
Defined.

(** ** Strings *)

Module StringFacts.

Lemma append_cons c s t : String c s +:+ t = String c (s +:+ t).
Proof. reflexivity. Qed.

Lemma append_nil_l s : "" +:+ s = s.
Proof. reflexivity. Qed.

Lemma append_nil_r s : s +:+ "" = s.
Proof.
  induction s as [|c s IH]; [done|]. by rewrite append_cons, IH.
Qed.

Lemma append_assoc a b c : (a +:+ b) +:+ c = a +:+ (b +:+ c).
Proof.
  induction a as [|x a IH]; [done|]. by rewrite !append_cons, IH.
Qed.

Lemma length_append a b :
  String.length (a +:+ b) = String.length a + String.length b.
Proof.
  induction a as [|x a IH]; [done|]. rewrite append_cons. simpl.
  by rewrite IH.
Qed.

(** *** [split] *)

Lemma split_nonempty sep s : JS.split sep s ≠ [].
Proof.
  induction s as [|c s IH]; simpl; [done|].
  destruct (Ascii.eqb c sep); [done|]. by destruct (JS.split sep s).
Qed.

Lemma split_cons_other sep c s :
  Ascii.eqb c sep = false →
  ∃ h t, JS.split sep s = h :: t ∧ JS.split sep (String c s) = String c h :: t.
Proof.
  intros Hc. simpl. rewrite Hc.
  destruct (JS.split sep s) as [|h t] eqn:Hs; [by apply split_nonempty in Hs|].
  by exists h, t.
Qed.

Lemma split_app_sep sep a b :
  JS.split sep (a +:+ String sep b) = JS.split sep a ++ JS.split sep b.
Proof.
  induction a as [|c a IH]; [simpl; by rewrite Ascii.eqb_refl|].
  rewrite append_cons. simpl.
  destruct (Ascii.eqb c sep); [by rewrite IH|].
  rewrite IH. destruct (JS.split sep a) as [|h t] eqn:Hs; [|done].
  by apply split_nonempty in Hs.
Qed.

Lemma split_without sep s :
  CsvWriter.hasChar sep s = false → JS.split sep s = [s].
Proof.
  induction s as [|c s IH]; simpl; [done|].
  intros [Hc Hs]%orb_false_iff. rewrite Hc, (IH Hs). done.
Qed.

Lemma hasChar_append c a b :
  CsvWriter.hasChar c (a +:+ b) = CsvWriter.hasChar c a || CsvWriter.hasChar c b.
Proof.
  induction a as [|x a IH]; [done|]. rewrite append_cons. simpl.
  by rewrite IH, orb_assoc.
Qed.

(** No line of a split contains the separator. *)
Lemma split_lines_without sep s :
  Forall (λ line, CsvWriter.hasChar sep line = false) (JS.split sep s).
Proof.
  induction s as [|c s IH]; simpl; [by repeat constructor|].
  destruct (Ascii.eqb c sep) eqn:Hc; [by constructor|].
  destruct (JS.split sep s) as [|h t].
  - constructor; [|done]. simpl. by rewrite Hc.
  - inversion IH as [|?? Hh Ht]; subst. constructor; [|done].
    simpl. by rewrite Hc, Hh.
Qed.

(** Joining lines that do not contain the separator, and splitting
    again, gives the lines back. *)
Lemma split_join sep line lines :
  Forall (λ l, CsvWriter.hasChar sep l = false) (line :: lines) →
  JS.split sep (JS.join (String sep "") (line :: lines)) = line :: lines.
Proof.
  revert line. induction lines as [|l2 lines IH]; intros line Hall.
  - simpl. apply split_without. by inversion Hall.
  - inversion Hall as [|?? Hline Hrest]; subst.
    change (JS.join (String sep "") (line :: l2 :: lines))
      with (line +:+ String sep "" +:+ JS.join (String sep "") (l2 :: lines)).
    rewrite append_cons, append_nil_l.
    rewrite split_app_sep, (split_without _ _ Hline), (IH _ Hrest). done.
Qed.

Lemma split_app_last sep a b :
  CsvWriter.hasChar sep b = false →
  ∃ init l, JS.split sep a = init ++ [l] ∧
            JS.split sep (a +:+ b) = init ++ [l +:+ b].
Proof.
  intros Hb. induction a as [|c a (init & l & Ha & Hab)].
  - exists [], "". split; [done|]. simpl. by apply split_without.
  - rewrite append_cons. simpl. destruct (Ascii.eqb c sep).
    + exists ("" :: init), l. rewrite Ha, Hab. done.
    + rewrite Ha, Hab. destruct init as [|h init]; simpl.
      * by exists [], (String c l).
      * by exists (String c h :: init), l.
Qed.

(** *** Reversal, and induction from the right *)

Lemma rev_app_spec s acc : String.rev_app s acc = String.rev s +:+ acc.
Proof.
  unfold String.rev. revert acc.
  induction s as [|c s IH]; intros acc; simpl; [done|].
  rewrite IH, (IH (String c "")), append_assoc. done.
Qed.

Lemma rev_cons c s : String.rev (String c s) = String.rev s +:+ String c "".
Proof. unfold String.rev at 1. simpl. apply rev_app_spec. Qed.

Lemma rev_append a b : String.rev (a +:+ b) = String.rev b +:+ String.rev a.
Proof.
  induction a as [|c a IH]; [by rewrite append_nil_l, append_nil_r|].
  by rewrite append_cons, !rev_cons, IH, append_assoc.
Qed.

Lemma rev_involutive s : String.rev (String.rev s) = s.
Proof.
  induction s as [|c s IH]; [done|].
  by rewrite rev_cons, rev_append, IH.
Qed.

Lemma string_rev_ind (P : string → Prop) :
  P "" → (∀ s c, P s → P (s +:+ String c "")) → ∀ s, P s.
Proof.
  intros Hnil Hsnoc s. rewrite <- (rev_involutive s).
  induction (String.rev s) as [|c r IH]; [done|].
  rewrite rev_cons. by apply Hsnoc.
Qed.

(** *** [trim] *)

Lemma trimStart_nonspace c s :
  JS.isSpace c = false → JS.trimStart (String c s) = String c s.
Proof. intros Hc. simpl. by rewrite Hc. Qed.

Lemma trimStart_app_nonspace p c q :
  JS.isSpace c = false →
  JS.trimStart (p +:+ String c q) = JS.trimStart p +:+ String c q.
Proof.
  intros Hc. induction p as [|x p IH]; [by apply trimStart_nonspace|].
  rewrite append_cons. simpl. destruct (JS.isSpace x); [done|].
  by rewrite append_cons.
Qed.

Lemma trimEnd_snoc s c :
  JS.trimEnd (s +:+ String c "") =
  if JS.isSpace c then JS.trimEnd s else s +:+ String c "".
Proof.
  unfold JS.trimEnd. rewrite rev_append. change (String.rev (String c ""))
    with (String c ""). rewrite append_cons, append_nil_l. simpl.
  destruct (JS.isSpace c); [done|].
  by rewrite rev_cons, rev_involutive.
Qed.

(** What precedes a code unit that is not white space survives
    [trimEnd], and so does the code unit. *)
Lemma trimEnd_app_nonspace a c b :
  JS.isSpace c = false →
  ∃ b', JS.trimEnd (a +:+ String c b) = a +:+ String c b'.
Proof.
  intros Hc. induction b as [|b x IH] using string_rev_ind.
  - exists "". by rewrite trimEnd_snoc, Hc.
  - replace (a +:+ String c (b +:+ String x ""))
      with ((a +:+ String c b) +:+ String x "")
      by (by rewrite append_assoc, append_cons).
    rewrite trimEnd_snoc. destruct (JS.isSpace x); [done|].
    exists (b +:+ String x ""). by rewrite append_assoc, append_cons.
Qed.

(** [trimStart] drops a prefix. *)
Lemma trimStart_drop s : ∃ k, JS.trimStart s = JS.drop k s.
Proof.
  induction s as [|c s [k Hk]]; [by exists 0|]. simpl.
  destruct (JS.isSpace c); [by exists (S k) | by exists 0].
Qed.

(** [trimEnd] keeps a prefix. *)
Lemma trimEnd_take s : ∃ k, JS.trimEnd s = JS.take k s.
Proof.
  induction s as [|s c [k Hk]] using string_rev_ind; [by exists 0|].
  rewrite trimEnd_snoc. destruct (JS.isSpace c).
  - exists (Nat.min k (String.length s)). rewrite Hk. clear Hk.
    revert k. induction s as [|x s IH]; intros k.
    + by destruct k.
    + rewrite append_cons. destruct k as [|k]; [done|]. simpl.
      by rewrite IH.
  - exists (String.length (s +:+ String c "")).
    generalize (s +:+ String c ""). intros t.
    induction t as [|x t IH]; [done|]. simpl. by rewrite <- IH.
Qed.

(** *** [take], [drop], [includes], [indexOf] *)

Lemma take_length_app a b : JS.take (String.length a) (a +:+ b) = a.
Proof.
  induction a as [|c a IH]; [by destruct b|]. rewrite append_cons. simpl.
  by rewrite IH.
Qed.

Lemma hasChar_take c n s :
  CsvWriter.hasChar c s = false → CsvWriter.hasChar c (JS.take n s) = false.
Proof.
  revert n. induction s as [|x s IH]; intros [|n]; simpl; try done.
  intros [-> Hs]%orb_false_iff. by apply IH.
Qed.

Lemma hasChar_drop c n s :
  CsvWriter.hasChar c s = false → CsvWriter.hasChar c (JS.drop n s) = false.
Proof.
  revert n. induction s as [|x s IH]; intros [|n]; simpl; try done.
  intros [_ Hs]%orb_false_iff. by apply IH.
Qed.

Lemma length_take_le n s : String.length (JS.take n s) ≤ String.length s.
Proof.
  revert n. induction s as [|x s IH]; intros [|n]; simpl; try lia.
  specialize (IH n). lia.
Qed.

Lemma length_drop_le n s : String.length (JS.drop n s) ≤ String.length s.
Proof.
  revert n. induction s as [|x s IH]; intros [|n]; simpl; try lia.
  specialize (IH n). lia.
Qed.

Lemma startsWith_take s p n :
  JS.startsWith (JS.take n s) p = true → JS.startsWith s p = true.
Proof.
  revert s n. induction p as [|a p IH]; intros s n; [by destruct s|].
  destruct s as [|b s]; destruct n as [|n]; simpl; try done.
  intros [-> H]%andb_true_iff. simpl. by apply (IH s n).
Qed.

Lemma includes_cons c s x :
  JS.includes s x = true → JS.includes (String c s) x = true.
Proof. intros H. cbn [JS.includes]. rewrite H. apply orb_true_r. Qed.

Lemma includes_drop n s x :
  JS.includes (JS.drop n s) x = true → JS.includes s x = true.
Proof.
  revert n. induction s as [|c s IH]; intros [|n]; simpl; try done.
  intros H. apply includes_cons. by apply (IH n).
Qed.

Lemma includes_take n s x :
  JS.includes (JS.take n s) x = true → JS.includes s x = true.
Proof.
  revert n. induction s as [|c s IH]; intros n.
  - by destruct n.
  - destruct n as [|n].
    + simpl. cbn [JS.includes]. rewrite orb_false_r.
      destruct x; [|done]. done.
    + cbn [JS.take JS.includes].
      intros [H|H]%orb_true_iff; apply orb_true_iff.
      * left. by apply (startsWith_take (String c s) x (S n)).
      * right. by apply (IH n).
Qed.

Lemma includes_char c s :
  JS.includes s (String c "") = CsvWriter.hasChar c s.
Proof.
  induction s as [|x s IH]; [done|]. cbn [JS.includes CsvWriter.hasChar].
  rewrite IH. simpl. destruct s; rewrite andb_true_r; by rewrite Ascii.eqb_sym.
Qed.

Lemma indexOfFrom_char i c s :
  if CsvWriter.hasChar c s
  then ∃ p q, s = p +:+ String c q ∧ CsvWriter.hasChar c p = false ∧
              JS.indexOfFrom i s (String c "") = (i + Z.of_nat (String.length p))%Z
  else JS.indexOfFrom i s (String c "") = (-1)%Z.
Proof.
  revert i. induction s as [|x s IH]; intros i; [done|].
  cbn [CsvWriter.hasChar JS.indexOfFrom].
  replace (JS.startsWith (String x s) (String c "")) with (Ascii.eqb x c)
    by (simpl; destruct s; by rewrite andb_true_r, Ascii.eqb_sym).
  destruct (Ascii.eqb x c) eqn:Hx; simpl.
  - apply Ascii.eqb_eq in Hx as ->. exists "", s. simpl.
    split; [done|]. split; [done|]. lia.
  - specialize (IH (i + 1)%Z). destruct (CsvWriter.hasChar c s); [|done].
    destruct IH as (p & q & -> & Hp & Hi).
    exists (String x p), q. rewrite append_cons. split; [done|].
    simpl. rewrite Hx, Hp. split; [done|]. rewrite Hi. lia.
Qed.

Lemma indexOf_app_char c p q :
  CsvWriter.hasChar c p = false →
  JS.indexOf (p +:+ String c q) (String c "") = Z.of_nat (String.length p).
Proof.
  intros Hp. unfold JS.indexOf.
  pose proof (indexOfFrom_char 0 c (p +:+ String c q)) as H.
  rewrite hasChar_append in H. simpl in H.
  rewrite Ascii.eqb_refl, orb_true_r in H.
  destruct H as (p' & q' & Heq & Hp' & Hi). rewrite Hi, Z.add_0_l.
  f_equal. clear -Heq Hp Hp'. revert p' Heq Hp'.
  induction p as [|x p IH]; intros [|y p'] Heq Hp'; simpl in *; try done.
  - rewrite append_cons in Heq. injection Heq as <- _.
    by rewrite Ascii.eqb_refl in Hp'.
  - rewrite append_cons, append_nil_l in Heq. injection Heq as -> _.
    by rewrite Ascii.eqb_refl in Hp.
  - rewrite !append_cons in Heq. injection Heq as <- Heq.
    apply orb_false_iff in Hp as [_ Hp]. apply orb_false_iff in Hp' as [_ Hp'].
    by rewrite (IH Hp p' Heq Hp').
Qed.

Lemma indexOf_without c s :
  CsvWriter.hasChar c s = false → JS.indexOf s (String c "") = (-1)%Z.
Proof.
  intros Hs. pose proof (indexOfFrom_char 0 c s) as H. by rewrite Hs in H.
Qed.

End StringFacts.

(** ** What is written to the file and what is read from it *)

Module SinkFacts.
Import StringFacts.

Lemma truthy_app_cons a c b : JS.truthy (a +:+ String c b) = true.
Proof. by destruct a. Qed.

Lemma hasChar_trim c s :
  CsvWriter.hasChar c s = false → CsvWriter.hasChar c (JS.trim s) = false.
Proof.
  intros Hs. unfold JS.trim.
  destruct (trimEnd_take (JS.trimStart s)) as [k ->].
  destruct (trimStart_drop s) as [j ->].
  by apply hasChar_take, hasChar_drop.
Qed.

(** The name read from a line that has a comma depends only on what
    precedes the first comma. *)
Lemma nameOfLine_comma p q :
  CsvWriter.hasChar "," p = false →
  nameOfLine (p +:+ String "," q) =
  let name := JS.trimStart p in
  if JS.truthy name then
    Some (if JS.startsWith name (String JS.DQ "") &&
             JS.endsWith name (String JS.DQ "")
          then JS.sliceInner name else name)
  else None.
Proof.
  intros Hp. unfold nameOfLine, JS.trim.
  rewrite trimStart_app_nonspace by done.
  destruct (trimEnd_app_nonspace (JS.trimStart p) "," q eq_refl) as [q' ->].
  rewrite truthy_app_cons.
  assert (Hp1 : CsvWriter.hasChar "," (JS.trimStart p) = false).
  { destruct (trimStart_drop p) as [k ->]. by apply hasChar_drop. }
  rewrite (indexOf_app_char _ _ _ Hp1). cbn zeta.
  destruct (JS.trimStart p) as [|c name] eqn:Hname; [reflexivity|].
  replace (0 <? Z.of_nat (String.length (String c name)))%Z with true
    by (symmetry; apply Z.ltb_lt; simpl; lia).
  rewrite Nat2Z.id. unfold JS.substring. rewrite Nat.sub_0_r.
  change (JS.drop 0 ?s) with s. rewrite take_length_app.
  simpl JS.truthy. cbv iota. by destruct (_ && _).
Qed.

Lemma nameOfLine_without line :
  CsvWriter.hasChar "," line = false → nameOfLine line = None.
Proof.
  intros Hl. unfold nameOfLine.
  destruct (JS.truthy (JS.trim line)); [|done].
  by rewrite (indexOf_without _ _ (hasChar_trim _ _ Hl)).
Qed.

Lemma elem_of_names_fold n (lines : list string) (acc : gset string) :
  n ∈ foldl (λ (existingNames : gset string) line,
               match nameOfLine line with
               | Some name => existingNames ∪ {[name]}
               | None => existingNames
               end) acc lines ↔
  n ∈ acc ∨ ∃ line, line ∈ lines ∧ nameOfLine line = Some n.
Proof.
  revert acc. induction lines as [|l lines IH]; intros acc; simpl.
  - split; [by left|]. intros [?|(? & Hin & _)]; [done|].
    by apply elem_of_nil in Hin.
  - rewrite IH. destruct (nameOfLine l) as [m|] eqn:Hl.
    + rewrite elem_of_union, elem_of_singleton. split.
      * intros [[?| ->]|(l' & Hin & Hn)]; [by left| |].
        -- right. exists l. split; [apply list_elem_of_here | done].
        -- right. exists l'. split; [by apply list_elem_of_further | done].
      * intros [?|(l' & Hin & Hn)]; [by left; left|].
        apply elem_of_cons in Hin as [->|Hin].
        -- left. right. congruence.
        -- right. by exists l'.
    + split.
      * intros [?|(l' & Hin & Hn)]; [by left|].
        right. exists l'. split; [by apply list_elem_of_further | done].
      * intros [?|(l' & Hin & Hn)]; [by left|].
        apply elem_of_cons in Hin as [->|Hin]; [congruence|].
        right. by exists l'.
Qed.

Lemma elem_of_namesOfContent n csvContent :
  n ∈ namesOfContent csvContent ↔
  ∃ line, line ∈ List.tl (JS.split JS.LF csvContent) ∧
          nameOfLine line = Some n.
Proof.
  unfold namesOfContent. rewrite elem_of_names_fold. split; [|by right].
  intros [H|H]; [by apply elem_of_empty in H | done].
Qed.

Lemma getExistingNames_run readError w :
  ∃ names w', getExistingNames readError w = (Returned names, w') ∧
    fs w' = fs w ∧
    (names = ∅ ∨ ∃ stored, fs w = Some stored ∧ readError = None ∧
                            names = namesOfContent stored).
Proof.
  destruct w as [[stored|] out]; destruct readError as [e|]; simpl;
    eexists _, _; (split; [reflexivity|]); (split; [done|]); eauto.
Qed.

(** The row of a record starts with its name and a comma when the name
    needs no quotes. *)
Lemma recordLine_plain r :
  JS.truthy (name r) = true → CsvWriter.needsQuote (name r) = false →
  ∃ rest, CsvWriter.recordLine r = name r +:+ String "," rest.
Proof.
  intros Ht Hq. unfold CsvWriter.recordLine, CsvWriter.getCsvLine.
  cbn [CsvWriter.header fmap list_fmap fst snd JS.join].
  unfold CsvWriter.stringify at 1. rewrite Ht, Hq. cbn [negb].
  eexists. rewrite append_cons, append_nil_l. reflexivity.
Qed.

Lemma split_app_first sep a b :
  CsvWriter.hasChar sep a = false →
  ∃ h t, JS.split sep b = h :: t ∧ JS.split sep (a +:+ b) = (a +:+ h) :: t.
Proof.
  intros Ha. destruct (JS.split sep b) as [|h t] eqn:Hb;
    [by apply split_nonempty in Hb|].
  exists h, t. split; [done|].
  induction a as [|c a IH]; [done|]. rewrite append_cons. simpl.
  simpl in Ha. apply orb_false_iff in Ha as [Hc Ha].
  by rewrite Hc, (IH Ha), append_cons.
Qed.

Lemma needsQuote_false s :
  CsvWriter.needsQuote s = false →
  CsvWriter.hasChar "," s = false ∧ CsvWriter.hasChar JS.LF s = false ∧
  CsvWriter.hasChar JS.DQ s = false.
Proof.
  unfold CsvWriter.needsQuote. rewrite !orb_false_iff. tauto.
Qed.

Lemma startsWith_char c s :
  CsvWriter.hasChar c s = false → JS.startsWith s (String c "") = false.
Proof.
  destruct s as [|x s]; [done|]. simpl. intros [Hx _]%orb_false_iff.
  by rewrite Ascii.eqb_sym, Hx.
Qed.

(** The first line of the row of a record with a plain name gives the
    name back. *)
Lemma nameOfLine_row r :
  JS.truthy (name r) = true → CsvWriter.needsQuote (name r) = false →
  JS.trimStart (name r) = name r →
  ∃ line rest, JS.split JS.LF (CsvWriter.recordLine r) = line :: rest ∧
               nameOfLine line = Some (name r).
Proof.
  intros Ht Hq Htrim. destruct (recordLine_plain r Ht Hq) as [tail ->].
  destruct (needsQuote_false _ Hq) as (Hcomma & Hlf & Hdq).
  destruct (split_app_first JS.LF (name r) (String "," tail) Hlf)
    as (h & t & Hsplit & ->).
  exists (name r +:+ h), t. split; [done|].
  assert (∃ q, h = String "," q) as [q ->].
  { revert Hsplit. simpl.
    destruct (JS.split JS.LF tail) as [|h' t']; intros [= <- _]; eauto. }
  rewrite (nameOfLine_comma _ _ Hcomma). cbn zeta.
  rewrite Htrim, Ht, (startsWith_char _ _ Hdq). done.
Qed.

End SinkFacts.

Import StringFacts SinkFacts.

Lemma content_after_row_has_name r c :
  plainName (name r) →
  name r ∈ namesOfContent
             (c +:+ String JS.LF (CsvWriter.recordLine r +:+ String JS.LF "")).
Proof.
  intros (Ht & Hq & Htrim). apply elem_of_namesOfContent.
  destruct (nameOfLine_row r Ht Hq Htrim) as (line & rest & Hsplit & Hname).
  exists line. split; [|done].
  rewrite !split_app_sep, Hsplit.
  destruct (JS.split JS.LF c) as [|h t] eqn:Hc; [by apply split_nonempty in Hc|].
  simpl. apply elem_of_app. right. apply list_elem_of_here.
Qed.

(** Property X1.  A record saved with [saveIncrementalCSV] is found again
    by [getExistingNames]: when its name is not empty, contains no comma,
    quote or line break and starts with no white space, and the output
    file is missing or ends with a line break, the save returns and the
    set of names then read from the file contains the name. *)
Theorem saved_name_is_read_back r w :
  plainName (name r) →
  (fs w = None ∨ ∃ stored, fs w = Some (stored +:+ String JS.LF "")) →
  ∃ w1 names w2,
    saveIncrementalCSV (Some r) None w = (Returned tt, w1) ∧
    getExistingNames None w1 = (Returned names, w2) ∧
    name r ∈ names.
Proof.
  intros Hplain Hfile. destruct w as [sink out].
  assert (∃ c, fs (saveIncrementalCSV (Some r) None (World sink out)).2 =
               Some (c +:+ String JS.LF
                       (CsvWriter.recordLine r +:+ String JS.LF "")))
    as [c Hc].
  { destruct Hfile as [Hnone|[stored Hsome]]; simpl in *; subst.
    - exists (CsvWriter.getCsvLine (snd <$> CsvWriter.header)).
      cbn [saveIncrementalCSV snd fs]. reflexivity.
    - exists stored. cbn [saveIncrementalCSV snd fs]. simpl. f_equal.
      unfold CsvWriter.stringifyRecords, CsvWriter.joinRecords.
      cbn [fmap list_fmap JS.join]. by rewrite append_assoc. }
  destruct (saveIncrementalCSV (Some r) None (World sink out))
    as [o [sink1 out1]] eqn:Hsave.
  assert (o = Returned tt) as ->.
  { revert Hsave. by destruct sink; intros [= <- _ _]. }
  simpl in Hc. subst sink1.
  eexists _, _, _. split; [reflexivity|]. split; [reflexivity|].
  by apply content_after_row_has_name.
Qed.

Lemma saved_name_is_read_back_witness :
  ∃ w1 names w2,
    saveIncrementalCSV (Some Examples.janeDoe) None Sample.freshWorld =
      (Returned tt, w1) ∧
    getExistingNames None w1 = (Returned names, w2) ∧
    "Jane Doe" ∈ names.
Proof.
  apply (saved_name_is_read_back Examples.janeDoe Sample.freshWorld).
  - repeat split; reflexivity.
  - left. reflexivity.
Defined.

Module ReadBackFacts.

Lemma hasChar_decompose c s :
  CsvWriter.hasChar c s = true →
  ∃ p q, s = p +:+ String c q ∧ CsvWriter.hasChar c p = false.
Proof.
  intros Hs. pose proof (indexOfFrom_char 0 c s) as H. rewrite Hs in H.
  destruct H as (p & q & ? & ? & _). eauto.
Qed.

Lemma hasChar_app_l c a b :
  CsvWriter.hasChar c (a +:+ b) = false → CsvWriter.hasChar c a = false.
Proof. rewrite hasChar_append. by intros [? _]%orb_false_iff. Qed.

Lemma hasChar_sliceInner c s :
  CsvWriter.hasChar c s = false → CsvWriter.hasChar c (JS.sliceInner s) = false.
Proof. intros Hs. unfold JS.sliceInner. by apply hasChar_take, hasChar_drop. Qed.

Lemma hasChar_trimStart c s :
  CsvWriter.hasChar c s = false → CsvWriter.hasChar c (JS.trimStart s) = false.
Proof. intros Hs. destruct (trimStart_drop s) as [k ->]. by apply hasChar_drop. Qed.

(** A name read from a line has no comma, and no code unit that the
    line does not have. *)
Lemma nameOfLine_chars line n :
  nameOfLine line = Some n →
  CsvWriter.hasChar "," n = false ∧
  ∀ x, CsvWriter.hasChar x line = false → CsvWriter.hasChar x n = false.
Proof.
  destruct (CsvWriter.hasChar "," line) eqn:Hcomma.
  2: { by rewrite (nameOfLine_without _ Hcomma). }
  destruct (hasChar_decompose _ _ Hcomma) as (p & q & -> & Hp).
  rewrite (nameOfLine_comma _ _ Hp). cbn zeta.
  destruct (JS.truthy (JS.trimStart p)); [|done].
  assert (∀ x, CsvWriter.hasChar x p = false →
            CsvWriter.hasChar x
              (if JS.startsWith (JS.trimStart p) (String JS.DQ "") &&
                  JS.endsWith (JS.trimStart p) (String JS.DQ "")
               then JS.sliceInner (JS.trimStart p) else JS.trimStart p) = false)
    as Hkeep.
  { intros x Hx. destruct (_ && _).
    - by apply hasChar_sliceInner, hasChar_trimStart.
    - by apply hasChar_trimStart. }
  intros [= <-]. split; [by apply Hkeep|].
  intros x Hx. apply Hkeep. by apply hasChar_app_l in Hx.
Qed.

Lemma names_without_comma csvContent n :
  n ∈ namesOfContent csvContent →
  JS.includes n "," = false ∧ JS.includes n (String JS.LF "") = false.
Proof.
  intros (line & Hin & Hname)%elem_of_namesOfContent.
  destruct (nameOfLine_chars _ _ Hname) as [Hcomma Hother].
  rewrite !includes_char. split; [done|]. apply Hother.
  pose proof (split_lines_without JS.LF csvContent) as Hall.
  destruct (JS.split JS.LF csvContent) as [|h t]; [by apply elem_of_nil in Hin|].
  simpl in Hin. inversion Hall as [|?? _ Ht]; subst.
  by apply (proj1 (Forall_forall _ _) Ht).
Qed.

Lemma getExistingNames_read stored out :
  getExistingNames None (World (Some stored) out) =
  (Returned (namesOfContent stored),
   World (Some stored)
     (out ++ [FoundExistingNames (size (namesOfContent stored))])).
Proof. reflexivity. Qed.

End ReadBackFacts.
Import ReadBackFacts.

(** Property X2.  [getExistingNames] always returns a set, and no name in
    it contains a comma or a line break; so the name of a record that
    contains a comma is never among the names read back, whatever the
    file holds. *)
Theorem names_read_back_have_no_comma readError w :
  ∃ names w',
    getExistingNames readError w = (Returned names, w') ∧
    (∀ n, n ∈ names →
       JS.includes n "," = false ∧ JS.includes n (String JS.LF "") = false) ∧
    (∀ r : AlumniRecord, JS.includes (name r) "," = true → name r ∉ names).
Proof.
  destruct (getExistingNames_run readError w)
    as (names & w' & Hrun & _ & Hnames).
  exists names, w'. split; [done|].
  assert (∀ n, n ∈ names →
            JS.includes n "," = false ∧
            JS.includes n (String JS.LF "") = false) as Hno.
  { intros n Hn. destruct Hnames as [->|(stored & _ & _ & ->)].
    - by apply elem_of_empty in Hn.
    - by apply (names_without_comma stored). }
  split; [done|]. intros r Hr Hin. apply Hno in Hin as [Hc _]. congruence.
Qed.

(** Property X3.  When the output file exists and holds no line break
    (a header line alone, say) and the row of the record holds none,
    [saveIncrementalCSV] appends the row right after that text, and
    [getExistingNames] then returns the empty set: the row has become a
    part of the first line, which is skipped as the header. *)
Theorem row_added_to_a_file_without_lines_is_not_read_back r stored out :
  CsvWriter.hasChar JS.LF stored = false →
  CsvWriter.hasChar JS.LF (CsvWriter.recordLine r) = false →
  ∃ w1 w2,
    saveIncrementalCSV (Some r) None (World (Some stored) out) =
      (Returned tt, w1) ∧
    fs w1 = Some (stored +:+ CsvWriter.recordLine r +:+ String JS.LF "") ∧
    getExistingNames None w1 = (Returned ∅, w2).
Proof.
  intros Hstored Hrow.
  destruct (saveIncrementalCSV (Some r) None (World (Some stored) out))
    as [o w1] eqn:Hsave.
  injection Hsave as <- <-. eexists _, _. split; [reflexivity|].
  split; [reflexivity|].
  rewrite getExistingNames_read.
  assert (namesOfContent
            (stored +:+ "" +:+ CsvWriter.stringifyRecords [r]) = ∅)
    as ->; [|reflexivity].
  unfold namesOfContent, CsvWriter.stringifyRecords, CsvWriter.joinRecords.
  cbn [fmap list_fmap JS.join]. rewrite append_nil_l.
  rewrite <- append_assoc, split_app_sep.
  rewrite split_without by (by rewrite hasChar_append, Hstored, Hrow).
  reflexivity.
Qed.

Lemma row_added_to_a_file_without_lines_is_not_read_back_witness :
  ∃ w1 w2,
    saveIncrementalCSV (Some Examples.janeDoe) None
      (World (Some Examples.headerWithoutLineBreak) []) = (Returned tt, w1) ∧
    fs w1 = Some (Examples.headerWithoutLineBreak +:+
                  CsvWriter.recordLine Examples.janeDoe +:+ String JS.LF "") ∧
    getExistingNames None w1 = (Returned ∅, w2).
Proof.
  apply (row_added_to_a_file_without_lines_is_not_read_back
           Examples.janeDoe Examples.headerWithoutLineBreak []);
    reflexivity.
Defined.

(** ** Writing all records at once *)

Module BatchFacts.

Lemma stringifyRecords_cons r r2 rs :
  CsvWriter.stringifyRecords (r :: r2 :: rs) =
  CsvWriter.stringifyRecords [r] +:+ CsvWriter.stringifyRecords (r2 :: rs).
Proof.
  unfold CsvWriter.stringifyRecords, CsvWriter.joinRecords.
  rewrite !fmap_cons.
  change (JS.join ?sep (?a :: ?b :: ?l))
    with (a +:+ sep +:+ JS.join sep (b :: l)).
  cbn [fmap list_fmap JS.join]. by rewrite !append_assoc.
Qed.

(** Rows appended one at a time to a file that holds [stored]. *)
Lemma appendRows_Some stored r rs :
  Spec.appendRows (Some stored) (r :: rs) =
  Some (stored +:+ CsvWriter.stringifyRecords (r :: rs)).
Proof.
  revert stored r. induction rs as [|r2 rs IH]; intros stored r; [done|].
  rewrite stringifyRecords_cons. unfold Spec.appendRows in *.
  cbn [foldl]. cbn [foldl] in IH.
  change (Spec.appendRow (Some stored) r)
    with (Some (stored +:+ CsvWriter.stringifyRecords [r])).
  by rewrite IH, append_assoc.
Qed.

Lemma appendRows_None r rs :
  Spec.appendRows None (r :: rs) =
  Some (CsvWriter.headerString +:+ CsvWriter.stringifyRecords (r :: rs)).
Proof.
  destruct rs as [|r2 rs]; [done|].
  change (Spec.appendRows None (r :: r2 :: rs))
    with (Spec.appendRows
            (Some (CsvWriter.headerString +:+ CsvWriter.stringifyRecords [r]))
            (r2 :: rs)).
  by rewrite appendRows_Some, stringifyRecords_cons, append_assoc.
Qed.

(** The loop that saves the records one by one. *)
Lemma saves_one_by_one rs w :
  ∃ out, forOf rs (λ r, saveIncrementalCSV (Some r) None) w =
         (Returned tt, World (Spec.appendRows (fs w) rs) out).
Proof.
  revert w. induction rs as [|r rs IH]; intros [sink out].
  - by exists out.
  - cbn [forOf]. rewrite run_bind.
    assert (saveIncrementalCSV (Some r) None (World sink out) =
            (Returned tt,
             World (Spec.appendRow sink r) (out ++ [SavedToCSV (name r)])))
      as -> by (by destruct sink).
    destruct (IH (World (Spec.appendRow sink r) (out ++ [SavedToCSV (name r)])))
      as [out' ->].
    by exists out'.
Qed.

End BatchFacts.
Import BatchFacts.

(** Property X4.  [saveToCSV] with a list of records that is not empty
    returns, when the write does not fail, and leaves in the file the header followed by one row per
    record, whatever the file held; this is the content that saving the
    same records one by one with [saveIncrementalCSV] builds from a
    missing file. *)
Theorem saveToCSV_writes_what_row_by_row_saving_builds r rs thisData d out :
  ∃ d' out',
    saveToCSV (Some (r :: rs)) thisData None d = (Returned tt, d') ∧
    forOf (r :: rs) (λ x, saveIncrementalCSV (Some x) None) (World None out) =
      (Returned tt, World (fs (base d')) out') ∧
    fs (base d') =
      Some (CsvWriter.headerString +:+ CsvWriter.stringifyRecords (r :: rs)).
Proof.
  destruct (saves_one_by_one (r :: rs) (World None out)) as [out' Hloop].
  cbn [fs] in Hloop. rewrite appendRows_None in Hloop.
  eexists _, out'. split; [reflexivity|]. split; [exact Hloop|]. reflexivity.
Qed.

(** ** The cleaning script *)

Module CleanFacts.
Import CleanCsv.

Lemma keepLine_run line d :
  ∃ told, keepLine line d =
          (Returned (keptByCleaning line), Desk (base d) (reports d ++ told)).
Proof.
  unfold keepLine, keptByCleaning.
  destruct (JS.truthy (JS.trim line)); simpl.
  2: { exists []. by rewrite app_nil_r; destruct d. }
  rewrite Z.leb_antisym.
  destruct (0 <? JS.indexOf line ",")%Z; simpl.
  2: { exists []. by rewrite app_nil_r; destruct d. }
  destruct (isValidAlumni _); simpl.
  - exists []. by rewrite app_nil_r; destruct d.
  - by eexists [_].
Qed.

Lemma filterLines_run dataLines d :
  ∃ told, filterLines dataLines d =
          (Returned (List.filter keptByCleaning dataLines),
           Desk (base d) (reports d ++ told)).
Proof.
  revert d. induction dataLines as [|line rest IH]; intros d; simpl.
  - exists []. by rewrite app_nil_r; destruct d.
  - rewrite run_bind. destruct (keepLine_run line d) as [told1 ->].
    rewrite run_bind. destruct (IH (Desk (base d) (reports d ++ told1)))
      as [told2 ->]. simpl.
    exists (told1 ++ told2). rewrite app_assoc.
    by destruct (keptByCleaning line).
Qed.

(** What the script does to a file that can be read and written. *)
Lemma cleanCSV_run d stored :
  fs (base d) = Some stored →
  ∃ told, cleanCSV None None d =
          (Returned tt,
           Desk (World (Some (cleanedContent stored)) (console (base d)))
             (reports d ++ told)).
Proof.
  intros Hfs. unfold cleanCSV. rewrite run_bind.
  unfold onBase, zoom, gets at 1. rewrite Hfs.
  replace (Desk (base d) (reports d)) with d by (by destruct d).
  rewrite run_bind. unfold tell at 1, modify at 1.
  rewrite run_bind. unfold await at 1.
  rewrite run_bind. unfold tell at 1, modify at 1. cbn [base reports].
  rewrite run_bind.
  set (d1 := Desk _ _).
  destruct (filterLines_run (List.tl (JS.split JS.LF stored)) d1)
    as [told ->].
  eexists. unfold tell, modify, mbind, M_bind, bind, setFile, zoom. simpl.
  unfold cleanedContent. rewrite <- !app_assoc. reflexivity.
Qed.

Lemma cleanCSV_missing d :
  fs (base d) = None →
  cleanCSV None None d =
  (Returned tt, Desk (base d) (reports d ++ [CsvFileNotFound])).
Proof.
  intros Hfs. unfold cleanCSV. rewrite run_bind.
  unfold onBase, zoom, gets at 1. rewrite Hfs. by destruct d.
Qed.

Lemma split_cleanedContent stored :
  ∃ header dataLines,
    JS.split JS.LF stored = header :: dataLines ∧
    JS.split JS.LF (cleanedContent stored) =
      header :: List.filter keptByCleaning dataLines.
Proof.
  unfold cleanedContent.
  pose proof (split_lines_without JS.LF stored) as Hall.
  destruct (JS.split JS.LF stored) as [|header dataLines] eqn:Hs;
    [by apply split_nonempty in Hs|].
  exists header, dataLines. split; [done|]. simpl.
  apply split_join. inversion Hall as [|?? Hh Ht]; subst.
  constructor; [done|]. apply Forall_forall. intros l Hl.
  apply list_elem_of_In, filter_In in Hl as [Hl _].
  apply list_elem_of_In in Hl. by apply (proj1 (Forall_forall _ _) Ht).
Qed.

Lemma filter_filter {A} (p : A → bool) (xs : list A) :
  List.filter p (List.filter p xs) = List.filter p xs.
Proof.
  induction xs as [|x xs IH]; simpl; [done|].
  destruct (p x) eqn:Hp; simpl; [|done]. by rewrite Hp, IH.
Qed.

Lemma cleanedContent_idempotent stored :
  cleanedContent (cleanedContent stored) = cleanedContent stored.
Proof.
  destruct (split_cleanedContent stored) as (header & dataLines & Hs & Hc).
  unfold cleanedContent at 1. rewrite Hc. simpl. rewrite filter_filter.
  unfold cleanedContent. by rewrite Hs.
Qed.

End CleanFacts.
Import CleanFacts.

(** Property X5.  Running the cleaning script a second time changes
    nothing: when the file can be read and written both runs return, and
    the file after the second run is the file after the first. *)
Theorem cleaning_twice_is_cleaning_once d :
  ∃ d1 d2,
    CleanCsv.cleanCSV None None d = (Returned tt, d1) ∧
    CleanCsv.cleanCSV None None d1 = (Returned tt, d2) ∧
    fs (base d2) = fs (base d1).
Proof.
  destruct (fs (base d)) as [stored|] eqn:Hfs.
  - destruct (cleanCSV_run d stored Hfs) as [told Hrun].
    destruct (cleanCSV_run (Desk (World (Some (cleanedContent stored))
                                    (console (base d))) (reports d ++ told))
                (cleanedContent stored) eq_refl) as [told2 Hrun2].
    eexists _, _. split; [exact Hrun|]. split; [exact Hrun2|].
    simpl. by rewrite cleanedContent_idempotent.
  - eexists _, _. split; [by apply cleanCSV_missing|].
    split; [by apply cleanCSV_missing|]. done.
Qed.

Module CleanNameFacts.

(** The filter of the script asks for more than the filter of the
    crawler. *)
Lemma cleaning_filter_is_stricter nm :
  CleanCsv.isValidAlumni nm = true → isValidAlumni nm = true.
Proof.
  unfold CleanCsv.isValidAlumni, isValidAlumni.
  rewrite !andb_true_iff. tauto.
Qed.

Import CleanCsv.

(** A part of a valid name is a valid name. *)
Lemma valid_part p n :
  (∀ x, JS.includes n x = true → JS.includes p x = true) →
  String.length n ≤ String.length p →
  CleanCsv.isValidAlumni p = true → CleanCsv.isValidAlumni n = true.
Proof.
  intros Hinc Hlen. unfold CleanCsv.isValidAlumni.
  rewrite !andb_true_iff, !negb_true_iff, !Nat.ltb_lt.
  assert (∀ x, JS.includes p x = false → JS.includes n x = false) as Hno.
  { intros x Hx. destruct (JS.includes n x) eqn:Hn; [|done].
    apply Hinc in Hn. congruence. }
  intros ((((((((((H1 & H2) & H3) & H4) & H5) & H6) & H7) & H8) & H9) & H10)
          & H11).
  repeat split; try (by apply Hno). lia.
Qed.

Lemma keptByCleaning_decompose line :
  keptByCleaning line = true →
  ∃ p q, line = p +:+ String "," q ∧ CsvWriter.hasChar "," p = false ∧
         JS.truthy p = true ∧
         CleanCsv.isValidAlumni
           (if JS.startsWith p (String JS.DQ "") &&
               JS.endsWith p (String JS.DQ "")
            then JS.sliceInner p else p) = true.
Proof.
  unfold keptByCleaning. rewrite !andb_true_iff.
  intros [[_ Hpos] Hvalid]. apply Z.ltb_lt in Hpos.
  destruct (CsvWriter.hasChar "," line) eqn:Hcomma.
  2: { rewrite (indexOf_without _ _ Hcomma) in Hpos. lia. }
  destruct (hasChar_decompose _ _ Hcomma) as (p & q & -> & Hp).
  rewrite (indexOf_app_char _ _ _ Hp) in Hpos, Hvalid.
  exists p, q. split; [done|]. split; [done|].
  split; [destruct p; simpl in *; [lia | done]|].
  revert Hvalid. unfold nameOf, JS.substring.
  rewrite Nat2Z.id, Nat.sub_0_r. change (JS.drop 0 ?s) with s.
  by rewrite take_length_app.
Qed.

(** The name that [getExistingNames] reads from a line that the script
    keeps passes the filter of the script. *)
Lemma kept_line_has_valid_name line n :
  keptByCleaning line = true → nameOfLine line = Some n →
  CleanCsv.isValidAlumni n = true.
Proof.
  intros (p & q & -> & Hp & Hnonempty & Hvalid)%keptByCleaning_decompose.
  rewrite (nameOfLine_comma _ _ Hp). cbn zeta.
  destruct (JS.truthy (JS.trimStart p)); [|done]. intros [= <-].
  destruct p as [|c p]; [done|]. simpl JS.trimStart.
  destruct (JS.isSpace c) eqn:Hc; [|exact Hvalid].
  assert (JS.startsWith (String c p) (String JS.DQ "") = false) as Hq.
  { cbn [JS.startsWith].
    replace (Ascii.eqb JS.DQ c) with false; [done|].
    symmetry. apply Ascii.eqb_neq. by intros <-. }
  rewrite Hq in Hvalid. simpl in Hvalid.
  destruct (trimStart_drop p) as [k Hk]. rewrite Hk.
  apply (valid_part (String c p)); [| |done].
  - intros x Hx. apply includes_cons.
    destruct (_ && _).
    + unfold JS.sliceInner in Hx. apply includes_take, includes_drop in Hx.
      by apply includes_drop in Hx.
    + by apply includes_drop in Hx.
  - assert (String.length (JS.drop k p) ≤ String.length p)
      by apply length_drop_le.
    destruct (_ && _); simpl; [|lia]. unfold JS.sliceInner.
    pose proof (length_take_le (String.length (JS.drop k p) - 2)
                  (JS.drop 1 (JS.drop k p))).
    pose proof (length_drop_le 1 (JS.drop k p)). lia.
Qed.

Lemma elem_of_filter_bool {A} (p : A → bool) x xs :
  x ∈ List.filter p xs ↔ x ∈ xs ∧ p x = true.
Proof. rewrite !list_elem_of_In. apply filter_In. Qed.

End CleanNameFacts.
Import CleanNameFacts.

(** Property X6.  When the output file exists and can be read and
    written, the cleaning script returns and leaves a file whose names, as [getExistingNames] reads
    them, are names of the file it found, each of which passes the filter
    of the script and the filter of the crawler. *)
Theorem cleaning_leaves_valid_names_only d stored :
  fs (base d) = Some stored →
  ∃ d1 cleaned,
    CleanCsv.cleanCSV None None d = (Returned tt, d1) ∧
    fs (base d1) = Some cleaned ∧
    namesOfContent cleaned ⊆ namesOfContent stored ∧
    ∀ n, n ∈ namesOfContent cleaned →
         CleanCsv.isValidAlumni n = true ∧ isValidAlumni n = true.
Proof.
  intros Hfs. destruct (cleanCSV_run d stored Hfs) as [told Hrun].
  eexists _, (cleanedContent stored). split; [exact Hrun|].
  split; [done|].
  destruct (split_cleanedContent stored) as (header & dataLines & Hs & Hc).
  split.
  - intros n (line & Hin & Hname)%elem_of_namesOfContent.
    apply elem_of_namesOfContent. exists line. split; [|done].
    rewrite Hc in Hin. rewrite Hs. simpl in *.
    by apply elem_of_filter_bool in Hin as [? _].
  - intros n (line & Hin & Hname)%elem_of_namesOfContent.
    rewrite Hc in Hin. simpl in Hin.
    apply elem_of_filter_bool in Hin as [_ Hkept].
    pose proof (kept_line_has_valid_name _ _ Hkept Hname) as Hvalid.
    split; [done|]. by apply cleaning_filter_is_stricter.
Qed.

Lemma cleaning_leaves_valid_names_only_witness :
  ∃ d1 cleaned,
    CleanCsv.cleanCSV None None
      (Desk (World (Some Examples.fileWithFooterRow) []) []) =
      (Returned tt, d1) ∧
    fs (base d1) = Some cleaned ∧
    namesOfContent cleaned ⊆ namesOfContent Examples.fileWithFooterRow ∧
    ∀ n, n ∈ namesOfContent cleaned →
         CleanCsv.isValidAlumni n = true ∧ isValidAlumni n = true.
Proof.
  apply (cleaning_leaves_valid_names_only
           (Desk (World (Some Examples.fileWithFooterRow) []) [])
           Examples.fileWithFooterRow).
  reflexivity.
Defined.

Module GluedRowFacts.

(** What follows the first comma of a line plays no part in the name
    read from it. *)
Lemma nameOfLine_app line tail :
  CsvWriter.hasChar "," line = true →
  nameOfLine (line +:+ tail) = nameOfLine line.
Proof.
  intros (p & q & -> & Hp)%hasChar_decompose.
  rewrite append_assoc, append_cons.
  by rewrite !(nameOfLine_comma _ _ Hp).
Qed.

Lemma keptByCleaning_comma line :
  keptByCleaning line = true → CsvWriter.hasChar "," line = true.
Proof.
  intros (p & q & -> & _)%keptByCleaning_decompose.
  rewrite hasChar_append. simpl. apply orb_true_r.
Qed.

(** Gluing text without a line feed to the end of a cleaned file does not
    change the names read from it. *)
Lemma names_after_gluing stored row :
  CsvWriter.hasChar JS.LF row = false →
  namesOfContent (cleanedContent stored +:+ row +:+ String JS.LF "") =
  namesOfContent (cleanedContent stored).
Proof.
  intros Hrow. apply set_eq. intros n.
  rewrite !elem_of_namesOfContent.
  destruct (split_cleanedContent stored) as (header & dataLines & _ & Hc).
  rewrite <- append_assoc, split_app_sep.
  destruct (split_app_last JS.LF (cleanedContent stored) row Hrow)
    as (init & l & Hsplit & ->).
  rewrite Hc in Hsplit. rewrite Hc.
  change (JS.split JS.LF "") with [""].
  destruct init as [|h init]; simpl in Hsplit.
  - injection Hsplit as <- Hkept. rewrite Hkept. simpl. split.
    + intros (line & Hin & Hname).
      apply list_elem_of_singleton in Hin as ->. done.
    + intros (line & Hin & _). by apply elem_of_nil in Hin.
  - injection Hsplit as <- Hkept. rewrite Hkept. simpl.
    assert (keptByCleaning l = true) as Hl.
    { assert (l ∈ List.filter keptByCleaning dataLines) as Hin.
      { rewrite Hkept. apply elem_of_app. right. apply list_elem_of_here. }
      by apply elem_of_filter_bool in Hin as [_ ?]. }
    pose proof (nameOfLine_app l row (keptByCleaning_comma _ Hl)) as Hsame.
    split.
    + intros (line & Hin & Hname).
      rewrite <- app_assoc in Hin. apply elem_of_app in Hin as [Hin|Hin].
      * exists line. split; [|done]. apply elem_of_app. by left.
      * apply elem_of_cons in Hin as [->|Hin].
        -- exists l. split; [|congruence]. apply elem_of_app. right.
           apply list_elem_of_here.
        -- apply list_elem_of_singleton in Hin as ->. done.
    + intros (line & Hin & Hname).
      apply elem_of_app in Hin as [Hin|Hin].
      * exists line. split; [|done]. rewrite <- app_assoc.
        apply elem_of_app. by left.
      * apply list_elem_of_singleton in Hin as ->.
        exists (l +:+ row). split; [|congruence].
        rewrite <- app_assoc. apply elem_of_app. right.
        apply list_elem_of_here.
Qed.

Lemma saveIncrementalCSV_existing r stored out :
  saveIncrementalCSV (Some r) None (World (Some stored) out) =
  (Returned tt,
   World (Some (stored +:+ "" +:+ CsvWriter.stringifyRecords [r]))
     (out ++ [SavedToCSV (name r)])).
Proof. reflexivity. Qed.

End GluedRowFacts.
Import GluedRowFacts.

(** Property X7.  The cleaning script writes the file without a line
    break at its end, so the next row that [saveIncrementalCSV] appends
    (a row without a line break in a field) is joined to the last line:
    [getExistingNames] returns the same names after the append as before
    it. *)
Theorem row_appended_after_cleaning_is_not_read_back d stored r :
  fs (base d) = Some stored →
  CsvWriter.hasChar JS.LF (CsvWriter.recordLine r) = false →
  ∃ d1 w2 names w3 w4,
    CleanCsv.cleanCSV None None d = (Returned tt, d1) ∧
    getExistingNames None (base d1) = (Returned names, w3) ∧
    saveIncrementalCSV (Some r) None (base d1) = (Returned tt, w2) ∧
    getExistingNames None w2 = (Returned names, w4).
Proof.
  intros Hfs Hrow. destruct (cleanCSV_run d stored Hfs) as [told Hrun].
  eexists _, _, _, _, _. split; [exact Hrun|]. cbn [base].
  split; [apply getExistingNames_read|].
  split; [apply saveIncrementalCSV_existing|].
  rewrite getExistingNames_read.
  assert (namesOfContent
            (cleanedContent stored +:+ "" +:+ CsvWriter.stringifyRecords [r]) =
          namesOfContent (cleanedContent stored)) as Hsame.
  { rewrite append_nil_l.
    unfold CsvWriter.stringifyRecords, CsvWriter.joinRecords.
    cbn [fmap list_fmap JS.join]. by apply names_after_gluing. }
  rewrite Hsame. reflexivity.
Qed.

Lemma row_appended_after_cleaning_is_not_read_back_witness :
  ∃ d1 w2 names w3 w4,
    CleanCsv.cleanCSV None None
      (Desk (World (Some Examples.fileWithFooterRow) []) []) =
      (Returned tt, d1) ∧
    getExistingNames None (base d1) = (Returned names, w3) ∧
    saveIncrementalCSV (Some Examples.janeDoe) None (base d1) =
      (Returned tt, w2) ∧
    getExistingNames None w2 = (Returned names, w4).
Proof.
  apply (row_appended_after_cleaning_is_not_read_back
           (Desk (World (Some Examples.fileWithFooterRow) []) [])
           Examples.fileWithFooterRow Examples.janeDoe);
    reflexivity.
Defined.

(** ** The matcher finds the matches of a pattern, and only those *)

Module ReFacts.
Import Re.

Lemma lastOf_nil prev : lastOf prev "" = prev.
Proof. reflexivity. Qed.

Lemma lastOf_snoc prev s c : lastOf prev (s +:+ String c "") = Some c.
Proof. unfold lastOf. by rewrite rev_append. Qed.

Lemma lastOf_single prev c : lastOf prev (String c "") = Some c.
Proof. reflexivity. Qed.

Lemma lastOf_app prev s1 s2 :
  lastOf (lastOf prev s1) s2 = lastOf prev (s1 +:+ s2).
Proof.
  induction s2 as [|s2 c _] using string_rev_ind.
  - by rewrite append_nil_r.
  - by rewrite <- append_assoc, !lastOf_snoc.
Qed.

Lemma lastOf_cons prev c s : lastOf (Some c) s = lastOf prev (String c s).
Proof.
  change (String c s) with (String c "" +:+ s). by rewrite <- lastOf_app.
Qed.

Lemma length_app_lt s rest' :
  String.length rest' < String.length (s +:+ rest') → s ≠ "".
Proof. intros Hlt ->. rewrite append_nil_l in Hlt. lia. Qed.

Lemma rmatch_Star a cap prev rest k :
  rmatch (Star a) cap prev rest k =
  starLoop a k (S (String.length rest)) cap prev rest.
Proof. reflexivity. Qed.

(** Whatever the matcher returns comes from a match of the pattern
    followed by a success of the continuation. *)
Lemma rmatch_sound r : ∀ cap prev rest k out,
  rmatch r cap prev rest k = Some out →
  ∃ s rest' cap',
    rest = s +:+ rest' ∧ matches r prev s rest' ∧
    k cap' (lastOf prev s) rest' = Some out.
Proof.
  induction r as [|p|a IHa b IHb|a IHa b IHb|a IHa|a IHa| | |];
    intros cap prev rest k out; [| | | |rewrite rmatch_Star| | | |];
    cbn [rmatch].
  - intros Hk. exists "", rest, cap. split; [done|]. split; [constructor|done].
  - destruct rest as [|c rest]; [done|]. destruct (p c) eqn:Hp; [|done].
    intros Hk. exists (String c ""), rest, cap. split; [done|].
    split; [by constructor | done].
  - intros (s1 & rest1 & cap1 & -> & Ha & Hb)%IHa.
    apply IHb in Hb as (s2 & rest2 & cap2 & -> & Hb & Hk).
    exists (s1 +:+ s2), rest2, cap2. rewrite append_assoc. split; [done|].
    split; [by constructor|]. by rewrite <- lastOf_app.
  - destruct (rmatch a cap prev rest k) as [out'|] eqn:Ha.
    + intros [= <-]. apply IHa in Ha as (s & rest' & cap' & -> & Ha & Hk).
      exists s, rest', cap'. split; [done|]. split; [by apply MatchAltL | done].
    + intros (s & rest' & cap' & -> & Hb & Hk)%IHb.
      exists s, rest', cap'. split; [done|]. split; [by apply MatchAltR | done].
  - generalize (S (String.length rest)). intros fuel.
    revert cap prev rest. induction fuel as [|fuel IH]; intros cap prev rest.
    + intros Hk. exists "", rest, cap. split; [done|].
      split; [constructor | done].
    + cbn [starLoop].
      match goal with
      | |- context [rmatch a cap prev rest ?k'] =>
          destruct (rmatch a cap prev rest k') as [out'|] eqn:Ha
      end.
      * intros [= <-].
        apply IHa in Ha as (s1 & rest1 & cap1 & -> & Ha & Hloop).
        destruct (String.length rest1 <? String.length (s1 +:+ rest1))
          eqn:Hlt; [|done].
        apply Nat.ltb_lt, length_app_lt in Hlt.
        apply IH in Hloop as (s2 & rest2 & cap2 & -> & Hstar & Hk).
        exists (s1 +:+ s2), rest2, cap2. rewrite append_assoc.
        split; [done|]. split; [by constructor|].
        by rewrite <- lastOf_app.
      * intros Hk. exists "", rest, cap. split; [done|].
        split; [constructor | done].
  - intros (s & rest' & cap' & -> & Ha & Hk)%IHa.
    eexists s, rest', _. split; [done|]. split; [by constructor | exact Hk].
  - destruct (xorb _ _) eqn:Hx; [|done]. intros Hk.
    exists "", rest, cap. split; [done|]. split; [by constructor | done].
  - destruct prev; [done|]. intros Hk.
    exists "", rest, cap. split; [done|]. split; [by constructor | done].
  - destruct rest; [|done]. intros Hk.
    exists "", "", cap. split; [done|]. split; [by constructor | done].
Qed.

Lemma length_sub_app s rest' :
  JS.take (String.length (s +:+ rest') - String.length rest') (s +:+ rest') = s.
Proof.
  rewrite length_append.
  replace (String.length s + String.length rest' - String.length rest')
    with (String.length s) by lia.
  apply take_length_app.
Qed.

Lemma matchHere_sound r i prev rest f :
  matchHere r i prev rest = Some f →
  rest = text f +:+ after f ∧ matches r prev (text f) (after f) ∧
  index f = i ∧ before f = lastOf prev (text f).
Proof.
  unfold matchHere.
  destruct (rmatch r None prev rest _) as [[rest' cap]|] eqn:Hm; [|done].
  apply rmatch_sound in Hm as (s & rest1 & cap1 & -> & Hs & [= <- <-]).
  intros [= <-]. cbn [text after index before].
  by rewrite length_sub_app.
Qed.

Lemma searchFrom_sound r : ∀ rest i prev f,
  searchFrom r i prev rest = Some f →
  ∃ pre, rest = pre +:+ text f +:+ after f ∧
         matches r (lastOf prev pre) (text f) (after f) ∧
         index f = i + String.length pre ∧
         before f = lastOf (lastOf prev pre) (text f).
Proof.
  induction rest as [|c rest IH]; intros i prev f; cbn [searchFrom].
  - destruct (matchHere r i prev "") as [f'|] eqn:Hm; [|done].
    intros [= <-]. apply matchHere_sound in Hm as (? & ? & ? & ?).
    exists "". rewrite Nat.add_0_r. done.
  - destruct (matchHere r i prev (String c rest)) as [f'|] eqn:Hm.
    + intros [= <-]. apply matchHere_sound in Hm as (? & ? & ? & ?).
      exists "". rewrite Nat.add_0_r. done.
    + intros (pre & -> & Hs & Hi & Hb)%IH.
      exists (String c pre). rewrite append_cons. split; [done|].
      rewrite <- (lastOf_cons prev). split; [done|]. simpl. split; [lia|done].
Qed.

Lemma exec_sound r s f :
  exec r s = Some f →
  ∃ pre, s = pre +:+ text f +:+ after f ∧ index f = String.length pre ∧
         matches r (lastOf None pre) (text f) (after f).
Proof.
  intros (pre & ? & ? & ? & _)%searchFrom_sound. exists pre. done.
Qed.

Lemma matchAllFrom_sound r : ∀ fuel i prev rest m,
  m ∈ matchAllFrom fuel r i prev rest →
  ∃ prev' rest', matches r prev' m rest'.
Proof.
  induction fuel as [|fuel IH]; intros i prev rest m; cbn [matchAllFrom].
  { intros H. by apply elem_of_nil in H. }
  destruct (searchFrom r i prev rest) as [f|] eqn:Hs.
  2: { intros H. by apply elem_of_nil in H. }
  apply searchFrom_sound in Hs as (pre & _ & Hm & _).
  destruct (text f) as [|c t] eqn:Ht; [destruct (after f) as [|c' a']|].
  - intros ->%list_elem_of_singleton. eauto.
  - intros [->|Hin]%elem_of_cons; [eauto|]. by eapply IH.
  - intros [->|Hin]%elem_of_cons; [eauto|]. by eapply IH.
Qed.

(** Every text that [matchAll] returns is matched by the pattern
    somewhere. *)
Lemma matchAll_sound r s m :
  m ∈ matchAll r s → ∃ prev rest, matches r prev m rest.
Proof. apply matchAllFrom_sound. Qed.

(** *** The matcher finds a match when there is one *)

Lemma rmatch_ext r : ∀ cap prev rest k1 k2,
  (∀ c p s, k1 c p s = k2 c p s) →
  rmatch r cap prev rest k1 = rmatch r cap prev rest k2.
Proof.
  induction r as [|p|a IHa b IHb|a IHa b IHb|a IHa|a IHa| | |];
    intros cap prev rest k1 k2 Hk; [| | | |rewrite !rmatch_Star| | | |];
    cbn [rmatch].
  - apply Hk.
  - destruct rest as [|c rest]; [done|]. destruct (p c); [apply Hk | done].
  - apply IHa. intros c p s. by apply IHb.
  - by rewrite (IHa _ _ _ k1 k2 Hk), (IHb _ _ _ k1 k2 Hk).
  - generalize (S (String.length rest)). intros fuel.
    revert cap prev rest. induction fuel as [|fuel IH]; intros cap prev rest;
      cbn [starLoop]; [apply Hk|].
    rewrite (IHa cap prev rest _
               (λ cap' prev' rest',
                  if String.length rest' <? String.length rest
                  then starLoop a k2 fuel cap' prev' rest' else None)).
    + by rewrite Hk.
    + intros c p s. destruct (_ <? _); [apply IH | done].
  - apply IHa. intros c p s. apply Hk.
  - destruct (xorb _ _); [apply Hk | done].
  - destruct prev; [done | apply Hk].
  - destruct rest; [apply Hk | done].
Qed.

(** More iterations than the input has code units are never used. *)
Lemma starLoop_fuel a k : ∀ rest fuel1 fuel2 cap prev,
  String.length rest < fuel1 → String.length rest < fuel2 →
  starLoop a k fuel1 cap prev rest = starLoop a k fuel2 cap prev rest.
Proof.
  intros rest. remember (String.length rest) as n eqn:Hn.
  revert rest Hn. induction (lt_wf n) as [n _ IH].
  intros rest -> [|fuel1] [|fuel2] cap prev H1 H2; try lia.
  cbn [starLoop]. erewrite rmatch_ext; [reflexivity|].
  intros c p s. cbv beta.
  destruct (String.length s <? String.length rest) eqn:Hlt; [|done].
  apply Nat.ltb_lt in Hlt. apply (IH _ Hlt s eq_refl); lia.
Qed.

Lemma rmatch_complete r prev s rest' :
  matches r prev s rest' →
  ∀ cap k, (∀ cap', is_Some (k cap' (lastOf prev s) rest')) →
           is_Some (rmatch r cap prev (s +:+ rest') k).
Proof.
  induction 1 as [prev rest|p c prev rest Hp
                 |a b prev s1 s2 rest _ IHa _ IHb
                 |a b prev s rest _ IHa|a b prev s rest _ IHb
                 |a prev rest|a prev s1 s2 rest Hne _ IHa _ IHstar
                 |a prev s rest _ IHa|prev rest Hx|rest|prev];
    intros cap k Hk.
  - apply Hk.
  - cbn [rmatch]. rewrite append_cons, append_nil_l, Hp. apply Hk.
  - cbn [rmatch]. rewrite append_assoc. apply IHa. intros cap1.
    apply IHb. intros cap2. rewrite lastOf_app. apply Hk.
  - cbn [rmatch]. destruct (IHa cap k Hk) as [out ->]. done.
  - cbn [rmatch]. destruct (rmatch a cap prev (s +:+ rest) k); [done|].
    by apply IHb.
  - rewrite rmatch_Star. cbn [starLoop].
    destruct (rmatch a cap prev _ _); [done|]. apply Hk.
  - rewrite rmatch_Star. cbn [starLoop].
    match goal with
    | |- is_Some (match ?m with _ => _ end) =>
        assert (is_Some m) as [out ->]; [|done]
    end.
    rewrite append_assoc. apply IHa. intros cap1.
    assert ((String.length (s2 +:+ rest) <?
             String.length (s1 +:+ s2 +:+ rest)) = true) as ->.
    { apply Nat.ltb_lt. rewrite (length_append s1).
      destruct s1; [done|]. simpl. lia. }
    rewrite (starLoop_fuel a k _ _ (S (String.length (s2 +:+ rest)))).
    + rewrite <- rmatch_Star. apply IHstar. intros cap2.
      rewrite lastOf_app. apply Hk.
    + rewrite (length_append s1). destruct s1; [done|]. simpl. lia.
    + lia.
  - cbn [rmatch]. apply IHa. intros _. apply Hk.
  - cbn [rmatch]. rewrite append_nil_l, Hx. apply Hk.
  - apply Hk.
  - apply Hk.
Qed.

Lemma matchHere_complete r i prev s rest' :
  matches r prev s rest' → is_Some (matchHere r i prev (s +:+ rest')).
Proof.
  intros Hm. unfold matchHere.
  destruct (rmatch_complete _ _ _ _ Hm None (λ cap _ rest1, Some (rest1, cap)))
    as [[rest1 cap1] ->]; [by eexists|]. by eexists.
Qed.

Lemma searchFrom_complete r s rest' : ∀ pre i prev,
  matches r (lastOf prev pre) s rest' →
  is_Some (searchFrom r i prev (pre +:+ s +:+ rest')).
Proof.
  induction pre as [|c pre IH]; intros i prev Hm.
  - rewrite append_nil_l.
    destruct (matchHere_complete r i prev s rest' Hm) as [f Hf].
    destruct (s +:+ rest'); cbn [searchFrom]; rewrite Hf; by eexists.
  - rewrite append_cons. cbn [searchFrom].
    destruct (matchHere r i prev _); [by eexists|].
    apply IH. by rewrite (lastOf_cons prev).
Qed.

(** [test] answers yes exactly when the pattern matches somewhere in the
    text. *)
Lemma test_iff r text :
  test r text = true ↔
  ∃ pre s rest, text = pre +:+ s +:+ rest ∧ matches r (lastOf None pre) s rest.
Proof.
  unfold test. split.
  - destruct (exec r text) as [f|] eqn:Hf; [|done]. intros _.
    apply exec_sound in Hf as (pre & ? & _ & ?). by eexists _, _, _.
  - intros (pre & s & rest & -> & Hm). unfold exec.
    by destruct (searchFrom_complete r s rest pre 0 None Hm) as [f ->].
Qed.

(** *** Matches of the constructs, one by one *)

Lemma matches_Eps prev s rest : matches Eps prev s rest ↔ s = "".
Proof. split; [by inversion 1 | intros ->; constructor]. Qed.

Lemma matches_Chr p prev s rest :
  matches (Chr p) prev s rest ↔ ∃ c, s = String c "" ∧ p c = true.
Proof.
  split; [inversion 1; eauto | intros (c & -> & Hp); by constructor].
Qed.

Lemma matches_Seq a b prev s rest :
  matches (Seq a b) prev s rest ↔
  ∃ s1 s2, s = s1 +:+ s2 ∧ matches a prev s1 (s2 +:+ rest) ∧
           matches b (lastOf prev s1) s2 rest.
Proof.
  split; [inversion 1; subst; eauto|].
  intros (s1 & s2 & -> & Ha & Hb). by constructor.
Qed.

Lemma matches_Alt a b prev s rest :
  matches (Alt a b) prev s rest ↔
  matches a prev s rest ∨ matches b prev s rest.
Proof.
  split; [inversion 1; subst; auto|].
  intros [H|H]; [by apply MatchAltL | by apply MatchAltR].
Qed.

Lemma matches_Eol prev s rest :
  matches Eol prev s rest ↔ s = "" ∧ rest = "".
Proof. split; [by inversion 1 | intros [-> ->]; constructor]. Qed.

End ReFacts.

(** ** Properties of the state that a computation keeps *)

Section Maintained.
Context {S : Type} (P : S → Prop).

Lemma maintains_ret {A} (a : A) : maintains P (ret a).
Proof. by intros s o s' [= <- <-]. Qed.

Lemma maintains_mret {A} (a : A) : maintains P (mret a).
Proof. apply maintains_ret. Qed.

Lemma maintains_throw {A} e : maintains P (@throw S A e).
Proof. by intros s o s' [= <- <-]. Qed.

Lemma maintains_await {A} (x : outcome A) : maintains P (await x).
Proof. by intros s o s' [= <- <-]. Qed.

Lemma maintains_gets {A} (f : S → A) : maintains P (gets f).
Proof. by intros s o s' [= <- <-]. Qed.

Lemma maintains_modify (f : S → S) :
  (∀ s, P s → P (f s)) → maintains P (modify f).
Proof. intros Hf s o s' [= <- <-]. apply Hf. Qed.

Lemma maintains_bind {A B} (m : M S A) (f : A → M S B) :
  maintains P m → (∀ a, maintains P (f a)) → maintains P (m ≫= f).
Proof.
  intros Hm Hf s o s'. rewrite run_bind.
  destruct (m s) as [[a|e] s1] eqn:Hrun.
  - intros Hk HP. eapply Hf; [exact Hk|]. by eapply Hm.
  - intros [= <- <-]. by eapply Hm.
Qed.

Lemma maintains_tryCatch {A} (m : M S A) h :
  maintains P m → (∀ e, maintains P (h e)) → maintains P (tryCatch m h).
Proof.
  intros Hm Hh s o s'. unfold tryCatch.
  destruct (m s) as [[a|e] s1] eqn:Hrun.
  - intros [= <- <-]. by eapply Hm.
  - intros Hk HP. eapply Hh; [exact Hk|]. by eapply Hm.
Qed.

Lemma maintains_forOf {A} (xs : list A) (body : A → M S unit) :
  (∀ x, x ∈ xs → maintains P (body x)) → maintains P (forOf xs body).
Proof.
  induction xs as [|x xs IH]; intros Hbody; simpl.
  - apply maintains_ret.
  - apply maintains_bind; [apply Hbody, list_elem_of_here|].
    intros _. apply IH. intros y Hy. by apply Hbody, list_elem_of_further.
Qed.
End Maintained.

(** A computation that leaves a part of the state alone keeps every
    property of that part. *)
Lemma maintains_preserved {S X A} (part : S → X) (Q : X → Prop) (m : M S A) :
  preserves part m → maintains (λ s, Q (part s)) m.
Proof. intros Hm s o s' Hrun. by rewrite (Hm _ _ _ Hrun). Qed.

Create HintDb kept discriminated.
#[export] Hint Resolve maintains_ret maintains_mret maintains_throw
  maintains_await maintains_gets : kept.

Ltac kept_step :=
  first
    [ apply maintains_forOf; intros ? ?
    | apply maintains_bind; [| intros ?]
    | apply maintains_tryCatch; [| intros ?]
    | progress auto with kept
    | match goal with
      | |- maintains _ (if ?x then _ else _) => destruct x eqn:?
      | |- maintains _ (match ?x with _ => _ end) => destruct x eqn:?
      end ].
Ltac kept := repeat kept_step.

(** ** Links, phone numbers and emails of a profile *)

Module ContactFacts.
Import Profile ProfileFacts.

Lemma uniq_subseteq seen xs x : x ∈ JS.uniq seen xs → x ∈ xs.
Proof.
  revert seen. induction xs as [|y xs IH]; intros seen; simpl; [done|].
  case_bool_decide.
  - intros Hx. apply list_elem_of_further. by eapply IH.
  - intros [->|Hx]%elem_of_cons; [apply list_elem_of_here|].
    apply list_elem_of_further. by eapply IH.
Qed.

Lemma Forall_uniq {Q : string → Prop} xs : Forall Q xs → Forall Q (JS.uniq [] xs).
Proof.
  rewrite !Forall_forall. intros H x Hx. by apply H, (uniq_subseteq []).
Qed.

(** Steps that read the page and write to the console or to other
    variables. *)
Ltac untouched :=
  kept;
  try (apply maintains_modify;
       let v := fresh "v" in let HP := fresh "HP" in intros v HP; exact HP).

(** A property of the variables that every step of the profile visit
    keeps, provided the steps that push to the lists keep it. *)
Section Visit.
Variable P : Vars.t → Prop.
Hypothesis P_say : ∀ n, maintains P (say n).
Hypothesis P_pushSkill : ∀ k, maintains P (pushSkill k).
Hypothesis P_removeDuplicates : maintains P removeDuplicates.
Hypothesis P_extractUrls : ∀ env, maintains P (extractUrls env).
Hypothesis P_extractPhones : ∀ env, maintains P (extractPhones env).
Hypothesis P_emailsInText : ∀ text, maintains P (emailsInText text).
Hypothesis P_emailFromHref : ∀ h, maintains P (emailFromHref h).
Hypothesis P_emailsAfterClick : ∀ el, maintains P (emailsAfterClick el).
Hypothesis P_emailsFromPage : ∀ env, maintains P (emailsFromPage env).

Lemma visit_emailsFromSelector env selector :
  maintains P (emailsFromSelector env selector).
Proof.
  unfold emailsFromSelector.
  apply maintains_tryCatch; [|intros; apply P_say].
  case_bool_decide.
  - kept.
  - apply maintains_bind; [kept|]. intros emailElements.
    apply maintains_forOf. intros emailEl _. kept.
Qed.

Lemma visit_clickButtons allButtons : maintains P (clickButtons allButtons).
Proof.
  induction allButtons as [|[button afterClick] rest IH]; simpl; [kept|].
  apply maintains_bind; [kept|]. intros buttonText.
  match goal with |- maintains _ (if ?c then _ else _) => destruct c end;
    [|exact IH].
  apply maintains_bind.
  - apply maintains_tryCatch; [|intros; kept].
    apply maintains_bind; [kept|]. intros _.
    apply maintains_bind; [kept|]. intros quickEmailCheck.
    destruct (0 <? length quickEmailCheck); [|kept].
    apply maintains_bind; [|intros; kept].
    apply maintains_forOf. intros el _. apply P_emailsAfterClick.
  - intros []; [kept | exact IH].
Qed.

Lemma visit_whenNoEmails m : maintains P m → maintains P (whenNoEmails m).
Proof. intros Hm. unfold whenNoEmails. kept. Qed.

Lemma visit_contactsBlock env : maintains P (contactsBlock env).
Proof.
  unfold contactsBlock.
  apply maintains_bind; [apply P_extractUrls|]. intros _.
  apply maintains_bind; [apply P_extractPhones|]. intros _.
  apply maintains_bind.
  { apply maintains_forOf. intros selector _.
    apply visit_emailsFromSelector. }
  intros _. apply maintains_bind.
  { apply visit_whenNoEmails, P_emailsFromPage. }
  intros _. apply maintains_bind; [|intros _; apply P_removeDuplicates].
  apply visit_whenNoEmails.
  apply maintains_tryCatch; [|intros; apply P_say].
  apply maintains_bind; [kept|]. intros allButtons. apply visit_clickButtons.
Qed.

Lemma visit_skillFromPatterns patterns pageText :
  maintains P (skillFromPatterns patterns pageText).
Proof.
  induction patterns as [|pattern rest IH]; simpl; [kept|].
  destruct (Re.exec pattern pageText) as [m|]; [|exact IH].
  destruct (Re.group m) as [captured|]; [|exact IH].
  destruct (JS.truthy captured); [apply P_pushSkill | exact IH].
Qed.

Lemma visit_visitProfile env : maintains P (visitProfile env).
Proof.
  unfold visitProfile.
  apply maintains_bind.
  { unfold extractName, nameFromText. kept. }
  intros name. apply maintains_bind.
  { unfold findProfileLink, alternativeLink. kept. }
  intros [profileLink|]; [|kept].
  apply maintains_bind; [kept|]. intros _. cbv zeta.
  apply maintains_bind.
  { unfold extractContacts.
    apply maintains_tryCatch; [apply visit_contactsBlock|].
    intros; apply P_say. }
  intros _. apply maintains_bind.
  { unfold careerSupportOf. kept. }
  intros careerSupport. apply maintains_bind.
  { unfold professionalContactOf. kept. }
  intros professionalContact. apply maintains_bind.
  { unfold extractSkills, skillsBlock.
    apply maintains_tryCatch; [|intros; apply P_say].
    apply maintains_bind; [kept|]. intros section.
    apply maintains_bind.
    { destruct (_ && _); [apply P_pushSkill | kept]. }
    intros _. apply maintains_bind; [kept|]. intros found.
    case_bool_decide; [|kept].
    apply maintains_bind; [kept|]. intros pageText.
    apply visit_skillFromPatterns. }
  intros _. kept.
Qed.

(** What holds of the variables at the start of a visit and is kept by
    its steps holds of the variables the record is made from. *)
Lemma visit_record env out r v' :
  P (Vars.init out) →
  extractAlumniFromElementIn env (Vars.init out) = (Returned (Some r), v') →
  P v' ∧
  ∃ nm cs pc,
    r = makeRecord env nm (degreeOf env) (orNA (locationValue env))
          (orNA (companyValue env)) cs pc v'.
Proof.
  intros Hinit Hrun.
  apply RecordFacts.extractAlumniFromElementIn_record in Hrun.
  split; [by apply (visit_visitProfile env _ _ _ Hrun)|].
  apply RecordFacts.visitProfile_record in Hrun as (nm & cs & pc & _ & -> & _).
  by exists nm, cs, pc.
Qed.

End Visit.

Lemma urls_removeDuplicates : maintains urlsExternal removeDuplicates.
Proof. apply maintains_modify. intros v Hv. by apply Forall_uniq. Qed.

Lemma urls_pushUrl url :
  isExternal url = true → maintains urlsExternal (pushUrl (urlEntry url)).
Proof.
  intros Hext. apply maintains_modify. intros v Hv. apply Forall_app.
  split; [done|]. constructor; [|done]. by exists url.
Qed.

Lemma urls_urlFromLink urlEl : maintains urlsExternal (urlFromLink urlEl).
Proof.
  unfold urlFromLink. kept.
  match goal with
  | H : _ && isExternal _ = true |- _ => apply andb_true_iff in H as [_ H]
  end.
  by apply urls_pushUrl.
Qed.

Lemma urls_urlFromText url : maintains urlsExternal (urlFromText url).
Proof.
  unfold urlFromText. kept.
  match goal with
  | H : _ && isExternal _ = true |- _ => apply andb_true_iff in H as [_ H]
  end.
  by apply urls_pushUrl.
Qed.

Lemma urls_say n : maintains urlsExternal (say n).
Proof. untouched. Qed.

Lemma urls_extractUrls env : maintains urlsExternal (extractUrls env).
Proof.
  unfold extractUrls.
  apply maintains_tryCatch; [|intros; apply urls_say].
  apply maintains_bind.
  - apply maintains_forOf. intros selector _.
    apply maintains_bind; [kept|]. intros urlElements.
    apply maintains_forOf. intros urlEl _. apply urls_urlFromLink.
  - intros _. apply maintains_bind; [kept|]. intros pageText.
    apply maintains_forOf. intros url _. apply urls_urlFromText.
Qed.

Lemma urls_extractPhones env : maintains urlsExternal (extractPhones env).
Proof.
  unfold extractPhones, phonesFromElement, addPhone, addPlausiblePhone.
  untouched.
Qed.

Lemma urls_visit env out r v' :
  extractAlumniFromElementIn env (Vars.init out) = (Returned (Some r), v') →
  urlsExternal v' ∧
  ∃ nm cs pc,
    r = makeRecord env nm (degreeOf env) (orNA (locationValue env))
          (orNA (companyValue env)) cs pc v'.
Proof.
  apply visit_record.
  - apply urls_say.
  - intros. untouched.
  - apply urls_removeDuplicates.
  - apply urls_extractUrls.
  - apply urls_extractPhones.
  - intros. unfold emailsInText. untouched.
  - intros. unfold emailFromHref. untouched.
  - intros. unfold emailsAfterClick. untouched.
  - intros. unfold emailsFromPage. untouched.
  - constructor.
Qed.

End ContactFacts.
Import ContactFacts.

(** Property X8.  The URLs field of an extracted record is the
    comma-joined list of entries (or N/A), each made from a link that
    contains none of the internal site names, and each labelled LinkedIn
    or Website. *)
Theorem urls_column_lists_external_links_only r :
  extracted r →
  ∃ entries,
    urls r = JS.orElse (JS.join ", " entries) NA ∧
    ∀ entry, entry ∈ entries →
      ∃ url, entry = Profile.urlEntry url ∧
             (∀ site, site ∈ Profile.internalSites →
                JS.includes url site = false) ∧
             (entry = "LinkedIn: " +:+ url ∨ entry = "Website: " +:+ url).
Proof.
  intros (env & w & w' & Hrun). unfold extractAlumniFromElement in Hrun.
  destruct (extractAlumniFromElementIn env (Vars.init (console w)))
    as [result v] eqn:Hin.
  injection Hrun as -> _.
  apply urls_visit in Hin as [Hurls (nm & cs & pc & ->)].
  exists (Vars.urls v). split; [done|].
  intros entry Hentry.
  apply (proj1 (Forall_forall _ _) Hurls) in Hentry as (url & -> & Hext).
  exists url. split; [done|]. split.
  - intros site Hsite. unfold Profile.isExternal in Hext.
    rewrite forallb_forall in Hext. apply list_elem_of_In in Hsite.
    apply Hext in Hsite. by apply negb_true_iff in Hsite.
  - unfold Profile.urlEntry. destruct (JS.includes url "linkedin.com"); auto.
Qed.

Lemma urls_column_lists_external_links_only_witness :
  ∃ r w',
    extractAlumniFromElement Sample.cardWithFailingEmailSearch
      Sample.freshWorld = (Returned (Some r), w') ∧
    ∃ entries,
      urls r = JS.orElse (JS.join ", " entries) NA ∧
      ∀ entry, entry ∈ entries →
        ∃ url, entry = Profile.urlEntry url ∧
               (∀ site, site ∈ Profile.internalSites →
                  JS.includes url site = false) ∧
               (entry = "LinkedIn: " +:+ url ∨ entry = "Website: " +:+ url).
Proof.
  destruct (extractAlumniFromElement Sample.cardWithFailingEmailSearch
              Sample.freshWorld) as [[[r|]|e] w'] eqn:Hrun;
    try (vm_compute in Hrun; discriminate).
  exists r, w'. split; [reflexivity|].
  apply (urls_column_lists_external_links_only r).
  exact (ex_intro _ Sample.cardWithFailingEmailSearch
           (ex_intro _ Sample.freshWorld (ex_intro _ w' Hrun))).
Defined.

Import ReFacts.

Module PhoneEmailFacts.
Import Profile ProfileFacts.

Lemma matches_alts rs prev s rest :
  matches (Re.alts rs) prev s rest → ∃ r, r ∈ rs ∧ matches r prev s rest.
Proof.
  induction rs as [|r rs IH]; simpl.
  - inversion 1; subst. discriminate.
  - destruct rs as [|r2 rs].
    + intros H. exists r. split; [apply list_elem_of_here | done].
    + inversion 1; subst.
      * exists r. split; [apply list_elem_of_here | done].
      * destruct IH as (r' & Hin & Hm); [done|].
        exists r'. split; [by apply list_elem_of_further | done].
Qed.

Lemma phones_addPhone m :
  (∃ pattern prev rest, pattern ∈ phonePatterns ∧ matches pattern prev m rest) →
  maintains phonesDistinct (addPhone m).
Proof.
  intros (pattern & prev & rest & Hin & Hm). unfold addPhone.
  intros v o v'. rewrite run_bind. unfold gets at 1.
  case_bool_decide as Hknown; [by intros [= <- <-]|].
  intros [= <- <-] [Hnd Hall]. split; simpl.
  - apply NoDup_app. split; [done|]. split; [|apply NoDup_singleton].
    intros x Hx ->%list_elem_of_singleton. done.
  - apply Forall_app. split; [done|]. constructor; [|done].
    by exists pattern, prev, m, rest.
Qed.

Lemma phones_addPlausiblePhone m :
  (∃ pattern prev rest, pattern ∈ phonePatterns ∧ matches pattern prev m rest) →
  maintains phonesDistinct (addPlausiblePhone m).
Proof.
  intros (pattern & prev & rest & Hin & Hm). unfold addPlausiblePhone.
  intros v o v'. rewrite run_bind. unfold gets at 1.
  destruct (_ && negb (bool_decide _)) eqn:Hc; [|by intros [= <- <-]].
  apply andb_true_iff in Hc as [_ Hc]. apply negb_true_iff in Hc.
  apply bool_decide_eq_false in Hc.
  intros [= <- <-] [Hnd Hall]. split; simpl.
  - apply NoDup_app. split; [done|]. split; [|apply NoDup_singleton].
    intros x Hx ->%list_elem_of_singleton. done.
  - apply Forall_app. split; [done|]. constructor; [|done].
    by exists pattern, prev, m, rest.
Qed.

Lemma phones_say n : maintains phonesDistinct (say n).
Proof. untouched. Qed.

Lemma phones_extractPhones env : maintains phonesDistinct (extractPhones env).
Proof.
  unfold extractPhones.
  apply maintains_tryCatch; [|intros; apply phones_say].
  apply maintains_bind; [kept|]. intros contactText.
  apply maintains_bind.
  { destruct (JS.truthy contactText); [|kept].
    apply maintains_forOf. intros pattern Hpattern.
    apply maintains_forOf. intros m Hm. apply phones_addPhone.
    apply matchAll_sound in Hm as (prev & rest & Hm). by eexists _, _, _. }
  intros _. apply maintains_bind.
  { apply maintains_forOf. intros selector _.
    apply maintains_tryCatch; [|intros; kept].
    apply maintains_bind; [kept|]. intros phoneElements.
    apply maintains_forOf. intros phoneEl _. unfold phonesFromElement.
    apply maintains_bind; [kept|]. intros [phoneText|]; [|kept].
    destruct (_ && _); [|kept].
    apply maintains_forOf. intros m Hm. apply phones_addPhone.
    apply matchAll_sound in Hm as (prev & rest & Hm).
    apply matches_alts in Hm as (pattern & Hin & Hm). by eexists _, _, _. }
  intros _. apply maintains_bind; [kept|]. intros known.
  case_bool_decide; [|kept].
  apply maintains_bind; [kept|]. intros pageText.
  apply maintains_forOf. intros pattern Hpattern.
  apply maintains_forOf. intros m Hm. apply phones_addPlausiblePhone.
  apply matchAll_sound in Hm as (prev & rest & Hm). by eexists _, _, _.
Qed.

Lemma phones_removeDuplicates : maintains phonesDistinct removeDuplicates.
Proof.
  apply maintains_modify. intros v [Hnd Hall]. split; simpl.
  - apply uniq_NoDup.
  - by apply Forall_uniq.
Qed.

Lemma phones_visit env out r v' :
  extractAlumniFromElementIn env (Vars.init out) = (Returned (Some r), v') →
  phonesDistinct v' ∧
  ∃ nm cs pc,
    r = makeRecord env nm (degreeOf env) (orNA (locationValue env))
          (orNA (companyValue env)) cs pc v'.
Proof.
  apply visit_record.
  - apply phones_say.
  - intros. untouched.
  - apply phones_removeDuplicates.
  - intros. unfold extractUrls, urlFromLink, urlFromText. untouched.
  - apply phones_extractPhones.
  - intros. unfold emailsInText. untouched.
  - intros. unfold emailFromHref. untouched.
  - intros. unfold emailsAfterClick. untouched.
  - intros. unfold emailsFromPage. untouched.
  - split; constructor.
Qed.

Lemma includes_refl_app x b : JS.startsWith (x +:+ b) x = true.
Proof.
  induction x as [|c x IH]; [by destruct b|]. rewrite append_cons. simpl.
  by rewrite Ascii.eqb_refl, IH.
Qed.

Lemma includes_app_mid a x b : JS.includes (a +:+ x +:+ b) x = true.
Proof.
  induction a as [|c a IH].
  - rewrite append_nil_l. destruct (x +:+ b) eqn:Hxb; cbn [JS.includes];
      rewrite <- Hxb, includes_refl_app; done.
  - rewrite append_cons. by apply includes_cons.
Qed.

Lemma matches_lit_char c (r : Re.regex) prev s rest :
  matches (Re.Seq (Re.Chr (Ascii.eqb c)) r) prev s rest →
  ∃ s', s = String c s'.
Proof.
  inversion 1; subst.
  match goal with
  | H : matches (Re.Chr _) _ _ _ |- _ => inversion H; subst
  end.
  match goal with
  | H : Ascii.eqb _ _ = true |- _ => apply Ascii.eqb_eq in H as ->
  end.
  rewrite append_cons, append_nil_l. eauto.
Qed.

(** Every text that the email pattern matches has an at sign. *)
Lemma emailPattern_at prev m rest :
  matches emailPattern prev m rest → JS.includes m "@" = true.
Proof.
  unfold emailPattern. cbn [Re.seqs].
  inversion 1; subst.
  match goal with
  | H : matches (Re.Seq (Re.Seq (Re.Chr _) Re.Eps) _) _ _ _ |- _ =>
      inversion H; subst
  end.
  match goal with
  | H : matches (Re.Seq (Re.Chr (Ascii.eqb "@")) Re.Eps) _ _ _ |- _ =>
      apply matches_lit_char in H as [s' ->]
  end.
  change (String "@" s') with ("@" +:+ s').
  rewrite append_assoc. apply includes_app_mid.
Qed.

Lemma emails_pushEmail e :
  JS.includes e "@" = true → maintains emailsHaveAt (pushEmail e).
Proof.
  intros He. apply maintains_modify. intros v Hv. apply Forall_app.
  split; [done|]. by constructor.
Qed.

Lemma emails_emailsInText text : maintains emailsHaveAt (emailsInText text).
Proof.
  unfold emailsInText. destruct text as [text|]; [|kept].
  destruct (_ && _); [|kept].
  apply maintains_forOf. intros m Hm. apply emails_pushEmail.
  apply matchAll_sound in Hm as (prev & rest & Hm). by eapply emailPattern_at.
Qed.

Lemma emails_emailFromHref h : maintains emailsHaveAt (emailFromHref h).
Proof.
  unfold emailFromHref. destruct h as [h|]; [|kept].
  destruct (JS.truthy h && JS.includes h "mailto:").
  - destruct (JS.includes _ "@") eqn:Hat; [by apply emails_pushEmail | kept].
  - destruct (JS.truthy h && JS.includes h "@") eqn:Hat; [|kept].
    apply andb_true_iff in Hat as [_ Hat]. by apply emails_pushEmail.
Qed.

Lemma emails_emailsAfterClick el : maintains emailsHaveAt (emailsAfterClick el).
Proof.
  unfold emailsAfterClick. apply maintains_bind; [kept|].
  intros [h|]; [|kept]. destruct (_ && _); [|kept].
  destruct (JS.includes _ "@") eqn:Hat; [by apply emails_pushEmail | kept].
Qed.

Lemma emails_emailsFromPage env : maintains emailsHaveAt (emailsFromPage env).
Proof.
  unfold emailsFromPage. apply maintains_bind; [kept|]. intros pageText.
  apply maintains_forOf. intros m Hm. destruct (_ && _); [|kept].
  apply emails_pushEmail.
  apply matchAll_sound in Hm as (prev & rest & Hm). by eapply emailPattern_at.
Qed.

Lemma emails_visit env out r v' :
  extractAlumniFromElementIn env (Vars.init out) = (Returned (Some r), v') →
  emailsHaveAt v' ∧
  ∃ nm cs pc,
    r = makeRecord env nm (degreeOf env) (orNA (locationValue env))
          (orNA (companyValue env)) cs pc v'.
Proof.
  apply visit_record.
  - intros. untouched.
  - intros. untouched.
  - apply maintains_modify. intros v Hv. by apply Forall_uniq.
  - intros. unfold extractUrls, urlFromLink, urlFromText. untouched.
  - intros. unfold extractPhones, phonesFromElement, addPhone,
      addPlausiblePhone. untouched.
  - apply emails_emailsInText.
  - apply emails_emailFromHref.
  - apply emails_emailsAfterClick.
  - apply emails_emailsFromPage.
  - constructor.
Qed.

End PhoneEmailFacts.
Import PhoneEmailFacts.

(** Property X9.  The phone field of an extracted record is the
    comma-joined list of the phone numbers collected (or N/A); no number
    is listed twice, and every number is the trimmed text of a match of
    one of the five phone patterns.  This holds also when the contact
    block fails half way. *)
Theorem phone_column_lists_each_number_once env out r v' :
  extractAlumniFromElementIn env (Vars.init out) = (Returned (Some r), v') →
  phone r = JS.orElse (JS.join ", " (Vars.phones v')) NA ∧
  NoDup (Vars.phones v') ∧
  ∀ number, number ∈ Vars.phones v' → phoneShaped number.
Proof.
  intros Hrun. apply phones_visit in Hrun as [[Hnd Hall] (nm & cs & pc & ->)].
  split; [done|]. split; [done|]. by apply Forall_forall.
Qed.

Lemma phone_column_lists_each_number_once_witness :
  ∃ r v',
    extractAlumniFromElementIn Examples.cardWithPhones (Vars.init []) =
      (Returned (Some r), v') ∧
    Vars.phones v' = ["(650) 924-7485"; "650-555-0199"] ∧
    phone r = "(650) 924-7485, 650-555-0199" ∧
    NoDup (Vars.phones v') ∧
    ∀ number, number ∈ Vars.phones v' → phoneShaped number.
Proof.
  destruct (extractAlumniFromElementIn Examples.cardWithPhones (Vars.init []))
    as [[[r|]|e] v'] eqn:Hrun; try (vm_compute in Hrun; discriminate).
  exists r, v'. split; [reflexivity|].
  destruct (phone_column_lists_each_number_once _ _ _ _ Hrun)
    as (Hphone & Hnd & Hall).
  assert (Hphones : Vars.phones v' = ["(650) 924-7485"; "650-555-0199"]).
  { vm_compute in Hrun. by injection Hrun as _ <-. }
  split; [exact Hphones|]. split; [by rewrite Hphone, Hphones|].
  split; [exact Hnd | exact Hall].
Defined.

(** Property X10.  The two email fields of an extracted record are the
    joins of the two buckets of the emails collected, and every email
    collected contains an at sign. *)
Theorem every_listed_email_has_an_at_sign env out r v' :
  extractAlumniFromElementIn env (Vars.init out) = (Returned (Some r), v') →
  stanfordEmail r =
    JS.orElse (JS.join ", " (List.filter Profile.isStanfordEmail
                               (Vars.emails v'))) NA ∧
  personalEmail r =
    JS.orElse (JS.join ", " (List.filter (λ e, negb (Profile.isStanfordEmail e))
                               (Vars.emails v'))) NA ∧
  ∀ e, e ∈ Vars.emails v' → JS.includes e "@" = true.
Proof.
  intros Hrun. apply emails_visit in Hrun as [Hall (nm & cs & pc & ->)].
  split; [done|]. split; [done|]. by apply Forall_forall.
Qed.

Lemma every_listed_email_has_an_at_sign_witness :
  ∃ r v',
    extractAlumniFromElementIn Sample.cardWithEmails (Vars.init []) =
      (Returned (Some r), v') ∧
    ∀ e, e ∈ Vars.emails v' → JS.includes e "@" = true.
Proof.
  destruct (extractAlumniFromElementIn Sample.cardWithEmails (Vars.init []))
    as [[[r|]|e] v'] eqn:Hrun; try (vm_compute in Hrun; discriminate).
  exists r, v'. split; [reflexivity|].
  exact (proj2 (proj2 (every_listed_email_has_an_at_sign _ _ _ _ Hrun))).
Defined.

Module SuffixFacts.
Import Re.

Lemma toLowerCase_append a b :
  JS.toLowerCase (a +:+ b) = JS.toLowerCase a +:+ JS.toLowerCase b.
Proof.
  induction a as [|c a IH]; [done|]. rewrite append_cons. simpl.
  by rewrite IH, append_cons.
Qed.

(** A text whose lower-case form is a concatenation is a concatenation
    of texts with those lower-case forms. *)
Lemma toLowerCase_split s : ∀ a b,
  JS.toLowerCase s = a +:+ b →
  ∃ s1 s2, s = s1 +:+ s2 ∧ JS.toLowerCase s1 = a ∧ JS.toLowerCase s2 = b.
Proof.
  induction s as [|c s IH]; intros a b.
  - destruct a; [|done]. rewrite append_nil_l. intros <-. by exists "", "".
  - destruct a as [|x a].
    + rewrite append_nil_l. intros <-. by exists "", (String c s).
    + rewrite append_cons. simpl. intros [= <- Hs].
      apply IH in Hs as (s1 & s2 & -> & <- & <-).
      exists (String c s1), s2. by rewrite append_cons.
Qed.

Lemma lowerChar_at c : JS.lowerChar c = "@"%char → c = "@"%char.
Proof.
  destruct c as [[] [] [] [] [] [] [] []]; vm_compute; congruence.
Qed.

Lemma matches_litI x : ∀ prev s rest,
  matches (litI x) prev s rest ↔ JS.toLowerCase s = JS.toLowerCase x.
Proof.
  induction x as [|c x IH]; intros prev s rest; cbn [litI].
  - rewrite matches_Eps. by destruct s.
  - rewrite matches_Seq. split.
    + intros (s1 & s2 & -> & (y & -> & Hy)%matches_Chr & Hx%IH).
      apply Ascii.eqb_eq in Hy.
      rewrite append_cons, append_nil_l. simpl. by rewrite Hy, Hx.
    + destruct s as [|y s]; [done|]. simpl. intros [= Hy Hs].
      exists (String y ""), s. split; [done|]. split.
      * apply matches_Chr. exists y. split; [done|]. by apply Ascii.eqb_eq.
      * by apply IH.
Qed.

Lemma matches_at prev s rest :
  matches (lit "@") prev s rest ↔ s = "@".
Proof.
  cbn [lit]. rewrite matches_Seq. split.
  - intros (s1 & s2 & -> & (y & -> & Hy)%matches_Chr & ->%matches_Eps).
    by apply Ascii.eqb_eq in Hy as <-.
  - intros ->. exists "@", "". split; [done|]. split.
    + apply matches_Chr. by exists "@"%char.
    + by apply matches_Eps.
Qed.

(** The host names that the pattern accepts before [stanford.edu]. *)
Lemma matches_subdomain prev s rest :
  matches (Opt (alts [litI "alumni."; litI "gsb."; litI "alumni-gsb."]))
    prev s rest ↔
  JS.toLowerCase s ∈ ["alumni."; "gsb."; "alumni-gsb."; ""].
Proof.
  unfold Opt. cbn [alts].
  rewrite !matches_Alt, !matches_litI, matches_Eps, !elem_of_cons, elem_of_nil.
  change (JS.toLowerCase "alumni.") with "alumni.".
  change (JS.toLowerCase "gsb.") with "gsb.".
  change (JS.toLowerCase "alumni-gsb.") with "alumni-gsb.".
  assert (s = "" ↔ JS.toLowerCase s = "") as -> by (by destruct s).
  tauto.
Qed.

Lemma matches_stanfordAddress prev s rest :
  matches Profile.stanfordAddress prev s rest ↔
  rest = "" ∧
  JS.toLowerCase s ∈
    ["@stanford.edu"; "@alumni.stanford.edu"; "@gsb.stanford.edu";
     "@alumni-gsb.stanford.edu"].
Proof.
  unfold Profile.stanfordAddress. cbn [seqs]. split.
  - intros (s1 & s' & -> & ->%matches_at & H)%matches_Seq.
    apply matches_Seq in H as (s2 & s'' & -> & Hsub%matches_subdomain & H).
    apply matches_Seq in H as (s3 & s4 & -> & Hdom%matches_litI & H).
    apply matches_Eol in H as [-> ->]. split; [done|].
    rewrite !toLowerCase_append, Hdom, append_nil_r.
    repeat (apply elem_of_cons in Hsub as [->|Hsub]);
      [set_solver..|by apply elem_of_nil in Hsub].
  - intros [-> Hs].
    assert (∃ mid, mid ∈ ["alumni."; "gsb."; "alumni-gsb."; ""] ∧
                   JS.toLowerCase s = "@" +:+ mid +:+ "stanford.edu")
      as (mid & Hmid & Heq).
    { repeat (apply elem_of_cons in Hs as [->|Hs]).
      - exists "". set_solver.
      - exists "alumni.". set_solver.
      - exists "gsb.". set_solver.
      - exists "alumni-gsb.". set_solver.
      - by apply elem_of_nil in Hs. }
    apply toLowerCase_split in Heq as (s1 & s23 & -> & H1 & H23).
    apply toLowerCase_split in H23 as (s2 & s3 & -> & H2 & H3).
    assert (s1 = "@") as ->.
    { destruct s1 as [|c [|]]; try done. simpl in H1. injection H1 as H1.
      by apply lowerChar_at in H1 as ->. }
    apply matches_Seq. exists "@", (s2 +:+ s3).
    split; [done|]. split; [by apply matches_at|].
    apply matches_Seq. exists s2, s3. split; [done|].
    split; [apply matches_subdomain; by rewrite H2|].
    apply matches_Seq. exists s3, "". rewrite append_nil_r.
    split; [done|]. split; [by apply matches_litI | by apply matches_Eol].
Qed.

Lemma startsWith_iff s p :
  JS.startsWith s p = true ↔ ∃ post, s = p +:+ post.
Proof.
  revert s. induction p as [|a p IH]; intros s.
  - split; [intros _; by exists s | by destruct s].
  - destruct s as [|b s]; simpl.
    + split; [done | by intros [post ?]].
    + rewrite andb_true_iff, IH. split.
      * intros [->%Ascii.eqb_eq [post ->]]. by exists post.
      * intros [post Heq]. rewrite append_cons in Heq.
        injection Heq as -> ->. split; [apply Ascii.eqb_refl | by exists post].
Qed.

Lemma endsWith_iff s p :
  JS.endsWith s p = true ↔ ∃ pre, s = pre +:+ p.
Proof.
  unfold JS.endsWith. rewrite startsWith_iff. split.
  - intros [post Heq]. exists (String.rev post).
    rewrite <- (rev_involutive s), Heq, rev_append, rev_involutive. done.
  - intros [pre ->]. exists (String.rev pre). by rewrite rev_append.
Qed.

End SuffixFacts.
Import SuffixFacts.

(** Property X11.  An email goes to the Stanford bucket exactly when,
    read in lower case, it ends with [@stanford.edu],
    [@alumni.stanford.edu], [@gsb.stanford.edu] or
    [@alumni-gsb.stanford.edu]. *)
Theorem stanford_bucket_is_a_suffix_test e :
  Profile.isStanfordEmail e = true ↔
  ∃ suffix,
    suffix ∈ ["@stanford.edu"; "@alumni.stanford.edu"; "@gsb.stanford.edu";
              "@alumni-gsb.stanford.edu"] ∧
    JS.endsWith (JS.toLowerCase e) suffix = true.
Proof.
  unfold Profile.isStanfordEmail. rewrite test_iff. split.
  - intros (pre & s & rest & -> & [-> Hs]%matches_stanfordAddress).
    exists (JS.toLowerCase s). split; [done|].
    apply endsWith_iff. exists (JS.toLowerCase pre).
    by rewrite append_nil_r, toLowerCase_append.
  - intros (suffix & Hin & [pre Heq]%endsWith_iff).
    apply toLowerCase_split in Heq as (s1 & s2 & -> & _ & <-).
    exists s1, s2, "". rewrite append_nil_r. split; [done|].
    by apply matches_stanfordAddress.
Qed.

(** ** The name of a record *)

Module TrimFacts.

Lemma trimStart_idempotent s : JS.trimStart (JS.trimStart s) = JS.trimStart s.
Proof.
  induction s as [|c s IH]; [done|]. simpl.
  destruct (JS.isSpace c) eqn:Hc; [done|]. simpl. by rewrite Hc.
Qed.

Lemma trimEnd_idempotent s : JS.trimEnd (JS.trimEnd s) = JS.trimEnd s.
Proof.
  unfold JS.trimEnd. by rewrite rev_involutive, trimStart_idempotent.
Qed.

(** Cutting the end off a text that starts with no white space gives a
    text that starts with no white space. *)
Lemma trimStart_trimEnd s :
  JS.trimStart s = s → JS.trimStart (JS.trimEnd s) = JS.trimEnd s.
Proof.
  induction s as [|s c IH] using string_rev_ind; [done|].
  rewrite trimEnd_snoc. destruct (JS.isSpace c) eqn:Hc; [|done].
  intros Hs. apply IH.
  destruct s as [|x s]; [done|]. rewrite append_cons in Hs. simpl in *.
  destruct (JS.isSpace x); [|done].
  exfalso. destruct (trimStart_drop (s +:+ String c "")) as [k Hk].
  rewrite Hk in Hs.
  pose proof (length_drop_le k (s +:+ String c "")) as Hlen.
  rewrite Hs in Hlen. simpl in Hlen. lia.
Qed.

Lemma trim_idempotent s : JS.trim (JS.trim s) = JS.trim s.
Proof.
  unfold JS.trim.
  rewrite (trimStart_trimEnd (JS.trimStart s) (trimStart_idempotent s)).
  apply trimEnd_idempotent.
Qed.

End TrimFacts.
Import TrimFacts.

Module NameFacts.
Import Profile.

Lemma nameFromSelectors_trimmed env selectors nm :
  nameFromSelectors env selectors = Some nm → JS.trim nm = nm.
Proof.
  induction selectors as [|selector rest IH]; simpl; [done|].
  destruct (cardQuery env selector) as [[el|]|]; try done.
  destruct (textContent el) as [[t|]|]; try done.
  destruct (_ && _); [|done]. intros [= <-]. apply trim_idempotent.
Qed.

Lemma extractName_trimmed env v nm v' :
  extractName env v = (Returned nm, v') → JS.trim nm = nm.
Proof.
  unfold extractName.
  destruct (nameFromSelectors env nameSelectors) as [found|] eqn:Hfound; simpl.
  - apply nameFromSelectors_trimmed in Hfound.
    destruct (_ || _).
    + unfold nameFromText, tryCatch. rewrite run_bind. unfold await at 1.
      destruct (cardText env) as [[t|]|e]; simpl.
      * destruct (filter _ _) as [|line ?]; intros [= <- _];
          [done | apply trim_idempotent].
      * by intros [= <- _].
      * by intros [= <- _].
    + by intros [= <- _].
  - unfold nameFromText, tryCatch. rewrite run_bind. unfold await at 1.
    destruct (cardText env) as [[t|]|e]; simpl.
    + destruct (filter _ _) as [|line ?]; intros [= <- _];
        [done | apply trim_idempotent].
    + by intros [= <- _].
    + by intros [= <- _].
Qed.

Lemma extracted_trimmed r : extracted r → JS.trim (name r) = name r.
Proof.
  intros (env & w & w' & Hrun). unfold extractAlumniFromElement in Hrun.
  destruct (extractAlumniFromElementIn env (Vars.init (console w)))
    as [result v] eqn:Hin.
  injection Hrun as -> _.
  apply RecordFacts.extractAlumniFromElementIn_record in Hin.
  unfold Profile.visitProfile in Hin.
  apply bind_returned_inv in Hin as (nm & v1 & Hname & Hin).
  apply extractName_trimmed in Hname.
  apply bind_returned_inv in Hin as ([link|] & v2 & Hlink & Hin);
    [|discriminate].
  apply bind_returned_inv in Hin as ([] & v3 & Hclick & Hin).
  cbv zeta in Hin.
  apply bind_returned_inv in Hin as ([] & v4 & _ & Hin).
  apply bind_returned_inv in Hin as (cs & v5 & _ & Hin).
  apply bind_returned_inv in Hin as (pc & v6 & _ & Hin).
  apply bind_returned_inv in Hin as ([] & v7 & _ & Hin).
  apply bind_returned_inv in Hin as ([] & v8 & _ & Hin).
  injection Hin as <- _. exact Hname.
Qed.

End NameFacts.
Import NameFacts.

(** Property X12.  The name of an extracted record has no white space
    at its start or at its end. *)
Theorem extracted_name_is_trimmed r :
  extracted r → JS.trim (name r) = name r.
Proof. apply extracted_trimmed. Qed.

Lemma extracted_name_is_trimmed_witness :
  ∃ r w',
    extractAlumniFromElement (Sample.card "Jane Doe" "2024-05-01T10:00:00.000Z")
      Sample.freshWorld = (Returned (Some r), w') ∧
    JS.trim (name r) = name r.
Proof.
  destruct (extractAlumniFromElement
              (Sample.card "Jane Doe" "2024-05-01T10:00:00.000Z")
              Sample.freshWorld) as [[[r|]|e] w'] eqn:Hrun;
    try (vm_compute in Hrun; discriminate).
  exists r, w'. split; [reflexivity|].
  apply (extracted_name_is_trimmed r).
  exact (ex_intro _ (Sample.card "Jane Doe" "2024-05-01T10:00:00.000Z")
           (ex_intro _ Sample.freshWorld (ex_intro _ w' Hrun))).
Defined.

(** ** Names across calls and runs *)

Module RerunFacts.

Lemma trim_fixed_trimStart s : JS.trim s = s → JS.trimStart s = s.
Proof.
  intros Hs. unfold JS.trim in Hs.
  destruct (trimEnd_take (JS.trimStart s)) as [k Hk].
  destruct (trimStart_drop s) as [j Hj].
  assert (String.length (JS.trimStart s) = String.length s) as Hlen.
  { pose proof (length_take_le k (JS.trimStart s)) as H1.
    rewrite <- Hk, Hs in H1.
    pose proof (length_drop_le j s) as H2. rewrite <- Hj in H2. lia. }
  rewrite Hj in Hlen |- *. clear -Hlen.
  revert j Hlen. induction s as [|c s IH]; intros [|j]; simpl; try done.
  intros Hlen. pose proof (length_drop_le j s). lia.
Qed.

(** The records accepted by one call were extracted from cards. *)
Lemma accepted_records_are_extracted env searchType w rs w' :
  Crawler.crawlSearchResults env searchType w = (Returned rs, w') →
  Forall extracted rs.
Proof.
  intros Hrun.
  set (I := λ (_ : option string) (rs : list AlumniRecord) (_ : gset string),
         Forall extracted rs).
  destruct (CrawlerFacts.crawlSearchResults_invariant I I) with
    (env := env) (searchType := searchType) (w := w) (rs := rs) (w' := w')
    as (names & [H|H]); try done.
  - intros sink rs0 names r HI _ Hex _ _.
    split; apply Forall_app; split; try done; by constructor.
  - intros. constructor.
Qed.

Lemma name_in_content r c more :
  plainName (name r) →
  name r ∈ namesOfContent
             (c +:+ String JS.LF (CsvWriter.recordLine r +:+ String JS.LF more)).
Proof.
  intros (Ht & Hq & Htrim). apply elem_of_namesOfContent.
  destruct (nameOfLine_row r Ht Hq Htrim) as (line & rest & Hsplit & Hname).
  exists line. split; [|done].
  rewrite !split_app_sep, Hsplit.
  destruct (JS.split JS.LF c) as [|h t] eqn:Hc; [by apply split_nonempty in Hc|].
  simpl. apply elem_of_app. right. apply list_elem_of_here.
Qed.

Lemma appendRow_complete sink r :
  (sink = None ∨ ∃ stored, sink = Some (stored +:+ String JS.LF "")) →
  ∃ c, Spec.appendRow sink r =
       Some (c +:+ String JS.LF (CsvWriter.recordLine r +:+ String JS.LF "")).
Proof.
  intros [->|[stored ->]].
  - by exists (CsvWriter.getCsvLine (snd <$> CsvWriter.header)).
  - exists stored. unfold Spec.appendRow. simpl. f_equal.
    unfold CsvWriter.stringifyRecords, CsvWriter.joinRecords.
    cbn [fmap list_fmap JS.join]. by rewrite append_assoc.
Qed.

Lemma appendRows_complete sink rs :
  (sink = None ∨ ∃ stored, sink = Some (stored +:+ String JS.LF "")) →
  Spec.appendRows sink rs = None ∨
  ∃ stored, Spec.appendRows sink rs = Some (stored +:+ String JS.LF "").
Proof.
  revert sink. induction rs as [|r rs IH]; intros sink Hsink; [done|].
  change (Spec.appendRows sink (r :: rs))
    with (Spec.appendRows (Spec.appendRow sink r) rs).
  apply IH. right. destruct (appendRow_complete sink r Hsink) as [c ->].
  exists (c +:+ String JS.LF (CsvWriter.recordLine r)).
  by rewrite append_assoc, append_cons.
Qed.

Lemma appendRows_extends stored rs :
  ∃ more, Spec.appendRows (Some stored) rs = Some (stored +:+ more).
Proof.
  destruct rs as [|r rs].
  - exists "". by rewrite append_nil_r.
  - eexists. apply appendRows_Some.
Qed.

(** The name of every record with a plain name is read back from the
    file that holds the rows of the records, when the file was missing
    or ended with a complete line before. *)
Lemma names_after_rows sink rs r :
  (sink = None ∨ ∃ stored, sink = Some (stored +:+ String JS.LF "")) →
  r ∈ rs → plainName (name r) →
  ∃ content, Spec.appendRows sink rs = Some content ∧
             name r ∈ namesOfContent content.
Proof.
  intros Hsink Hin Hplain.
  apply list_elem_of_split in Hin as (before & after & ->).
  unfold Spec.appendRows. rewrite foldl_app. cbn [foldl].
  fold (Spec.appendRows sink before).
  destruct (appendRow_complete (Spec.appendRows sink before) r
              (appendRows_complete sink before Hsink)) as [c ->].
  match goal with
  | |- context [foldl Spec.appendRow (Some ?x) after] =>
      fold (Spec.appendRows (Some x) after);
      destruct (appendRows_extends x after) as [more ->]
  end.
  eexists. split; [reflexivity|].
  rewrite append_assoc, append_cons, append_assoc, append_cons, append_nil_l.
  by apply name_in_content.
Qed.

End RerunFacts.
Import RerunFacts.

(** Property X13.  A name that needs no quoting in the file is not
    accepted again by a later call of [crawlSearchResults]: when the file
    is missing or ends with a line break, every row of the first call was
    written and the second call can read the file, no record of the second
    call has the name of such a record of the first. *)
Theorem plain_names_are_not_written_again_by_a_later_call
    env1 type1 w rs1 w1 env2 type2 rs2 w2 :
  (fs w = None ∨ ∃ stored, fs w = Some (stored +:+ String JS.LF "")) →
  Crawler.crawlSearchResults env1 type1 w = (Returned rs1, w1) →
  fs w1 = Spec.appendRows (fs w) rs1 →
  csvReadError env2 = None →
  Crawler.crawlSearchResults env2 type2 w1 = (Returned rs2, w2) →
  ∀ r1 r2, r1 ∈ rs1 → CsvWriter.needsQuote (name r1) = false → r2 ∈ rs2 →
           name r2 ≠ name r1.
Proof.
  intros Hfile Hrun1 Hsaved Hread Hrun2 r1 r2 Hr1 Hquote Hr2 Heq.
  assert (plainName (name r1)) as Hplain.
  { pose proof (accepted_records_are_extracted _ _ _ _ _ Hrun1) as Hex.
    apply (proj1 (Forall_forall _ _) Hex) in Hr1 as Hex1.
    split; [|split; [done|]].
    - destruct Hex1 as (cenv & cw & cw' & Hc).
      apply RecordFacts.extracted_name_nonempty in Hc. by destruct (name r1).
    - by apply trim_fixed_trimStart, extracted_trimmed. }
  destruct (names_after_rows (fs w) rs1 r1 Hfile Hr1 Hplain)
    as (content & Hcontent & Hname).
  rewrite <- Hsaved in Hcontent.
  destruct w1 as [sink1 out1]. simpl in Hcontent. subst sink1.
  pose proof (getExistingNames_read content out1) as Hseed.
  rewrite <- Hread in Hseed.
  destruct (no_duplicate_within_a_call _ _ _ _ _ _ _ Hseed Hrun2) as [_ Hfresh].
  apply (Hfresh r2 Hr2). by rewrite Heq.
Qed.

Lemma plain_names_are_not_written_again_by_a_later_call_witness :
  ∃ rs1 w1 rs2 w2,
    Crawler.crawlSearchResults
      (Sample.listingOf [Sample.card "Jane Doe" "2024-05-01T10:00:00.000Z"])
      "default" Sample.freshWorld = (Returned rs1, w1) ∧
    Crawler.crawlSearchResults
      (Sample.listingOf [Sample.card "Jane Doe" "2024-05-02T10:00:00.000Z"])
      "1960s" w1 = (Returned rs2, w2) ∧
    name <$> rs1 = ["Jane Doe"] ∧
    ∀ r1 r2, r1 ∈ rs1 → CsvWriter.needsQuote (name r1) = false → r2 ∈ rs2 →
             name r2 ≠ name r1.
Proof.
  destruct (Crawler.crawlSearchResults
              (Sample.listingOf
                 [Sample.card "Jane Doe" "2024-05-01T10:00:00.000Z"])
              "default" Sample.freshWorld) as [[rs1|e] w1] eqn:Hrun1;
    [| vm_compute in Hrun1; discriminate].
  destruct (Crawler.crawlSearchResults
              (Sample.listingOf
                 [Sample.card "Jane Doe" "2024-05-02T10:00:00.000Z"])
              "1960s" w1) as [[rs2|e] w2] eqn:Hrun2.
  2: { vm_compute in Hrun1. injection Hrun1 as <- <-.
       vm_compute in Hrun2. discriminate. }
  exists rs1, w1, rs2, w2. split; [reflexivity|]. split; [exact Hrun2|].
  split.
  - vm_compute in Hrun1. by injection Hrun1 as <- _.
  - apply (plain_names_are_not_written_again_by_a_later_call
             (Sample.listingOf
                [Sample.card "Jane Doe" "2024-05-01T10:00:00.000Z"])
             "default" Sample.freshWorld rs1 w1
             (Sample.listingOf
                [Sample.card "Jane Doe" "2024-05-02T10:00:00.000Z"])
             "1960s" rs2 w2 (or_introl eq_refl) Hrun1).
    + vm_compute in Hrun1. injection Hrun1 as <- <-. reflexivity.
    + reflexivity.
    + exact Hrun2.
Defined.

Module RunFacts.
Import StrategyFacts.

Local Arguments Nat.leb : simpl never.

Lemma targetProfiles_pos : 0 < targetProfiles.
Proof. apply Nat.ltb_lt. reflexivity. Qed.

Local Opaque targetProfiles.

(** What one call does to the file: it adds the rows of records. *)
Lemma crawlSearchResults_appends env searchType w rs w' :
  Crawler.crawlSearchResults env searchType w = (Returned rs, w') →
  ∃ rows, fs w' = Spec.appendRows (fs w) rows.
Proof.
  intros Hrun.
  set (I := λ (sink : option string) (rs : list AlumniRecord)
              (_ : gset string), sink = Spec.appendRows (fs w) rs).
  set (X := λ (sink : option string) (rs : list AlumniRecord)
              (_ : gset string),
              ∃ rs0 r, rs = rs0 ++ [r] ∧ sink = Spec.appendRows (fs w) rs0).
  destruct (CrawlerFacts.crawlSearchResults_invariant I X) with
    (env := env) (searchType := searchType) (w := w) (rs := rs) (w' := w')
    as (names & [H|(rs0 & r & _ & H)]); try done; [|by exists rs|by exists rs0].
  intros sink rs0 names r HI _ _ _ _. unfold I, X in *. split.
  - by rewrite appendRows_snoc, HI.
  - by exists rs0, r.
Qed.

Lemma appendRows_app sink rows1 rows2 :
  Spec.appendRows (Spec.appendRows sink rows1) rows2 =
  Spec.appendRows sink (rows1 ++ rows2).
Proof. unfold Spec.appendRows. by rewrite foldl_app. Qed.

(** The loop over the buckets: it returns, it only adds rows to the
    file, and it keeps the count below the target plus one strategy. *)
Lemma searchBuckets_run env label terms all w :
  length all < targetProfiles + 1000 →
  ∃ all' w' rows,
    searchBuckets env label terms all w = (Returned all', w') ∧
    fs w' = Spec.appendRows (fs w) rows ∧
    length all' < targetProfiles + 1000.
Proof.
  revert all w. induction terms as [|term rest IH]; intros all w Hlen; simpl.
  { by exists all, w, []. }
  destruct (targetProfiles <=? length all) eqn:Hdone.
  { by exists all, w, []. }
  apply Nat.leb_gt in Hdone.
  destruct (performSearch_returns (searchFor env term) term w)
    as (w1 & Hsearch & Hfs1).
  rewrite (bind_returned _ _ _ _ _ Hsearch).
  destruct (crawlSearchResults_safe (resultsFor env (label term)) (label term)
              w1) as (found & w2 & Hcrawl).
  rewrite (bind_returned _ _ _ _ _ Hcrawl).
  destruct (crawlSearchResults_appends _ _ _ _ _ Hcrawl) as [rows1 Hfs2].
  pose proof (base_cap _ _ _ _ _ Hcrawl) as Hcap.
  rewrite run_bind. unfold log, modify at 1.
  set (w3 := World (fs w2) _).
  destruct (IH (all ++ found) w3) as (all' & w' & rows2 & Hrest & Hfs3 & Hlen');
    [rewrite length_app; lia|].
  exists all', w', (rows1 ++ rows2). split; [exact Hrest|]. split; [|done].
  rewrite Hfs3. subst w3. cbn [fs]. by rewrite Hfs2, Hfs1, appendRows_app.
Qed.

Lemma runStrategies_run env w :
  ∃ all w' rows,
    runStrategies env w = (Returned all, w') ∧
    fs w' = Spec.appendRows (fs w) rows ∧
    length all < targetProfiles + 1000.
Proof.
  unfold runStrategies.
  destruct (crawlSearchResults_safe (resultsFor env "default") "default" w)
    as (found & w1 & Hcrawl).
  rewrite (bind_returned _ _ _ _ _ Hcrawl).
  destruct (crawlSearchResults_appends _ _ _ _ _ Hcrawl) as [rows0 Hfs1].
  pose proof (base_cap _ _ _ _ _ Hcrawl) as Hcap.
  rewrite run_bind. unfold log, modify at 1.
  set (w2 := World (fs w1) _). change ([] ++ found) with found.
  destruct (targetProfiles <=? length found).
  { exists found, w2, rows0. split; [done|]. split; [done|].
    pose proof targetProfiles_pos. lia. }
  destruct (searchBuckets_run env decadeLabel decades found w2)
    as (all1 & w3 & rows1 & Hrun1 & Hfs3 & Hlen1);
    [pose proof targetProfiles_pos; lia|].
  rewrite (bind_returned _ _ _ _ _ Hrun1).
  destruct (searchBuckets_run env schoolLabel schools all1 w3 Hlen1)
    as (all2 & w4 & rows2 & Hrun2 & Hfs4 & Hlen2).
  rewrite (bind_returned _ _ _ _ _ Hrun2).
  destruct (searchBuckets_run env surnameLabel commonNames all2 w4 Hlen2)
    as (all3 & w5 & rows3 & Hrun3 & Hfs5 & Hlen3).
  exists all3, w5, (rows0 ++ rows1 ++ rows2 ++ rows3).
  split; [exact Hrun3|]. split; [|done].
  rewrite Hfs5, Hfs4, Hfs3. subst w2. cbn [fs].
  by rewrite Hfs1, !appendRows_app.
Qed.

Lemma crawlAlumni_run env w :
  ∃ w' rows,
    crawlAlumni env w = (Returned tt, w') ∧
    fs w' = Spec.appendRows (fs w) rows.
Proof.
  unfold crawlAlumni, tryCatch. rewrite run_bind. unfold await at 1.
  destruct (landing env) as [currentUrl|e].
  2: { eexists _, []. split; reflexivity. }
  destruct (redirectedToLogin currentUrl).
  { eexists _, []. split; reflexivity. }
  destruct (runStrategies_run env w) as (all & w' & rows & Hrun & Hfs & _).
  rewrite (bind_returned _ _ _ _ _ Hrun). by exists w', rows.
Qed.

End RunFacts.
Import RunFacts.

(** Property X14.  The records that a call of [crawlSearchResults]
    returns have pairwise different names, and none of these names is
    among the names that [getExistingNames] reads from the file at the
    start of the call. *)
Theorem names_of_one_call_are_fresh_and_distinct
    env searchType w seed w1 rs w' :
  getExistingNames (csvReadError env) w = (Returned seed, w1) →
  Crawler.crawlSearchResults env searchType w = (Returned rs, w') →
  NoDup (name <$> rs) ∧
  ∀ r, r ∈ rs → name r ∉ seed.
Proof.
  intros Hseed Hrun.
  by apply (no_duplicate_within_a_call env searchType w rs w' seed w1).
Qed.

Lemma names_of_one_call_are_fresh_and_distinct_witness :
  ∃ rs w',
    Crawler.crawlSearchResults
      (resultsFor Examples.directory "default") "default"
      (World (Some Examples.fileWithFooterRow) []) = (Returned rs, w') ∧
    name <$> rs = ["Jane Doe"; "John Roe"] ∧
    NoDup (name <$> rs) ∧
    ∀ r, r ∈ rs → name r ∉ namesOfContent Examples.fileWithFooterRow.
Proof.
  destruct (Crawler.crawlSearchResults
              (resultsFor Examples.directory "default") "default"
              (World (Some Examples.fileWithFooterRow) []))
    as [[rs|e] w'] eqn:Hrun; [| vm_compute in Hrun; discriminate].
  exists rs, w'. split; [reflexivity|]. split.
  - vm_compute in Hrun. injection Hrun as <- _. reflexivity.
  - exact (names_of_one_call_are_fresh_and_distinct
             (resultsFor Examples.directory "default") "default"
             (World (Some Examples.fileWithFooterRow) [])
             (namesOfContent Examples.fileWithFooterRow) _ rs w'
             (getExistingNames_read Examples.fileWithFooterRow []) Hrun).
Defined.

(** Property X15.  When the strategies of [crawlAlumni] return, they
    return fewer than [targetProfiles] + 1000 = 11000 records: once the
    target is reached no further search is made, and one search adds at
    most 1000. *)
Theorem strategies_collect_fewer_than_target_plus_one_call env w all w' :
  runStrategies env w = (Returned all, w') →
  length all < targetProfiles + 1000 ∧
  targetProfiles + 1000 = 11000.
Proof.
  intros Hrun.
  destruct (runStrategies_run env w) as (all0 & w0 & rows & Hrun0 & _ & Hlen).
  rewrite Hrun in Hrun0. by injection Hrun0 as <- _.
Qed.

Lemma strategies_collect_fewer_than_target_plus_one_call_witness :
  ∃ all w',
    runStrategies Examples.directory Sample.freshWorld = (Returned all, w') ∧
    name <$> all = ["Jane Doe"; "John Roe"] ∧
    length all < targetProfiles + 1000.
Proof.
  destruct (runStrategies Examples.directory Sample.freshWorld)
    as [[all|e] w'] eqn:Hrun; [| vm_compute in Hrun; discriminate].
  exists all, w'. split; [reflexivity|]. split.
  - vm_compute in Hrun. injection Hrun as <- _. reflexivity.
  - exact (proj1 (strategies_collect_fewer_than_target_plus_one_call
                    Examples.directory Sample.freshWorld all w' Hrun)).
Defined.

(** Property X16.  Whenever the [try] block of [crawlAlumni] with its
    handler has ended, all it has done to the output file is to append
    the rows of records: a file that existed has kept its content as the
    beginning of the new content. *)
Theorem crawlAlumni_only_adds_rows env w o w' :
  crawlAlumni env w = (o, w') →
  ∃ rows,
    fs w' = Spec.appendRows (fs w) rows ∧
    (∀ stored, fs w = Some stored →
       ∃ added, fs w' = Some (stored +:+ added)).
Proof.
  intros Hend.
  destruct (crawlAlumni_run env w) as (w0 & rows & Hrun & Hfs).
  rewrite Hend in Hrun. injection Hrun as _ <-.
  exists rows. split; [done|].
  intros stored Hstored. rewrite Hfs, Hstored.
  destruct rows as [|r rows].
  - exists "". by rewrite StringFacts.append_nil_r.
  - eexists. apply appendRows_Some.
Qed.

Lemma crawlAlumni_only_adds_rows_witness :
  ∃ o w',
    crawlAlumni Examples.directory
      (World (Some Examples.fileWithFooterRow) []) = (o, w') ∧
    ∃ added, fs w' = Some (Examples.fileWithFooterRow +:+ added).
Proof.
  destruct (crawlAlumni Examples.directory
              (World (Some Examples.fileWithFooterRow) []))
    as [o w'] eqn:Hrun.
  exists o, w'. split; [reflexivity|].
  destruct (crawlAlumni_only_adds_rows Examples.directory
              (World (Some Examples.fileWithFooterRow) []) o w' Hrun)
    as (rows & _ & Hprefix).
  exact (Hprefix Examples.fileWithFooterRow eq_refl).
Defined.

(** ** A session of the stealth crawler *)

Module StealthSinkFacts.
Import Stealth StealthFacts.

Local Arguments findCards : simpl never.
Local Arguments Nat.leb : simpl never.
Local Arguments Nat.ltb : simpl never.

Section StealthInvariant.
Variables I X : option string → list AlumniRecord → gset string → Prop.

Hypothesis accepted : ∀ sink rs names r,
  I sink rs names →
  I (Spec.appendRow sink r) (rs ++ [r]) (names ∪ {[name r]}) ∧
  X sink (rs ++ [r]) (names ∪ {[name r]}).

Lemma stealth_inWorld_frame {A} (m : M world A) v o v' :
  inWorld m v = (o, v') → consoleOnly m →
  stealthHoldsIn I v → stealthHoldsIn I v'.
Proof.
  rewrite stealth_inWorld_run.
  destruct (m (outside v)) as [o1 w'] eqn:Hrun. intros [= <- <-] Hq.
  unfold stealthHoldsIn. simpl. by rewrite (Hq _ _ _ Hrun).
Qed.

Lemma stealth_consider_post searchType r writeError v o v' :
  consider searchType r writeError v = (o, v') →
  stealthHoldsIn I v → stealthHoldsAtEnd I X o v'.
Proof.
  unfold consider.
  destruct (isValidAlumni (name r)) eqn:Hvalid.
  2: { intros Hrun HI.
       pose proof (stealth_inWorld_frame _ _ _ _ Hrun (consoleOnly_log _) HI).
       destruct o; [|left]; done. }
  rewrite run_bind. unfold gets at 1.
  case_bool_decide as Hknown.
  { intros Hrun HI.
    pose proof (stealth_inWorld_frame _ _ _ _ Hrun (consoleOnly_log _) HI).
    destruct o; [|left]; done. }
  intros Hrun HI. destruct (accepted _ _ _ r HI) as [HI' HX'].
  revert Hrun. unfold accept, saveIncrementalCSV, CsvWriter.writeRecords.
  destruct v as [[sink out] rs names total session].
  destruct writeError as [e|].
  - destruct sink; intros [= <- <-]; right; exact HX'.
  - destruct sink; intros [= <- <-]; exact HI'.
Qed.

Lemma stealth_processCards_post searchType steps v o v' :
  processCards searchType steps v = (o, v') →
  stealthHoldsIn I v → stealthHoldsAtEnd I X o v'.
Proof.
  revert v. induction steps as [|step rest IH]; intros v; simpl.
  { intros [= <- <-]. done. }
  rewrite run_bind. unfold gets at 1.
  destruct (mayContinue v) eqn:Hgo.
  2: { intros [= <- <-]. done. }
  destruct step as [|message|env writeError].
  - intros [= <- <-]. done.
  - intros [= <- <-]. by left.
  - rewrite run_bind, stealth_inWorld_run.
    destruct (extractAlumniFromElement_returns env (outside v))
      as (r & w' & Hrun & Hfs).
    rewrite Hrun. intros Hk HI.
    set (v1 := MkVars w' (results v) (existingNames v) (totalSavedCount v)
                 (profilesThisSession v)) in *.
    assert (HI1 : stealthHoldsIn I v1)
      by (unfold stealthHoldsIn; simpl; by rewrite Hfs).
    destruct r as [r|].
    + rewrite run_bind in Hk.
      destruct (consider searchType r writeError v1) as [[[]|e] v2] eqn:Hc.
      * eapply IH; [exact Hk|].
        apply (stealth_consider_post _ _ _ v1 _ _ Hc HI1).
      * injection Hk as <- <-.
        apply (stealth_consider_post _ _ _ v1 _ _ Hc HI1).
    + eapply IH; [exact Hk | exact HI1].
Qed.

Lemma stealth_crawlPages_post searchType pages v o v' :
  crawlPages searchType pages v = (o, v') →
  stealthHoldsIn I v → stealthHoldsAtEnd I X o v'.
Proof.
  revert v. induction pages as [|page rest IH]; intros v; simpl;
    rewrite run_bind; unfold gets at 1;
    destruct (mayContinue v) eqn:Hgo;
    try (intros [= <- <-]; first [done | by left]).
  rewrite run_bind. unfold await at 1.
  destruct (listing page) as [steps|e]; [|intros [= <- <-]; by left].
  rewrite run_bind.
  destruct (processCards searchType steps v) as [[[]|e] v1] eqn:Hcards.
  2: { intros [= <- <-] HI.
       apply (stealth_processCards_post _ _ _ _ _ Hcards HI). }
  intros Hk HI.
  pose proof (stealth_processCards_post _ _ _ _ _ Hcards HI) as HI1.
  simpl in HI1. revert Hk. rewrite run_bind. unfold gets at 1.
  destruct (maxProfilesPerSession <=? profilesThisSession v1).
  { intros Hk.
    pose proof (stealth_inWorld_frame _ _ _ _ Hk (consoleOnly_log _) HI1).
    destruct o; [|left]; done. }
  rewrite run_bind, stealth_inWorld_run.
  destruct (goToNextPage_returns (nextPage page) (outside v1))
    as (b & w2 & -> & Hfs).
  set (v2 := MkVars w2 (results v1) (existingNames v1) (totalSavedCount v1)
               (profilesThisSession v1)).
  assert (HI2 : stealthHoldsIn I v2)
    by (unfold stealthHoldsIn; simpl; by rewrite Hfs).
  destruct b.
  - rewrite run_bind. unfold tryCatch.
    destruct (newPageContent page) as [[]|e]; simpl.
    + intros Hk. by eapply IH.
    + intros [= <- <-]. exact HI2.
  - intros Hk.
    pose proof (stealth_inWorld_frame _ _ _ _ Hk (consoleOnly_log _) HI2).
    destruct o; [|left]; done.
Qed.

Lemma stealth_crawl_post env searchType w o v' :
  (∀ names, I (fs w) [] names) →
  crawl env searchType (init w) = (o, v') → stealthHoldsAtEnd I X o v'.
Proof.
  intros Hseed. unfold crawl. rewrite run_bind, stealth_inWorld_run. simpl.
  destruct (getExistingNames (csvReadError env) w) as [[names|e] w1]
    eqn:Hnames.
  2: { destruct w as [[?|] ?]; simpl in Hnames; [|discriminate].
       unfold tryCatch in Hnames. by destruct (csvReadError env). }
  pose proof (consoleOnly_getExistingNames _ _ _ _ Hnames) as Hfs.
  rewrite run_bind. unfold setExistingNames, modify at 1. simpl.
  set (v1 := MkVars w1 [] names 0 0).
  assert (HI1 : stealthHoldsIn I v1)
    by (unfold stealthHoldsIn; simpl; rewrite Hfs; apply Hseed).
  destruct (findCards env cardSelectors) as [? [|n]].
  - intros Hk.
    pose proof (stealth_inWorld_frame _ _ _ _ Hk (consoleOnly_log _) HI1).
    destruct o; [|left]; done.
  - rewrite run_bind. unfold setTotalSavedCount, modify at 1. simpl.
    intros Hk. eapply stealth_crawlPages_post; [exact Hk|]. exact HI1.
Qed.

Lemma stealth_crawlSearchResults_invariant env searchType w rs w' :
  (∀ names, I (fs w) [] names) →
  crawlSearchResults env searchType w = (Returned rs, w') →
  ∃ names, I (fs w') rs names ∨ X (fs w') rs names.
Proof.
  intros Hseed. unfold crawlSearchResults, tryCatch.
  destruct (crawl env searchType (init w)) as [[[]|e] v1] eqn:Hcrawl.
  - intros [= <- <-]. exists (existingNames v1). left.
    apply (stealth_crawl_post _ _ _ _ _ Hseed Hcrawl).
  - pose proof (stealth_crawl_post _ _ _ _ _ Hseed Hcrawl) as Hpost.
    rewrite stealth_inWorld_run. simpl. intros [= <- <-].
    exists (existingNames v1). exact Hpost.
Qed.
End StealthInvariant.

(** What one call of the override does to the file: it adds the rows of
    at most [maxProfilesPerSession] records. *)
Lemma stealth_crawlSearchResults_appends env searchType w :
  ∃ rs w' rows,
    crawlSearchResults env searchType w = (Returned rs, w') ∧
    fs w' = Spec.appendRows (fs w) rows ∧
    length rows ≤ maxProfilesPerSession.
Proof.
  destruct (session_cap env searchType w) as (rs & w' & Hrun & Hcap).
  set (I := λ (sink : option string) (rs : list AlumniRecord)
              (_ : gset string), sink = Spec.appendRows (fs w) rs).
  set (X := λ (sink : option string) (rs : list AlumniRecord)
              (_ : gset string),
              ∃ rs0 r, rs = rs0 ++ [r] ∧ sink = Spec.appendRows (fs w) rs0).
  destruct (stealth_crawlSearchResults_invariant I X) with
    (env := env) (searchType := searchType) (w := w) (rs := rs) (w' := w')
    as (names & [H|(rs0 & r & Hrs & H)]); try done.
  - intros sink rs0 names r HI. unfold I, X in *. split.
    + by rewrite appendRows_snoc, HI.
    + by exists rs0, r.
  - by exists rs, w', rs.
  - exists rs, w', rs0. split; [done|]. split; [done|].
    rewrite Hrs, length_app in Hcap. simpl in Hcap. lia.
Qed.

Lemma stealth_say_run l s :
  StealthSession.say l s =
    (Returned tt,
     StealthSession.State (StealthSession.outside s)
       (StealthSession.lines s ++ [l])).
Proof. reflexivity. Qed.

(** The file is the business of the search alone. *)
Lemma stealth_say_keeps_file l :
  preserves (λ s, fs (StealthSession.outside s)) (StealthSession.say l).
Proof. by intros s o s' [= <- <-]. Qed.

(** The [try] block with its handler returns, and adds to the file the
    rows of at most [maxProfilesPerSession] records. *)
Lemma stealth_session_run env s :
  ∃ s1 rows,
    tryCatch (StealthSession.session env) (StealthSession.debugInfo env) s =
      (Returned tt, s1) ∧
    fs (StealthSession.outside s1) =
      Spec.appendRows (fs (StealthSession.outside s)) rows ∧
    length rows ≤ Stealth.maxProfilesPerSession.
Proof.
  unfold StealthSession.session, tryCatch. rewrite run_bind, stealth_say_run.
  rewrite run_bind. unfold await at 1.
  destruct (landing (StealthSession.directory env)) as [currentUrl|e].
  2: { eexists _, []. split; [reflexivity|]. split; [reflexivity|]. simpl. lia. }
  rewrite run_bind, stealth_say_run, run_bind, stealth_say_run.
  destruct (redirectedToLogin currentUrl).
  { eexists _, []. split; [reflexivity|]. split; [reflexivity|]. simpl. lia. }
  cbv zeta.
  rewrite run_bind, stealth_say_run, run_bind, stealth_say_run,
    run_bind, stealth_say_run.
  cbn [StealthSession.outside StealthSession.lines].
  destruct (stealth_crawlSearchResults_appends
              (resultsFor (StealthSession.directory env) "default")
              "default" (StealthSession.outside s))
    as (rs & w' & rows & Hrun & Hfs & Hlen).
  rewrite run_bind. unfold StealthSession.inWorld at 1, zoom.
  cbn [StealthSession.outside StealthSession.lines]. rewrite Hrun.
  unfold mbind, M_bind, bind, StealthSession.inWorld, zoom, log,
    StealthSession.randomDelay, StealthSession.say, modify, ret.
  cbn [StealthSession.outside StealthSession.lines fs].
  destruct (_ <? _); case_bool_decide; eexists _, rows;
    (split; [reflexivity|]); (split; [exact Hfs | exact Hlen]).
Qed.

End StealthSinkFacts.
Import StealthSinkFacts.

(** Property X17.  Whenever a session of the stealth crawler has
    ended, it has appended the rows of at most 50 records to the output
    file and changed the file in no other way; and an error with which
    it ends is the error of [initialize], of creating the page or of
    closing the page: what goes wrong during the search is caught. *)
Theorem stealth_session_adds_at_most_fifty_rows env s o s' :
  StealthSession.crawlAlumni env s = (o, s') →
  (∃ rows,
     fs (StealthSession.outside s') =
       Spec.appendRows (fs (StealthSession.outside s)) rows ∧
     length rows ≤ 50) ∧
  (∀ e, o = Thrown e →
        (StealthSession.browserSet env = false ∧
         StealthSession.initialize env = Thrown e) ∨
        StealthSession.newPage env = Thrown e ∨
        StealthSession.closePage env = Thrown e).
Proof.
  destruct (stealth_session_run env s) as (s1 & rows & Htry & Hfs & Hlen).
  change Stealth.maxProfilesPerSession with 50 in Hlen.
  assert (tryFinally
            (tryCatch (StealthSession.session env)
               (StealthSession.debugInfo env))
            (StealthSession.say StealthSession.ClosingBrowser;;
             await (StealthSession.closePage env)) s =
          (StealthSession.closePage env,
           StealthSession.State (StealthSession.outside s1)
             (StealthSession.lines s1 ++ [StealthSession.ClosingBrowser])))
    as Hfin.
  { unfold tryFinally. rewrite Htry, run_bind, stealth_say_run.
    unfold await. by destruct (StealthSession.closePage env) as [[]|e]. }
  assert (∃ rows0 : list AlumniRecord,
            fs (StealthSession.outside s) =
              Spec.appendRows (fs (StealthSession.outside s)) rows0 ∧
            length rows0 ≤ 50) as Hnone.
  { exists []. split; [done|]. simpl. lia. }
  unfold StealthSession.crawlAlumni. rewrite run_bind.
  destruct (StealthSession.browserSet env); cbn [negb].
  - unfold ret at 1. cbv beta iota. rewrite run_bind. unfold await at 1.
    destruct (StealthSession.newPage env) as [[]|e].
    + rewrite Hfin. intros [= <- <-]. cbn [StealthSession.outside].
      split; [by exists rows|]. auto.
    + intros [= <- <-]. split; [exact Hnone|]. auto.
  - unfold await at 1.
    destruct (StealthSession.initialize env) as [[]|e].
    + rewrite run_bind. unfold await at 1.
      destruct (StealthSession.newPage env) as [[]|e].
      * rewrite Hfin. intros [= <- <-]. cbn [StealthSession.outside].
        split; [by exists rows|]. auto.
      * intros [= <- <-]. split; [exact Hnone|]. auto.
    + intros [= <- <-]. split; [exact Hnone|]. auto.
Qed.

Lemma stealth_session_adds_at_most_fifty_rows_witness :
  ∃ o s',
    StealthSession.crawlAlumni Examples.stealthSession
      (StealthSession.State Sample.freshWorld []) = (o, s') ∧
    o = Thrown pageClosed ∧
    ∃ rows,
      fs (StealthSession.outside s') = Spec.appendRows None rows ∧
      length rows ≤ 50.
Proof.
  destruct (StealthSession.crawlAlumni Examples.stealthSession
              (StealthSession.State Sample.freshWorld []))
    as [o s'] eqn:Hrun.
  exists o, s'. split; [reflexivity|]. split.
  - vm_compute in Hrun. by injection Hrun as <- _.
  - exact (proj1 (stealth_session_adds_at_most_fifty_rows
                    Examples.stealthSession
                    (StealthSession.State Sample.freshWorld []) o s' Hrun)).
Defined.

(** ** The first crawler *)

Module SimpleFacts.
Import Simple.

Lemma tryCatch_rethrow_returned {S A} (m : M S A) (h : string → M S unit) s a s' :
  tryCatch m (λ message, h message;; throw message) s = (Returned a, s') →
  m s = (Returned a, s').
Proof.
  unfold tryCatch. destruct (m s) as [[b|e] s1]; [done|].
  rewrite run_bind. destruct (h e s1) as [[[]|e'] s2]; discriminate.
Qed.

Lemma onPage_returned {A} (call : outcome A) s a s' :
  onPage call s = (Returned a, s') →
  page s = true ∧ call = Returned a ∧ s' = s.
Proof.
  unfold onPage. rewrite run_bind. unfold gets at 1.
  destruct (page s); [|discriminate]. unfold await. by intros [= -> ->].
Qed.

(** One step of a run that returned: the first statement returned, and
    the rest ran from the state it left. *)
Ltac next H a s Ha :=
  apply bind_returned_inv in H as (a & s & Ha & H).

Lemma initialize_returned env s s1 :
  initialize env s = (Returned tt, s1) →
  browser s1 = true ∧ page s1 = true ∧
  isLoggedIn s1 = (sessionAtInitialize env || isLoggedIn s) ∧
  data s1 = data s ∧ file s1 = file s ∧ closed s1 = closed s.
Proof.
  unfold initialize. intros H.
  next H u1 t1 H1. injection H1 as _ <-.
  next H u2 t2 H2. injection H2 as _ <-.
  next H u3 t3 H3. injection H3 as _ <-.
  next H u4 t4 H4.
  assert (browser t4 = true ∧ page t4 = page s ∧
          isLoggedIn t4 = (sessionAtInitialize env || isLoggedIn s) ∧
          data t4 = data s ∧ file t4 = file s ∧ closed t4 = closed s)
    as (Hb & Hp & Hl & Hd & Hf & Hc).
  { destruct (sessionAtInitialize env).
    - next H4 u5 t5 H5. injection H5 as _ <-.
      next H4 u6 t6 H6. injection H6 as _ <-.
      injection H4 as _ <-. done.
    - injection H4 as _ <-. done. }
  next H u7 t7 H7. injection H7 as _ <-.
  next H u8 t8 H8. injection H8 as _ <-.
  next H u9 t9 H9. injection H9 as _ <-.
  next H u10 t10 H10. injection H10 as _ <-.
  injection H as <-. done.
Qed.

Lemma login_returned env s s1 :
  sessionAtLogin env = false →
  login env s = (Returned tt, s1) →
  isLoggedIn s1 = true ∧
  Simple.missing (username env) = false ∧
  Simple.missing (password env) = false ∧
  JS.includes (urlAfterLogin env) "login" = false ∧
  JS.includes (urlAfterLogin env) "signin" = false ∧
  browser s1 = browser s ∧ page s1 = page s ∧ data s1 = data s ∧
  file s1 = file s ∧ closed s1 = closed s.
Proof.
  intros Hsession. unfold login. rewrite Hsession. intros H.
  next H u0 t0 H0. injection H0 as _ <-.
  apply tryCatch_rethrow_returned in H.
  next H u1 t1 H1. apply onPage_returned in H1 as (_ & _ & ->).
  next H html t2 H2. apply onPage_returned in H2 as (_ & _ & ->).
  next H u3 t3 H3. injection H3 as _ <-.
  next H u4 t4 H4. apply onPage_returned in H4 as (_ & _ & ->).
  next H u5 t5 H5. apply onPage_returned in H5 as (_ & _ & ->).
  next H u6 t6 H6.
  destruct (Simple.missing (username env) || Simple.missing (password env))
    eqn:Hcred; [discriminate|].
  apply orb_false_iff in Hcred as [Huser Hpass]. injection H6 as _ <-.
  next H u7 t7 H7. apply onPage_returned in H7 as (_ & _ & ->).
  next H u8 t8 H8. apply onPage_returned in H8 as (_ & _ & ->).
  next H button t9 H9. apply onPage_returned in H9 as (_ & _ & ->).
  destruct button as [button|]; [|discriminate].
  next H u10 t10 H10. injection H10 as _ <-.
  next H u11 t11 H11. apply onPage_returned in H11 as (_ & _ & ->).
  cbv zeta in H.
  next H u12 t12 H12.
  destruct (JS.includes (urlAfterLogin env) "login" ||
            JS.includes (urlAfterLogin env) "signin") eqn:Hurl.
  { exfalso. revert H12. rewrite run_bind.
    destruct (onPage (errorElement env) _) as [[[el|]|e] t] eqn:Hel;
      try discriminate.
    rewrite run_bind. destruct (await (textContent el) t) as [[txt|e] t'];
      discriminate. }
  apply orb_false_iff in Hurl as [Hlogin Hsignin]. injection H12 as _ <-.
  next H u13 t13 H13. injection H13 as _ <-.
  injection H as <-. done.
Qed.

Lemma searchAlumni_returned env s s1 :
  searchAlumni env s = (Returned tt, s1) →
  isLoggedIn s = true ∧ browser s1 = browser s ∧ page s1 = page s ∧
  isLoggedIn s1 = isLoggedIn s ∧ data s1 = data s ∧ file s1 = file s ∧
  closed s1 = closed s.
Proof.
  unfold searchAlumni. intros H.
  next H l t0 H0. injection H0 as <- <-.
  destruct (isLoggedIn s) eqn:Hl; [|discriminate]. cbn [negb] in H.
  next H u1 t1 H1. injection H1 as _ <-.
  apply tryCatch_rethrow_returned in H.
  next H u2 t2 H2. apply onPage_returned in H2 as (_ & _ & ->).
  injection H as <-. done.
Qed.

(** The loop over the cards adds one record for each card. *)
Lemma cards_loop cs s :
  forOf cs (λ element,
    tryCatch
      (alumniData ← extractAlumniFromElement element;
       match alumniData with
       | Some alumniData => pushData alumniData
       | None => ret tt
       end)
      (λ message, say (WarnFailedOneElement message))) s =
  (Returned tt,
   State (browser s) (page s) (isLoggedIn s) (data s ++ (cardRecord <$> cs))
     (file s) (closed s) (console s)).
Proof.
  revert s. induction cs as [|c cs IH]; intros s.
  - simpl. rewrite app_nil_r. by destruct s.
  - cbn [forOf]. rewrite run_bind.
    assert (tryCatch
              (alumniData ← extractAlumniFromElement c;
               match alumniData with
               | Some alumniData => pushData alumniData
               | None => ret tt
               end)
              (λ message, say (WarnFailedOneElement message)) s =
            (Returned tt,
             State (browser s) (page s) (isLoggedIn s)
               (data s ++ [cardRecord c]) (file s) (closed s) (console s)))
      as -> by reflexivity.
    rewrite IH. cbn [browser page isLoggedIn data file closed console].
    by rewrite fmap_cons, <- app_assoc.
Qed.

Lemma extractAlumniData_returned env s s1 :
  extractAlumniData env s = (Returned tt, s1) →
  ∃ cs, cards env = Returned cs ∧ data s1 = data s ++ (cardRecord <$> cs) ∧
        browser s1 = browser s ∧ file s1 = file s ∧ closed s1 = closed s.
Proof.
  unfold extractAlumniData. intros H.
  next H u0 t0 H0. injection H0 as _ <-.
  apply tryCatch_rethrow_returned in H.
  next H u1 t1 H1. apply onPage_returned in H1 as (_ & _ & ->).
  next H cs t2 H2. apply onPage_returned in H2 as (_ & Hcards & ->).
  next H u3 t3 H3. rewrite cards_loop in H3. injection H3 as _ <-.
  next H found t4 H4. injection H4 as _ <-.
  injection H as <-. by exists cs.
Qed.

Lemma saveToCSV_returned env s s1 :
  saveToCSV env s = (Returned tt, s1) →
  data s1 = data s ∧ browser s1 = browser s ∧ closed s1 = closed s ∧
  file s1 =
    match data s with
    | [] => file s
    | _ :: _ =>
        Some (headerString +:+ CsvWriter.joinRecords (recordLine <$> data s))
    end.
Proof.
  unfold saveToCSV. intros H.
  next H found t0 H0. injection H0 as <- <-.
  case_bool_decide as Hempty.
  - injection H as <-. apply length_zero_iff_nil in Hempty. by rewrite Hempty.
  - next H u1 t1 H1. injection H1 as _ <-.
    next H u2 t2 H2. destruct (writeError env); [discriminate|].
    injection H2 as _ <-. injection H as <-.
    destruct (data s); [done|]. done.
Qed.

Lemma login_with_session env s :
  sessionAtLogin env = true →
  login env s =
  (Returned tt,
   State (browser s) (page s) (isLoggedIn s) (data s) (file s) (closed s)
     (console s ++ [UsingSavedSession])).
Proof. intros Hs. unfold login. by rewrite Hs. Qed.

Lemma login_frame env s s1 :
  login env s = (Returned tt, s1) →
  browser s1 = browser s ∧ page s1 = page s ∧ data s1 = data s ∧
  file s1 = file s ∧ closed s1 = closed s.
Proof.
  destruct (sessionAtLogin env) eqn:Hs.
  - rewrite (login_with_session _ _ Hs). by intros [= <-].
  - intros H. apply (login_returned _ _ _ Hs) in H. tauto.
Qed.

(** The statements that [crawl] runs inside its [try]. *)
Lemma crawl_body_returned env file0 s1 :
  (initialize env;; login env;; searchAlumni env;; extractAlumniData env;;
   saveToCSV env) (fresh file0) = (Returned tt, s1) →
  ∃ cs, cards env = Returned cs ∧ data s1 = cardRecord <$> cs ∧
        browser s1 = true ∧ closed s1 = 0 ∧
        file s1 =
          match cs with
          | [] => file0
          | _ :: _ =>
              Some (headerString +:+
                    CsvWriter.joinRecords (recordLine <$> data s1))
          end.
Proof.
  intros H.
  next H u1 t1 H1. destruct u1.
  apply initialize_returned in H1 as (Hb1 & _ & _ & Hd1 & Hf1 & Hc1).
  next H u2 t2 H2. destruct u2.
  apply login_frame in H2 as (Hb2 & _ & Hd2 & Hf2 & Hc2).
  next H u3 t3 H3. destruct u3.
  apply searchAlumni_returned in H3 as (_ & Hb3 & _ & _ & Hd3 & Hf3 & Hc3).
  next H u4 t4 H4. destruct u4.
  apply extractAlumniData_returned in H4 as (cs & Hcards & Hd4 & Hb4 & Hf4 & Hc4).
  apply saveToCSV_returned in H as (Hd5 & Hb5 & Hc5 & Hf5).
  exists cs. split; [done|].
  assert (data t4 = cardRecord <$> cs) as Hdata.
  { rewrite Hd4, Hd3, Hd2, Hd1. done. }
  split; [congruence|]. split; [congruence|].
  split; [rewrite Hc5, Hc4, Hc3, Hc2, Hc1; done|].
  rewrite Hf5, Hd5, Hdata. simpl in Hf1.
  destruct cs as [|c cs]; [|done]. simpl. congruence.
Qed.

Lemma close_after_launch env s :
  browser s = true → closeBrowser env = Returned tt →
  close env s =
  (Returned tt,
   State (browser s) (page s) (isLoggedIn s) (data s) (file s) (S (closed s))
     (console s ++ [BrowserClosed])).
Proof.
  intros Hb Hc. destruct s as [b p l d f c out]. simpl in Hb. subst b.
  unfold close, mbind, M_bind, bind, gets, await, countClose, say, modify.
  cbn [browser]. rewrite Hc. reflexivity.
Qed.

End SimpleFacts.
Import SimpleFacts.

(** Property X18.  In the first crawler, when the session file is
    there either at both tests or at neither, and [initialize] and
    [login] return, then [isLoggedIn] is set; without a session file both
    credentials were present and the address reached after the click
    contains neither login nor signin; and [searchAlumni] then returns
    whenever the directory page loads. *)
Theorem logged_in_after_initialize_and_login env s s1 s2 :
  Simple.sessionAtInitialize env = Simple.sessionAtLogin env →
  Simple.initialize env s = (Returned tt, s1) →
  Simple.login env s1 = (Returned tt, s2) →
  Simple.isLoggedIn s2 = true ∧
  (Simple.sessionAtLogin env = false →
     Simple.missing (Simple.username env) = false ∧
     Simple.missing (Simple.password env) = false ∧
     JS.includes (Simple.urlAfterLogin env) "login" = false ∧
     JS.includes (Simple.urlAfterLogin env) "signin" = false) ∧
  (Simple.gotoDirectory env = Returned tt →
     ∃ s3, Simple.searchAlumni env s2 = (Returned tt, s3)).
Proof.
  intros Hsame Hinit Hlogin.
  apply initialize_returned in Hinit as (_ & Hp1 & Hl1 & _).
  assert (Simple.isLoggedIn s2 = true) as Hl2.
  { destruct (Simple.sessionAtLogin env) eqn:Hs.
    - rewrite (login_with_session _ _ Hs) in Hlogin.
      injection Hlogin as <-. simpl. by rewrite Hl1, Hsame.
    - apply (login_returned _ _ _ Hs) in Hlogin. tauto. }
  split; [done|]. split.
  - intros Hs. apply (login_returned _ _ _ Hs) in Hlogin. tauto.
  - intros Hgoto. apply login_frame in Hlogin as (_ & Hp2 & _).
    unfold Simple.searchAlumni. rewrite run_bind. unfold gets at 1.
    rewrite Hl2. cbn [negb]. rewrite run_bind.
    unfold Simple.say at 1, modify at 1. unfold tryCatch.
    rewrite run_bind. unfold Simple.onPage at 1. rewrite run_bind.
    unfold gets at 1. cbn [Simple.page]. rewrite Hp2, Hp1.
    unfold await at 1. rewrite Hgoto. by eexists.
Qed.

Lemma logged_in_after_initialize_and_login_witness :
  ∃ s1 s2,
    Simple.initialize Examples.firstRun (Simple.fresh None) =
      (Returned tt, s1) ∧
    Simple.login Examples.firstRun s1 = (Returned tt, s2) ∧
    Simple.isLoggedIn s2 = true ∧
    ∃ s3, Simple.searchAlumni Examples.firstRun s2 = (Returned tt, s3).
Proof.
  destruct (Simple.initialize Examples.firstRun (Simple.fresh None))
    as [[[]|e] s1] eqn:Hinit; [| vm_compute in Hinit; discriminate].
  destruct (Simple.login Examples.firstRun s1) as [[[]|e] s2] eqn:Hlogin.
  2: { vm_compute in Hinit. injection Hinit as <-.
       vm_compute in Hlogin. discriminate. }
  exists s1, s2. split; [reflexivity|]. split; [exact Hlogin|].
  destruct (logged_in_after_initialize_and_login
              Examples.firstRun (Simple.fresh None) s1 s2 eq_refl Hinit Hlogin)
    as (Hin & _ & Hsearch).
  split; [exact Hin | exact (Hsearch eq_refl)].
Defined.

(** Property X19.  When [crawl] of the first crawler returns (and the
    browser closes without error), [data] holds one record per card in the
    order of the page, the browser has been closed once, and the file
    holds the header and one row per record, or is untouched when the page
    showed no card. *)
Theorem successful_crawl_saves_one_row_per_card env file0 s' :
  Simple.closeBrowser env = Returned tt →
  Simple.crawl env (Simple.fresh file0) = (Returned tt, s') →
  ∃ cs,
    Simple.cards env = Returned cs ∧
    Simple.data s' = cardRecord <$> cs ∧
    Simple.closed s' = 1 ∧
    Simple.file s' =
      match cs with
      | [] => file0
      | _ :: _ =>
          Some (Simple.headerString +:+
                CsvWriter.joinRecords (Simple.recordLine <$> Simple.data s'))
      end.
Proof.
  intros Hclose. unfold Simple.crawl, tryFinally.
  destruct (tryCatch _ _ (Simple.fresh file0)) as [[[]|e] s1] eqn:Hbody.
  2: { destruct (Simple.close env s1) as [[[]|e'] s2]; discriminate. }
  apply tryCatch_rethrow_returned, crawl_body_returned in Hbody
    as (cs & Hcards & Hdata & Hb & Hc & Hf).
  rewrite (close_after_launch _ _ Hb Hclose). intros [= <-].
  exists cs. cbn [Simple.data Simple.closed Simple.file].
  split; [done|]. split; [done|]. split; [by rewrite Hc | done].
Qed.

Lemma successful_crawl_saves_one_row_per_card_witness :
  ∃ s',
    Simple.crawl Examples.firstRun (Simple.fresh None) = (Returned tt, s') ∧
    Simple.data s' = cardRecord <$> Examples.cards ∧
    Simple.closed s' = 1 ∧
    Simple.file s' =
      Some (Simple.headerString +:+
            CsvWriter.joinRecords (Simple.recordLine <$> Simple.data s')).
Proof.
  destruct (Simple.crawl Examples.firstRun (Simple.fresh None))
    as [[[]|e] s'] eqn:Hrun; [| vm_compute in Hrun; discriminate].
  exists s'. split; [reflexivity|].
  destruct (successful_crawl_saves_one_row_per_card
              Examples.firstRun None s' eq_refl Hrun)
    as (cs & Hcards & Hdata & Hclosed & Hfile).
  injection Hcards as <-. split; [exact Hdata|]. split; [exact Hclosed|].
  exact Hfile.
Defined.

Module ClosingFacts.
Import Simple SimpleFacts.

Lemma tryCatch_bind_returned {S A B} (m : M S A) (f : A → M S B) h s a s1 :
  m s = (Returned a, s1) →
  tryCatch (m ≫= f) h s = tryCatch (f a) h s1.
Proof. intros Hm. unfold tryCatch. by rewrite (bind_returned _ _ _ _ _ Hm). Qed.

(** What follows the launch changes neither the browser of the object
    nor the number of closings. *)
Section Launched.
Variable P : state → Prop.
Hypothesis P_fields :
  ∀ s p' l' d' f' out',
    P s → P (State (browser s) p' l' d' f' (closed s) out').

Lemma launched_modify (f : state → state) :
  (∀ s, ∃ p' l' d' f' out',
     f s = State (browser s) p' l' d' f' (closed s) out') →
  maintains P (modify f).
Proof.
  intros Hf. apply maintains_modify. intros s Hs.
  destruct (Hf s) as (p' & l' & d' & f' & out' & ->). by apply P_fields.
Qed.

Ltac fields :=
  apply launched_modify; intros s; cbn; by eexists _, _, _, _, _.

Lemma launched_say l : maintains P (say l).
Proof. fields. Qed.
Lemma launched_setPage : maintains P setPage.
Proof. fields. Qed.
Lemma launched_setLoggedIn : maintains P setLoggedIn.
Proof. fields. Qed.
Lemma launched_pushData r : maintains P (pushData r).
Proof. fields. Qed.
Lemma launched_setFile c : maintains P (setFile c).
Proof. fields. Qed.
Lemma launched_onPage {A} (call : outcome A) : maintains P (onPage call).
Proof. unfold onPage. kept. Qed.

Hint Resolve launched_say launched_setPage launched_setLoggedIn
  launched_pushData launched_setFile launched_onPage : kept.

Lemma launched_after_launch env :
  maintains P
    ((if sessionAtInitialize env then
        await (newContext env);; say LoadedSession;; setLoggedIn
      else await (newContext env));;
     await (newPage env);; setPage;; await (setViewportSize env);;
     await (setExtraHTTPHeaders env);; say BrowserInitialized).
Proof. kept. Qed.

Lemma launched_login env : maintains P (login env).
Proof. unfold login. kept. Qed.

Lemma launched_searchAlumni env : maintains P (searchAlumni env).
Proof. unfold searchAlumni. kept. Qed.

Lemma launched_extractAlumniData env : maintains P (extractAlumniData env).
Proof. unfold extractAlumniData, extractAlumniFromElement. kept. Qed.

Lemma launched_saveToCSV env : maintains P (saveToCSV env).
Proof. unfold saveToCSV. kept. Qed.

Lemma launched_steps env :
  maintains P
    (login env;; searchAlumni env;; extractAlumniData env;; saveToCSV env).
Proof.
  apply maintains_bind; [apply launched_login|intros _].
  apply maintains_bind; [apply launched_searchAlumni|intros _].
  apply maintains_bind; [apply launched_extractAlumniData|intros _].
  apply launched_saveToCSV.
Qed.
End Launched.

Lemma initialize_run env s :
  ∃ o s1,
    initialize env s = (o, s1) ∧ closed s1 = closed s ∧
    match launch env with
    | Returned _ => browser s1 = true
    | Thrown e => o = Thrown e ∧ browser s1 = browser s
    end.
Proof.
  unfold initialize. rewrite run_bind. unfold say at 1, modify at 1.
  rewrite run_bind. unfold await at 1.
  destruct (launch env) as [[]|e].
  - rewrite run_bind. unfold setBrowser at 1, modify at 1.
    match goal with |- ∃ o s1, ?m ?s0 = _ ∧ _ =>
      destruct (m s0) as [o s1] eqn:Hrun
    end.
    exists o, s1. split; [done|]. split.
    + eapply (launched_after_launch (λ t, closed t = closed s));
        [|exact Hrun|reflexivity].
      intros t; intros; assumption.
    + eapply (launched_after_launch (λ t, browser t = true));
        [|exact Hrun|reflexivity].
      intros t; intros; assumption.
  - by eexists _, _.
Qed.

Lemma crawl_body_run env s :
  ∃ o s1,
    tryCatch
      (initialize env;; login env;; searchAlumni env;; extractAlumniData env;;
       saveToCSV env)
      (λ message, say (ErrorCrawlingFailed message);; throw message) s =
    (o, s1) ∧
    closed s1 = closed s ∧
    match launch env with
    | Returned _ => browser s1 = true
    | Thrown e => o = Thrown e ∧ browser s1 = browser s
    end.
Proof.
  destruct (initialize_run env s) as (oi & si & Hinit & Hclosed & Hlaunch).
  unfold tryCatch. rewrite run_bind, Hinit.
  destruct oi as [[]|e].
  - destruct (launch env) as [[]|e']; [|by destruct Hlaunch].
    destruct ((login env;; searchAlumni env;; extractAlumniData env;;
               saveToCSV env) si) as [o s2] eqn:Hrun.
    assert (closed s2 = closed s) as Hc.
    { eapply (launched_steps (λ t, closed t = closed s));
        [|exact Hrun|exact Hclosed].
      intros t; intros; assumption. }
    assert (browser s2 = true) as Hb.
    { eapply (launched_steps (λ t, browser t = true));
        [|exact Hrun|exact Hlaunch].
      intros t; intros; assumption. }
    destruct o as [[]|e]; eexists _, _; (split; [reflexivity|]); done.
  - eexists _, _. split; [reflexivity|]. simpl. split; [done|].
    destruct (launch env) as [[]|e']; [done|].
    destruct Hlaunch as [[= ->] Hb]. done.
Qed.

End ClosingFacts.
Import ClosingFacts.

(** Property X20.  [crawl] of the first crawler closes the browser
    exactly once whenever the launch succeeded, however the steps after
    the launch end; when the launch fails, nothing is closed and the error
    of the launch is the error of [crawl]. *)
Theorem crawl_closes_the_browser_it_launched env file0 :
  Simple.closeBrowser env = Returned tt →
  ∃ o s',
    Simple.crawl env (Simple.fresh file0) = (o, s') ∧
    match Simple.launch env with
    | Returned _ => Simple.closed s' = 1
    | Thrown e => Simple.closed s' = 0 ∧ o = Thrown e
    end.
Proof.
  intros Hclose. unfold Simple.crawl, tryFinally.
  destruct (crawl_body_run env (Simple.fresh file0))
    as (o & s1 & -> & Hclosed & Hlaunch).
  destruct (Simple.launch env) as [[]|e].
  - rewrite (SimpleFacts.close_after_launch _ _ Hlaunch Hclose).
    destruct o; eexists _, _; (split; [reflexivity|]); simpl;
      by rewrite Hclosed.
  - destruct Hlaunch as [-> Hb]. simpl in Hb.
    unfold Simple.close at 1. rewrite run_bind. unfold gets at 1. rewrite Hb.
    eexists _, _. split; [reflexivity|]. by rewrite Hclosed.
Qed.

Lemma crawl_closes_the_browser_it_launched_witness :
  ∃ o s',
    Simple.crawl Examples.firstRunWithoutUsername (Simple.fresh None) =
      (o, s') ∧
    Simple.closed s' = 1.
Proof.
  destruct (crawl_closes_the_browser_it_launched
              Examples.firstRunWithoutUsername None eq_refl)
    as (o & s' & Hrun & Hclosed).
  exists o, s'. split; [exact Hrun | exact Hclosed].
Defined.

(** ** Reading back what was saved at once *)

(** Property X21.  After [saveToCSV] has written a list of records
    (the write not failing), [getExistingNames] finds the name of every record of the list whose
    name is not empty, contains no comma, quote or line break and starts
    with no white space. *)
Theorem names_saved_at_once_are_read_back rs thisData d r :
  r ∈ rs → plainName (name r) →
  ∃ d' names w',
    saveToCSV (Some rs) thisData None d = (Returned tt, d') ∧
    getExistingNames None (base d') = (Returned names, w') ∧
    name r ∈ names.
Proof.
  intros Hin Hplain.
  destruct (names_after_rows None rs r (or_introl eq_refl) Hin Hplain)
    as (content & Hcontent & Hname).
  destruct rs as [|r0 rs]; [by apply elem_of_nil in Hin|].
  rewrite appendRows_None in Hcontent. injection Hcontent as <-.
  eexists _, _, _. split; [reflexivity|].
  cbn [base]. split; [apply getExistingNames_read | exact Hname].
Qed.

Lemma names_saved_at_once_are_read_back_witness :
  ∃ d' names w',
    saveToCSV (Some [Examples.janeDoe]) [] None (Desk Sample.freshWorld []) =
      (Returned tt, d') ∧
    getExistingNames None (base d') = (Returned names, w') ∧
    "Jane Doe" ∈ names.
Proof.
  apply (names_saved_at_once_are_read_back
           [Examples.janeDoe] [] (Desk Sample.freshWorld []) Examples.janeDoe).
  - apply list_elem_of_here.
  - repeat split; reflexivity.
Defined.

(** ** No field that the crawler computes is blank *)

Module BlankFacts.
Import Re.

(** A text with a code unit that is not white space is not trimmed to
    nothing. *)
Lemma trim_nonspace p c q :
  JS.isSpace c = false → JS.trim (p +:+ String c q) ≠ "".
Proof.
  intros Hc. unfold JS.trim. rewrite (trimStart_app_nonspace _ _ _ Hc).
  destruct (trimEnd_app_nonspace (JS.trimStart p) c q Hc) as [b' ->].
  by destruct (JS.trimStart p).
Qed.

Lemma isSpace_lowerChar c : JS.isSpace (JS.lowerChar c) = JS.isSpace c.
Proof. by destruct c as [[] [] [] [] [] [] [] []]. Qed.

Lemma orElse_nonblank a b : b ≠ "" → JS.orElse a b ≠ "".
Proof. intros Hb. unfold JS.orElse. by destruct a. Qed.

Lemma join_nonblank sep x xs : x ≠ "" → JS.join sep (x :: xs) ≠ "".
Proof.
  intros Hx. destruct x as [|c x]; [done|]. destruct xs as [|y xs]; [done|].
  cbn [JS.join]. by rewrite append_cons.
Qed.

(** A match of one of several words, whatever the case, starts as one of
    the words does. *)
Lemma matches_word words prev s rest :
  matches (alts (litI <$> words)) prev s rest →
  Forall (λ w, ∃ c t, w = String c t ∧ JS.isSpace c = false) words →
  ∃ c t, s = String c t ∧ JS.isSpace c = false.
Proof.
  intros Hm Hwords. apply matches_alts in Hm as (r & Hr & Hm).
  apply list_elem_of_fmap in Hr as (w & -> & Hw).
  apply (proj1 (Forall_forall _ _) Hwords) in Hw as (c & t & -> & Hc).
  apply matches_litI in Hm. destruct s as [|c' t']; [done|].
  simpl in Hm. injection Hm as Hl _.
  exists c', t'. split; [done|].
  by rewrite <- isSpace_lowerChar, Hl, isSpace_lowerChar.
Qed.

Ltac words := repeat constructor; by eexists _, _.

Lemma prominentDegree_nonblank prev s rest :
  matches Degree.prominentDegree prev s rest →
  ∃ p c q, s = p +:+ String c q ∧ JS.isSpace c = false.
Proof.
  unfold Degree.prominentDegree. intros H.
  apply matches_Seq in H as (s0 & s' & -> & _ & H).
  apply matches_Seq in H as (s1 & s2 & -> & H1 & _).
  apply matches_word in H1 as (c & t & -> & Hc); [|words].
  exists s0, c, (t +:+ s2). by rewrite append_cons.
Qed.

Lemma fullDegreeName_nonblank prev s rest :
  matches Degree.fullDegreeName prev s rest →
  ∃ p c q, s = p +:+ String c q ∧ JS.isSpace c = false.
Proof.
  unfold Degree.fullDegreeName. intros H.
  apply matches_Seq in H as (s1 & s2 & -> & H1 & _).
  apply matches_word in H1 as (c & t & -> & Hc); [|words].
  exists "", c, (t +:+ s2). by rewrite append_nil_l, append_cons.
Qed.

Lemma abbreviationWithField_nonblank prev s rest :
  matches Degree.abbreviationWithField prev s rest →
  ∃ p c q, s = p +:+ String c q ∧ JS.isSpace c = false.
Proof.
  unfold Degree.abbreviationWithField. intros H.
  apply matches_Seq in H as (s0 & s' & -> & _ & H).
  apply matches_Seq in H as (s1 & s2 & -> & H1 & _).
  apply matches_word in H1 as (c & t & -> & Hc); [|words].
  exists s0, c, (t +:+ s2). by rewrite append_cons.
Qed.

Lemma fullDegree_nonblank patterns fullText d :
  Forall (λ pattern, ∀ prev s rest,
            matches pattern prev s rest →
            ∃ p c q, s = p +:+ String c q ∧ JS.isSpace c = false) patterns →
  Degree.fullDegree patterns fullText = Some d → d ≠ "".
Proof.
  induction 1 as [|pattern rest Hp _ IH]; simpl; [done|].
  destruct (List.find Degree.reasonable (matchAll pattern fullText))
    as [m|] eqn:Hfind; [|exact IH].
  intros [= <-]. apply find_some in Hfind as [Hm _].
  apply list_elem_of_In, matchAll_sound in Hm as (prev & after & Hm).
  apply Hp in Hm as (p & c & q & -> & Hc). by apply trim_nonspace.
Qed.

Lemma simpleDegree_nonblank patterns fullText d :
  Forall (λ pattern, ∀ prev s rest,
            matches pattern prev s rest →
            ∃ p c q, s = p +:+ String c q ∧ JS.isSpace c = false) patterns →
  Degree.simpleDegree patterns fullText = Some d → d ≠ "".
Proof.
  induction 1 as [|pattern rest Hp _ IH]; simpl; [done|].
  destruct (matchAll pattern fullText) as [|m ms] eqn:Hall; [exact IH|].
  intros [= <-].
  assert (m ∈ matchAll pattern fullText) as Hm
    by (rewrite Hall; apply list_elem_of_here).
  apply matchAll_sound in Hm as (prev & after & Hm).
  apply Hp in Hm as (p & c & q & -> & Hc). by apply trim_nonspace.
Qed.

(** The loop over the lines of the section collects no empty entry. *)
Lemma degreeLineStep_nonblank acc line :
  Forall (λ x, x ≠ "") acc.2 →
  Forall (λ x, x ≠ "") (Degree.degreeLineStep acc line).2.
Proof.
  destruct acc as [currentYear degreeInfo]. unfold Degree.degreeLineStep.
  intros Hall. destruct (test Degree.yearLine line); [done|].
  destruct (test Degree.degreeLine line); [|done].
  cbv zeta.
  destruct (JS.truthy _ && _) eqn:Hclean; [|done].
  apply andb_true_iff in Hclean as [Hclean _].
  destruct (JS.trim _) as [|c cleanDegree]; [done|].
  destruct (JS.truthy currentYear); simpl; apply Forall_app; split; try done;
    by constructor.
Qed.

Lemma degreeLines_nonblank lines : ∀ acc,
  Forall (λ x, x ≠ "") acc.2 →
  Forall (λ x, x ≠ "") (foldl Degree.degreeLineStep acc lines).2.
Proof.
  induction lines as [|line lines IH]; intros acc Hacc; [done|].
  simpl. by apply IH, degreeLineStep_nonblank.
Qed.

Lemma degreesSection_nonblank fullText d :
  Degree.degreesSection fullText = Some d → d ≠ "".
Proof.
  unfold Degree.degreesSection. destruct (_ =? _)%Z; [done|]. cbv zeta.
  match goal with
  | |- context [foldl Degree.degreeLineStep ("", []) ?lines] =>
      pose proof (degreeLines_nonblank lines ("", [])) as Hall;
      destruct (foldl Degree.degreeLineStep ("", []) lines)
        as [year [|x xs]]
  end; [done|].
  simpl. intros [= <-]. apply join_nonblank.
  assert (Forall (λ x, x ≠ "") (x :: xs)) as Hx by (apply Hall; constructor).
  by inversion Hx.
Qed.

(** The degree is a text or N/A, never nothing. *)
Lemma extractDegree_nonblank fullText : Degree.extractDegree fullText ≠ "".
Proof.
  unfold Degree.extractDegree. cbv zeta.
  destruct (exec Degree.prominentDegree _) as [m|] eqn:Hm.
  { apply exec_sound in Hm as (pre & _ & _ & Hm).
    apply prominentDegree_nonblank in Hm as (p & c & q & -> & Hc).
    by apply trim_nonspace. }
  destruct (Degree.degreesSection fullText) as [d|] eqn:Hd.
  { by eapply degreesSection_nonblank. }
  destruct (Degree.fullDegree _ fullText) as [d|] eqn:Hf.
  { eapply fullDegree_nonblank; [|exact Hf].
    repeat constructor.
    - apply fullDegreeName_nonblank.
    - apply abbreviationWithField_nonblank. }
  destruct (Degree.simpleDegree _ fullText) as [d|] eqn:Hs; [|done].
  eapply simpleDegree_nonblank; [|exact Hs].
  repeat constructor. apply prominentDegree_nonblank.
Qed.

Lemma degreeOf_nonblank env : Profile.degreeOf env ≠ "".
Proof.
  unfold Profile.degreeOf. destruct (degreeBodyText env); simpl; [|done].
  apply extractDegree_nonblank.
Qed.

Lemma careerSupportOf_yes_or_no env nm v cs v' :
  Profile.careerSupportOf env nm v = (Returned cs, v') →
  cs = "Yes" ∨ cs = "No".
Proof.
  unfold Profile.careerSupportOf, tryCatch. rewrite run_bind. unfold await.
  destruct (hasCareerSupport env) as [[]|e]; intros [= <- _]; auto.
Qed.

Lemma professionalContactOf_yes_or_no env nm v pc v' :
  Profile.professionalContactOf env nm v = (Returned pc, v') →
  pc = "Yes" ∨ pc = "No".
Proof.
  unfold Profile.professionalContactOf, tryCatch. rewrite run_bind.
  unfold await.
  destruct (hasProfessionalContact env) as [[]|e]; intros [= <- _]; auto.
Qed.

(** The record of a visit, with what is known of the two flags. *)
Lemma visitProfile_flags env v r v' :
  Profile.visitProfile env v = (Returned (Some r), v') →
  ∃ nm cs pc,
    nm ≠ "" ∧ (cs = "Yes" ∨ cs = "No") ∧ (pc = "Yes" ∨ pc = "No") ∧
    r = Profile.makeRecord env nm (Profile.degreeOf env)
          (Profile.orNA (locationValue env))
          (Profile.orNA (companyValue env)) cs pc v'.
Proof.
  unfold Profile.visitProfile. intros H.
  apply bind_returned_inv in H as (nm & v1 & Hname & H).
  apply bind_returned_inv in H as ([link|] & v2 & Hlink & H);
    [|discriminate].
  apply bind_returned_inv in H as ([] & v3 & Hclick & H).
  cbv zeta in H.
  apply bind_returned_inv in H as ([] & v4 & Hcontacts & H).
  apply bind_returned_inv in H as (cs & v5 & Hcs & H).
  apply bind_returned_inv in H as (pc & v6 & Hpc & H).
  apply bind_returned_inv in H as ([] & v7 & Hskills & H).
  apply bind_returned_inv in H as ([] & v8 & Hback & H).
  unfold await in Hback. injection Hback as _ <-.
  injection H as <- <-.
  exists nm, cs, pc.
  split; [by eapply ProfileFacts.extractName_nonempty|].
  split; [by eapply careerSupportOf_yes_or_no|].
  split; [by eapply professionalContactOf_yes_or_no | done].
Qed.

End BlankFacts.
Import BlankFacts.

(** Property X22.  No field that the extractor computes is left
    blank: in every extracted record the name, the degree, the two email
    fields, the URLs, the phone and the skills are not empty (a text or
    N/A), the class year is N/A, and the two flags are Yes or No. *)
Theorem extracted_fields_are_never_blank r :
  extracted r →
  name r ≠ "" ∧ classYear r = "N/A" ∧ degree r ≠ "" ∧
  stanfordEmail r ≠ "" ∧ personalEmail r ≠ "" ∧ urls r ≠ "" ∧
  phone r ≠ "" ∧ skills r ≠ "" ∧
  (careerSupport r = "Yes" ∨ careerSupport r = "No") ∧
  (professionalContact r = "Yes" ∨ professionalContact r = "No").
Proof.
  intros (env & w & w' & Hrun). unfold extractAlumniFromElement in Hrun.
  destruct (extractAlumniFromElementIn env (Vars.init (console w)))
    as [result v] eqn:Hin.
  injection Hrun as -> _.
  apply RecordFacts.extractAlumniFromElementIn_record in Hin.
  apply visitProfile_flags in Hin as (nm & cs & pc & Hnm & Hcs & Hpc & ->).
  cbn [Profile.makeRecord name classYear degree stanfordEmail personalEmail
         urls phone skills careerSupport professionalContact].
  split; [done|]. split; [done|]. split; [apply degreeOf_nonblank|].
  repeat (split; [by apply orElse_nonblank|]). done.
Qed.

Lemma extracted_fields_are_never_blank_witness :
  ∃ r w',
    extractAlumniFromElement (Sample.card "Jane Doe" "2024-05-01T10:00:00.000Z")
      Sample.freshWorld = (Returned (Some r), w') ∧
    degree r ≠ "" ∧ phone r ≠ "" ∧ skills r ≠ "".
Proof.
  destruct (extractAlumniFromElement
              (Sample.card "Jane Doe" "2024-05-01T10:00:00.000Z")
              Sample.freshWorld) as [[[r|]|e] w'] eqn:Hrun;
    try (vm_compute in Hrun; discriminate).
  exists r, w'. split; [reflexivity|].
  destruct (extracted_fields_are_never_blank r
              (ex_intro _ (Sample.card "Jane Doe" "2024-05-01T10:00:00.000Z")
                 (ex_intro _ Sample.freshWorld (ex_intro _ w' Hrun))))
    as (_ & _ & Hdegree & _ & _ & _ & Hphone & Hskills & _).
  split; [exact Hdegree|]. split; [exact Hphone | exact Hskills].
Defined.

(** ** Where the skills come from *)

Module SkillFacts.
Import Profile ProfileFacts.

(** Nothing before the skills block records a skill. *)
Lemma contacts_record_no_skill env nm :
  maintains (λ v, Vars.skills v = []) (extractContacts env nm).
Proof.
  unfold extractContacts.
  apply maintains_tryCatch; [|intros; untouched].
  apply visit_contactsBlock.
  - intros. untouched.
  - by apply maintains_modify.
  - intros. unfold extractUrls, urlFromLink, urlFromText. untouched.
  - intros. unfold extractPhones, phonesFromElement, addPhone,
      addPlausiblePhone. untouched.
  - intros. unfold emailsInText. untouched.
  - intros. unfold emailFromHref. untouched.
  - intros. unfold emailsAfterClick. untouched.
  - intros. unfold emailsFromPage. untouched.
Qed.

(** The loop over the patterns records the first capture that is not
    empty, and nothing else. *)
Lemma skillFromPatterns_result patterns pageText v o v' :
  Vars.skills v = [] →
  skillFromPatterns patterns pageText v = (o, v') →
  Vars.skills v' = [] ∨
  ∃ pattern m captured,
    pattern ∈ patterns ∧ Re.exec pattern pageText = Some m ∧
    Re.group m = Some captured ∧ JS.truthy captured = true ∧
    Vars.skills v' = [JS.trim captured].
Proof.
  intros Hv. induction patterns as [|pattern rest IH]; simpl.
  - intros [= _ <-]. by left.
  - assert (skillFromPatterns rest pageText v = (o, v') →
            Vars.skills v' = [] ∨
            ∃ pattern0 m captured,
              pattern0 ∈ pattern :: rest ∧
              Re.exec pattern0 pageText = Some m ∧
              Re.group m = Some captured ∧ JS.truthy captured = true ∧
              Vars.skills v' = [JS.trim captured]) as Hrest.
    { intros [?|(p & m & c & Hp & ?)]%IH; [by left|].
      right. exists p, m, c. split; [by apply list_elem_of_further | done]. }
    destruct (Re.exec pattern pageText) as [m|] eqn:Hexec; [|exact Hrest].
    destruct (Re.group m) as [captured|] eqn:Hgroup; [|exact Hrest].
    destruct (JS.truthy captured) eqn:Htruthy; [|exact Hrest].
    intros [= _ <-]. right. exists pattern, m, captured.
    split; [apply list_elem_of_here|]. cbn [Vars.skills]. by rewrite Hv.
Qed.

(** Where the entry of the skills list comes from: the section when it
    has a text, and the patterns only when it has none. *)
Lemma extractSkills_result env nm v o v' :
  Vars.skills v = [] →
  extractSkills env nm v = (o, v') →
  Vars.skills v' = [] ∨
  (∃ section, skillsSection env = Returned section ∧
              JS.truthy (JS.trim section) = true ∧
              Vars.skills v' = [JS.trim section]) ∨
  (∃ section pageText pattern m captured,
     skillsSection env = Returned section ∧
     JS.truthy (JS.trim section) = false ∧
     skillsBodyText env = Returned pageText ∧
     pattern ∈ skillPatterns ∧ Re.exec pattern pageText = Some m ∧
     Re.group m = Some captured ∧ JS.truthy captured = true ∧
     Vars.skills v' = [JS.trim captured]).
Proof.
  intros Hv. unfold extractSkills, skillsBlock, tryCatch.
  rewrite run_bind. unfold await at 1.
  destruct (skillsSection env) as [section|e] eqn:Hsection.
  2: { intros [= _ <-]. by left. }
  rewrite run_bind.
  destruct (JS.truthy section && JS.truthy (JS.trim section)) eqn:Hc.
  - apply andb_true_iff in Hc as [_ Hc].
    unfold pushSkill at 1, modify at 1. rewrite run_bind. unfold gets at 1.
    cbn [Vars.skills]. rewrite Hv. cbn [app length].
    rewrite bool_decide_eq_false_2 by done.
    intros [= _ <-]. right. left. by exists section.
  - assert (JS.truthy (JS.trim section) = false) as Hblank.
    { destruct (JS.truthy section) eqn:Hs; [done|].
      destruct section; [done|discriminate]. }
    unfold ret at 1. rewrite run_bind. unfold gets at 1. rewrite Hv.
    cbn [length]. rewrite bool_decide_eq_true_2 by done.
    rewrite run_bind. unfold await at 1.
    destruct (skillsBodyText env) as [pageText|e] eqn:Hbody.
    2: { intros [= _ <-]. by left. }
    destruct (skillFromPatterns skillPatterns pageText v) as [o1 v1] eqn:Hrun.
    apply (skillFromPatterns_result _ _ _ _ _ Hv) in Hrun
      as [Hnone|(pattern & m & captured & Hp & Hexec & Hgroup & Ht & Hone)].
    + destruct o1; intros [= _ <-]; by left.
    + destruct o1; intros [= _ <-]; cbn [Vars.skills]; right; right;
        by exists section, pageText, pattern, m, captured.
Qed.

End SkillFacts.
Import SkillFacts.

(** Property X23.  The skills field of an extracted record is N/A,
    or the trimmed text of the skills section when that text is not
    blank, or else, the section being blank, the trimmed capture of the
    first skill pattern that matches the page text with a capture: the
    patterns are a fallback, and the field never mixes the two. *)
Theorem skills_come_from_the_section_or_else_the_first_pattern
    env out r v' :
  extractAlumniFromElementIn env (Vars.init out) = (Returned (Some r), v') →
  skills r = NA ∨
  (∃ section, skillsSection env = Returned section ∧
              JS.truthy (JS.trim section) = true ∧
              skills r = JS.trim section) ∨
  (∃ section pageText pattern m captured,
     skillsSection env = Returned section ∧
     JS.truthy (JS.trim section) = false ∧
     skillsBodyText env = Returned pageText ∧
     pattern ∈ Profile.skillPatterns ∧
     Re.exec pattern pageText = Some m ∧ Re.group m = Some captured ∧
     skills r = JS.trim captured).
Proof.
  intros H. apply RecordFacts.extractAlumniFromElementIn_record in H.
  unfold Profile.visitProfile in H.
  apply bind_returned_inv in H as (nm & v1 & Hname & H).
  apply bind_returned_inv in H as ([link|] & v2 & Hlink & H);
    [|discriminate].
  apply bind_returned_inv in H as ([] & v3 & Hclick & H).
  cbv zeta in H.
  apply bind_returned_inv in H as ([] & v4 & Hcontacts & H).
  apply bind_returned_inv in H as (cs & v5 & Hcs & H).
  apply bind_returned_inv in H as (pc & v6 & Hpc & H).
  apply bind_returned_inv in H as ([] & v7 & Hskills & H).
  apply bind_returned_inv in H as ([] & v8 & Hback & H).
  unfold await in Hback. injection Hback as _ <-.
  injection H as <- <-.
  assert (Vars.skills v6 = []) as Hnone.
  { rewrite (ProfileFacts.professionalContactOf_keeps Vars.skills _ _
               ProfileFacts.say_keeps_skills _ _ _ Hpc).
    rewrite (ProfileFacts.careerSupportOf_keeps Vars.skills _ _
               ProfileFacts.say_keeps_skills _ _ _ Hcs).
    apply (contacts_record_no_skill _ _ _ _ _ Hcontacts).
    unfold await in Hclick. injection Hclick as _ <-.
    rewrite (ProfileFacts.findProfileLink_keeps Vars.skills _
               ProfileFacts.say_keeps_skills _ _ _ Hlink).
    by rewrite (ProfileFacts.extractName_keeps Vars.skills _
                  ProfileFacts.say_keeps_skills _ _ _ Hname). }
  cbn [Profile.makeRecord skills].
  destruct (extractSkills_result _ _ _ _ _ Hnone Hskills)
    as [->|[(section & Hsection & Htruthy & ->)|
            (section & pageText & pattern & m & captured & Hsection & Hblank &
             Hbody & Hp & Hexec & Hgroup & _ & ->)]].
  - by left.
  - right. left. exists section. split; [done|]. split; [done|].
    cbn [JS.join]. unfold JS.orElse. by rewrite Htruthy.
  - cbn [JS.join]. unfold JS.orElse.
    destruct (JS.truthy (JS.trim captured)); [|by left].
    right. right. by exists section, pageText, pattern, m, captured.
Qed.

Lemma skills_come_from_the_section_or_else_the_first_pattern_witness :
  ∃ r v',
    extractAlumniFromElementIn Examples.cardWithSkillsInText (Vars.init []) =
      (Returned (Some r), v') ∧
    skills r = "negotiation, public speaking" ∧
    (skills r = NA ∨
     (∃ section,
        skillsSection Examples.cardWithSkillsInText = Returned section ∧
        JS.truthy (JS.trim section) = true ∧ skills r = JS.trim section) ∨
     (∃ section pageText pattern m captured,
        skillsSection Examples.cardWithSkillsInText = Returned section ∧
        JS.truthy (JS.trim section) = false ∧
        skillsBodyText Examples.cardWithSkillsInText = Returned pageText ∧
        pattern ∈ Profile.skillPatterns ∧
        Re.exec pattern pageText = Some m ∧ Re.group m = Some captured ∧
        skills r = JS.trim captured)).
Proof.
  destruct (extractAlumniFromElementIn Examples.cardWithSkillsInText
              (Vars.init [])) as [[[r|]|e] v'] eqn:Hrun;
    try (vm_compute in Hrun; discriminate).
  exists r, v'. split; [reflexivity|]. split.
  - vm_compute in Hrun. by injection Hrun as <- _.
  - exact (skills_come_from_the_section_or_else_the_first_pattern
             Examples.cardWithSkillsInText [] r v' Hrun).
Defined.
